(** * Activity dump manager: a shallow embedding of
      pkg/security/probe/activity_dump_manager.go

    The manager's state is threaded explicitly through a small state monad.
    Dumps live in a heap and the registry, the snapshot queue and every
    method receiver hold pointers into it, as the Go code holds
    [*ActivityDump].  Every public method runs under the manager's lock
    ([adm.Lock(); defer adm.Unlock()]), so one method call is one atomic
    step of the model, and [time.Now()] reads the instant of that step. *)

From Stdlib Require Import ZArith List String Bool Lia Ascii.
From Stdlib.Strings Require Import Byte.
Import ListNotations.
Set Warnings "-register-all".
Local Open Scope Z_scope.
Local Open Scope list_scope.

(** ** Go base types *)

(** [time.Time]: a wall-clock instant, in nanoseconds. *)
Definition Time := Z.
(** [time.Duration]: an int64 count of nanoseconds. *)
Definition Duration := Z.

Definition minInt64 : Z := - 2 ^ 63.
Definition maxInt64 : Z := 2 ^ 63 - 1.

(** Two's complement reduction of an integer to int64. *)
Definition wrap64 (z : Z) : Z := (z + 2 ^ 63) mod 2 ^ 64 - 2 ^ 63.

Module time.
Definition Minute : Duration := 60 * 1000000000.
(** [a * b] on two [time.Duration]s: int64 multiplication. *)
Definition mul (a b : Duration) : Duration := wrap64 (a * b).
(** [t.Add(d)]. *)
Definition Add (t : Time) (d : Duration) : Time := t + d.
(** [t.Sub(u)]: the difference, saturated to the int64 range. *)
Definition Sub (t u : Time) : Duration :=
  Z.max minInt64 (Z.min maxInt64 (t - u)).
(** [t.After(u)]: t is strictly later than u. *)
Definition After (t u : Time) : bool := u <? t.
End time.

(** [copy(make([]byte, n), s)]: the first [n] bytes of [s], padded with
    zero bytes up to [n]. *)
Fixpoint padBytes (n : nat) (s : list byte) : list byte :=
  match n with
  | O => []
  | S n' =>
      match s with
      | [] => x00 :: padBytes n' []
      | b :: s' => b :: padBytes n' s'
      end
  end.

Definition bytesOf (n : nat) (s : string) : list byte :=
  padBytes n (list_byte_of_string s).

(** [len(s) > 0] on a Go string. *)
Definition nonEmpty (s : string) : bool := negb (String.eqb s "").

(** ** Errors and log entries *)

(** A Go [error]: either produced by a collaborator, or built by
    [fmt.Errorf] / [errors.Errorf] / [errors.Wrapf] from a message, the
    formatted argument and the wrapped cause. *)
Inductive error : Type :=
| External (msg : string)
| Errorf (msg : string) (arg : string) (cause : option error).

(** [err.Error()]. *)
Fixpoint Error (e : error) : string :=
  match e with
  | External m => m
  | Errorf m a None => (m ++ a)%string
  | Errorf m a (Some c) => (m ++ a ++ ": " ++ Error c)%string
  end.

Inductive Level := Debug | Info | Warn | Err.

(** One call to [seclog.Debugf] / [Infof] / [Warnf] / [Errorf]. *)
Record LogEntry := mkLog {
  level : Level;
  format : string;
  args : list string
}.

(** ** Process cache entries *)

(** [model.ProcessCacheEntry] as the manager sees it: a pid and the link
    followed by [GetNextAncestorNoFork()] ([None] is the nil pointer). *)
Inductive ProcessCacheEntry : Type :=
| PCE (Pid : Z) (ProcComm : string) (ancestor : option ProcessCacheEntry).

Definition Pid (e : ProcessCacheEntry) : Z :=
  match e with PCE p _ _ => p end.

Definition GetNextAncestorNoFork (e : ProcessCacheEntry)
  : option ProcessCacheEntry :=
  match e with PCE _ _ a => a end.

(** ** Activity dumps *)

Inductive Status := Open | Closed.

Record ActivityDump := mkDump {
  ContainerID : string;
  Comm : string;
  Start : Time;
  Timeout : Duration;
  DifferentiateArgs : bool;
  WithGraph : bool;
  status : Status;
  (** pids of the process nodes of the tree, in creation order *)
  tree : list Z
}.

Definition set_status (st : Status) (d : ActivityDump) : ActivityDump :=
  mkDump (ContainerID d) (Comm d) (Start d) (Timeout d)
         (DifferentiateArgs d) (WithGraph d) st (tree d).

Definition set_tree (t : list Z) (d : ActivityDump) : ActivityDump :=
  mkDump (ContainerID d) (Comm d) (Start d) (Timeout d)
         (DifferentiateArgs d) (WithGraph d) (status d) t.

(** The zero value of the struct. *)
Definition zeroDump : ActivityDump :=
  mkDump "" "" 0 0 false false Open [].

(** Modelled from the spec: [ActivityDump.CommMatches] is declared in
    activity_dump.go, which is absent; the spec's stop operation scans for
    "the first active dump whose Comm equals the target". *)
Definition CommMatches (d : ActivityDump) (comm : string) : bool :=
  String.eqb (Comm d) comm.

(** Modelled from the spec: [ActivityDump.Done] is absent; the spec's
    "finalize (Closed)", a one-way transition. *)
Definition Done (d : ActivityDump) : ActivityDump := set_status Closed d.

(** ** Filter store (eBPF maps) *)

Inductive MapName :=
| traced_pids | traced_comms | traced_event_types | traced_cgroups
| cgroups_wait_list.

Definition MapName_eqb (a b : MapName) : bool :=
  match a, b with
  | traced_pids, traced_pids | traced_comms, traced_comms
  | traced_event_types, traced_event_types
  | traced_cgroups, traced_cgroups
  | cgroups_wait_list, cgroups_wait_list => true
  | _, _ => false
  end.

(** Keys are fixed-width byte buffers (comm, container id) or a uint32
    (pid); values are uint64 timestamps or flags. *)
Inductive Key := KBytes (b : list byte) | KU32 (n : Z).

Definition Key_eqb (a b : Key) : bool :=
  match a, b with
  | KBytes x, KBytes y =>
      if list_eq_dec Byte.byte_eq_dec x y then true else false
  | KU32 x, KU32 y => x =? y
  | _, _ => false
  end.

Definition EbpfMap := list (Key * Z).

Fixpoint upsert (k : Key) (v : Z) (m : EbpfMap) : EbpfMap :=
  match m with
  | [] => [(k, v)]
  | (k', v') :: m' =>
      if Key_eqb k k' then (k, v) :: m' else (k', v') :: upsert k v m'
  end.

(** ** Files *)

Record File := mkFile { data : string; mode : Z }.
Definition FS := list (string * File).

Fixpoint fsLookup (path : string) (fs : FS) : option File :=
  match fs with
  | [] => None
  | (p, f) :: fs' => if String.eqb p path then Some f else fsLookup path fs'
  end.

Fixpoint fsUpdate (path : string) (f : File) (fs : FS) : FS :=
  match fs with
  | [] => [(path, f)]
  | (p, g) :: fs' =>
      if String.eqb p path then (p, f) :: fs' else (p, g) :: fsUpdate path f fs'
  end.

(** ** Collaborator calls *)

Definition ptr := nat.

(** The calls the manager issues to its collaborators, recorded in the
    order they are made. *)
Inductive Call :=
| CPut (m : MapName) (k : Key) (v : Z)
| CFindOrCreate (ad : ptr) (entry : ProcessCacheEntry)
| CInsert (ad : ptr) (event : Z)
| CSnapshot (ad : ptr)
| CResolveTags (ad : ptr)
| CClose (ad : ptr)
| CDumpSendStats (ad : ptr)
| CGauge (name : string) (value : Z).

(** ** Manager state *)

Record Config := mkConfig {
  ActivityDumpCgroupsWaitListSize : Z;
  ActivityDumpDefaultDumpTimeout : Duration
}.

Record ActivityDumpManager := mkADM {
  config : Config;
  (** the entries [ProcessResolver.Walk] visits, in the order of the visit *)
  processes : list ProcessCacheEntry;
  now : Time;
  heap : ptr -> ActivityDump;
  next : ptr;
  activeDumps : list ptr;
  snapshotQueue : list ptr;
  maps : MapName -> EbpfMap;
  log : list LogEntry;
  calls : list Call;
  fs : FS
}.

(** Capacity of [make(chan *ActivityDump, 100)]. *)
Definition snapshotQueueCap : nat := 100.

Definition tracedPIDsMap (s : ActivityDumpManager) := maps s traced_pids.
Definition tracedCommsMap (s : ActivityDumpManager) := maps s traced_comms.
Definition tracedCgroupsMap (s : ActivityDumpManager) := maps s traced_cgroups.
Definition cgroupsWaitListMap (s : ActivityDumpManager) :=
  maps s cgroups_wait_list.

Definition set_now t (s : ActivityDumpManager) :=
  mkADM (config s) (processes s) t (heap s) (next s) (activeDumps s)
        (snapshotQueue s) (maps s) (log s) (calls s) (fs s).
Definition set_heap h (s : ActivityDumpManager) :=
  mkADM (config s) (processes s) (now s) h (next s) (activeDumps s)
        (snapshotQueue s) (maps s) (log s) (calls s) (fs s).
Definition set_next n (s : ActivityDumpManager) :=
  mkADM (config s) (processes s) (now s) (heap s) n (activeDumps s)
        (snapshotQueue s) (maps s) (log s) (calls s) (fs s).
Definition set_activeDumps l (s : ActivityDumpManager) :=
  mkADM (config s) (processes s) (now s) (heap s) (next s) l
        (snapshotQueue s) (maps s) (log s) (calls s) (fs s).
Definition set_snapshotQueue q (s : ActivityDumpManager) :=
  mkADM (config s) (processes s) (now s) (heap s) (next s) (activeDumps s)
        q (maps s) (log s) (calls s) (fs s).
Definition set_maps m (s : ActivityDumpManager) :=
  mkADM (config s) (processes s) (now s) (heap s) (next s) (activeDumps s)
        (snapshotQueue s) m (log s) (calls s) (fs s).
Definition set_log l (s : ActivityDumpManager) :=
  mkADM (config s) (processes s) (now s) (heap s) (next s) (activeDumps s)
        (snapshotQueue s) (maps s) l (calls s) (fs s).
Definition set_calls c (s : ActivityDumpManager) :=
  mkADM (config s) (processes s) (now s) (heap s) (next s) (activeDumps s)
        (snapshotQueue s) (maps s) (log s) c (fs s).
Definition set_fs f (s : ActivityDumpManager) :=
  mkADM (config s) (processes s) (now s) (heap s) (next s) (activeDumps s)
        (snapshotQueue s) (maps s) (log s) (calls s) f.

(** ** The state monad *)

Definition M (A : Type) : Type := ActivityDumpManager -> A * ActivityDumpManager.

Definition ret {A} (a : A) : M A := fun s => (a, s).
Definition bind {A B} (m : M A) (k : A -> M B) : M B :=
  fun s => let (a, s') := m s in k a s'.
Definition gets {A} (f : ActivityDumpManager -> A) : M A := fun s => (f s, s).
Definition modify (f : ActivityDumpManager -> ActivityDumpManager) : M unit :=
  fun s => (tt, f s).

Declare Scope adm_scope.
Delimit Scope adm_scope with adm.
Notation "x <- c ;; k" := (bind c (fun x => k))
  (at level 61, c at next level, right associativity) : adm_scope.
Notation "c ;; k" := (bind c (fun _ => k))
  (at level 61, right associativity) : adm_scope.
Local Open Scope adm_scope.

(** [for _, x := range l { body x }]. *)
Fixpoint forEach {A} (l : list A) (body : A -> M unit) : M unit :=
  match l with
  | [] => ret tt
  | x :: l' => body x ;; forEach l' body
  end.

Definition when (b : bool) (m : M unit) : M unit := if b then m else ret tt.

(** Dereference and in-place update of a dump. *)
Definition deref (p : ptr) : M ActivityDump := gets (fun s => heap s p).

Definition updHeap (h : ptr -> ActivityDump) (p : ptr) (d : ActivityDump)
  : ptr -> ActivityDump :=
  fun q => if Nat.eqb q p then d else h q.

Definition update (p : ptr) (f : ActivityDump -> ActivityDump) : M unit :=
  modify (fun s => set_heap (updHeap (heap s) p (f (heap s p))) s).

Definition logf (lvl : Level) (fmt : string) (a : list string) : M unit :=
  modify (fun s => set_log (log s ++ [mkLog lvl fmt a]) s).

Definition call (c : Call) : M unit :=
  modify (fun s => set_calls (calls s ++ [c]) s).

Definition timeNow : M Time := gets now.

(** ** Collaborators *)

(** Profile document data, [ActivityDump.GenerateProfileData()]. *)
Record ProfileRule := mkRule { ID : string; Expression : string }.
Record ProfileData := mkProfile {
  Name : string;
  Selector : string;
  Rules : list ProfileRule
}.

(** What the manager takes from the rest of the agent: constants and
    helpers declared outside activity_dump_manager.go, and the outcome of
    every call that can fail outside the manager's control.  A fault
    function returns the error of the call, or [None] when it succeeds. *)
Record Env := mkEnv {
  (** [model.ContainerIDLen] *)
  ContainerIDLen : nat;
  (** [metrics.MetricActivityDumpActiveDumps] *)
  MetricActivityDumpActiveDumps : string;
  (** [TimeResolver.ComputeMonotonicTimestamp] and its inverse *)
  ComputeMonotonicTimestamp : Time -> Z;
  ResolveMonotonicTimestamp : Z -> Time;
  (** [ActivityDump.GetSelectorStr] *)
  GetSelectorStr : ActivityDump -> string;
  (** whether a dump takes a process into its tree *)
  Matches : ActivityDump -> ProcessCacheEntry -> bool;
  (** [ActivityDump.GenerateProfileData] *)
  GenerateProfileData : ActivityDump -> ProfileData;
  (** [json.Unmarshal] into an [ActivityDump] *)
  jsonUnmarshal : string -> error + ActivityDump;
  (** the random part of the name [ioutil.TempFile] picks *)
  tempSuffix : FS -> string;
  putErr : MapName -> Key -> Z -> option error;
  newDumpErr : ActivityDump -> option error;
  dumpSendStatsErr : ptr -> option error;
  gaugeErr : string -> Z -> option error;
  resolveTagsErr : ptr -> option error;
  snapshotErr : ptr -> option error;
  openErr : string -> option error;
  readErr : string -> option error;
  tempFileErr : string -> option error;
  chmodErr : string -> Z -> option error;
  executeErr : string -> option error;
  (** how many bytes of the document went through the file when
      [t.Execute] failed *)
  executeWritten : string -> nat
}.

(** ** API messages *)

Record DumpActivityParams := mkDumpParams {
  paramComm : string;
  paramTimeout : Z;
  paramDifferentiateArgs : bool;
  paramWithGraph : bool
}.

Record CgroupTracingEvent := mkCgroupEvent {
  ContainerContextID : string;
  TimeoutRaw : Z
}.

(** [api.SecurityActivityDumpMessage]: the metadata of a dump, or an
    error. *)
Record SecurityActivityDumpMessage := mkDumpMsg {
  Metadata : option ActivityDump;
  DumpError : string
}.

Record SecurityActivityDumpStoppedMessage := mkStoppedMsg {
  StoppedError : string
}.

Record SecurityProfileGeneratedMessage := mkProfileMsg {
  ProfilePath : string;
  ProfileError : string
}.

(** Modelled from the spec: [ActivityDump.ToSecurityActivityDumpMessage] is
    absent; the spec's "metadata export", the answer
    [SecurityActivityDumpMessage{metadata | Error}] with the metadata. *)
Definition ToSecurityActivityDumpMessage (d : ActivityDump)
  : SecurityActivityDumpMessage := mkDumpMsg (Some d) "".

(** ** The manager *)

(** [append(a[:i], a[i+1:]...)] *)
Definition removeAt {A} (i : nat) (a : list A) : list A :=
  firstn i a ++ skipn (S i) a.

(** The loop of [SearchTracedProcessCacheEntryCallback] entered with
    [parent = q]: prepend [q], move to its ancestor, until nil. *)
Fixpoint prependAncestors (q : ProcessCacheEntry)
         (ancestors : list ProcessCacheEntry) : list ProcessCacheEntry :=
  match q with
  | PCE _ _ None => q :: ancestors
  | PCE _ _ (Some q') => prependAncestors q' (q :: ancestors)
  end.

Definition computeAncestors (entry : ProcessCacheEntry)
  : list ProcessCacheEntry :=
  match GetNextAncestorNoFork entry with
  | None => [entry]
  | Some parent => prependAncestors parent [entry]
  end.

(** [template.Execute] of [profileTmpl]. *)
Definition nl : string := String (ascii_of_nat 10) EmptyString.

Definition renderRule (r : ProfileRule) : string :=
  (nl ++ "  - id: " ++ ID r ++ nl ++ "    expression: " ++ Expression r ++ nl)%string.

Definition renderProfile (p : ProfileData) : string :=
  ("---" ++ nl ++ "name: " ++ Name p ++ nl ++ "selector:" ++ nl
   ++ "  - " ++ Selector p ++ nl ++ nl ++ "rules:"
   ++ String.concat "" (map renderRule (Rules p)) ++ nl)%string.

Section Manager.

Variable env : Env.

(** [m.Put(k, v)] on one of the manager's maps. *)
Definition Put (m : MapName) (k : Key) (v : Z) : M (option error) :=
  call (CPut m k v) ;;
  match putErr env m k v with
  | Some e => ret (Some e)
  | None =>
      modify (fun s =>
        set_maps (fun n => if MapName_eqb n m then upsert k v (maps s n)
                           else maps s n) s) ;;
      ret None
  end.

(** Modelled from the spec: [GetTimeoutRawTimestamp] is absent; the spec
    writes "expiry = dump's own timeout instant", in the kernel's clock. *)
Definition GetTimeoutRawTimestamp (d : ActivityDump) : Z :=
  ComputeMonotonicTimestamp env (time.Add (Start d) (Timeout d)).

(** Modelled from the spec: [NewActivityDump] is absent; the spec's dump is
    "created by the Manager via a factory taking a selector-populating
    callback", with Start the creation timestamp.  The callers use the
    returned dump on their error path too, so a dump is returned with the
    error. *)
Definition NewActivityDump (options : ActivityDump -> ActivityDump)
  : M (ptr * option error) :=
  t <- timeNow ;;
  p <- gets next ;;
  let d := options (mkDump "" "" t 0 false false Open []) in
  modify (fun s => set_next (S p) (set_heap (updHeap (heap s) p d) s)) ;;
  ret (p, newDumpErr env d).

(** Modelled from the spec: [FindOrCreateProcessActivityNode] is absent; the
    spec's seeding "inserts nodes into the dump's tree".  The node of a
    process the dump takes is found or appended; nil for the others. *)
Definition FindOrCreateProcessActivityNode (ad : ptr)
           (entry : ProcessCacheEntry) : M (option Z) :=
  call (CFindOrCreate ad entry) ;;
  d <- deref ad ;;
  if Matches env d entry then
    when (negb (existsb (Z.eqb (Pid entry)) (tree d)))
         (update ad (fun d => set_tree (tree d ++ [Pid entry]) d)) ;;
    ret (Some (Pid entry))
  else ret None.

(** Modelled from the spec: [UpdateTracedPidTimeout] is absent; the spec
    extends the traced-pid expiry in the filter store to the dump's own
    timeout, a best-effort write whose failure is logged. *)
Definition UpdateTracedPidTimeout (ad : ptr) (pid : Z) : M unit :=
  d <- deref ad ;;
  err <- Put traced_pids (KU32 pid) (GetTimeoutRawTimestamp d) ;;
  match err with
  | Some e => logf Debug "couldn't update the traced pid timeout: %v" [Error e]
  | None => ret tt
  end.

Definition SearchTracedProcessCacheEntryCallback (ad : ptr)
           (entry : ProcessCacheEntry) : M unit :=
  let ancestors := computeAncestors entry in
  forEach ancestors (fun parent =>
    node <- FindOrCreateProcessActivityNode ad parent ;;
    match node with
    | Some pid => UpdateTracedPidTimeout ad pid
    | None => ret tt
    end).

(** [ProcessResolver.Walk(callback)] *)
Definition Walk (callback : ProcessCacheEntry -> M unit) : M unit :=
  entries <- gets processes ;;
  forEach entries callback.

(** [select { case adm.snapshotQueue <- newDump: default: }] *)
Definition trySend (newDump : ptr) : M unit :=
  q <- gets snapshotQueue ;;
  if (List.length q <? snapshotQueueCap)%nat
  then modify (set_snapshotQueue (q ++ [newDump]))
  else ret tt.

(** The two sanity checks of [insertActivityDump]: a dump is already
    active for this container ID, for this comm. *)
Definition containerIDActive (s : ActivityDumpManager) (nd : ActivityDump)
  : bool :=
  nonEmpty (ContainerID nd)
  && existsb (fun p => String.eqb (ContainerID (heap s p)) (ContainerID nd))
             (activeDumps s).

Definition commActive (s : ActivityDumpManager) (nd : ActivityDump) : bool :=
  nonEmpty (Comm nd)
  && existsb (fun p => String.eqb (Comm (heap s p)) (Comm nd))
             (activeDumps s).

(** "put this container ID on the wait list so that we don't snapshot it
    again before a while" *)
Definition pushWaitList (nd : ActivityDump) : M unit :=
  let containerIDB := bytesOf (ContainerIDLen env) (ContainerID nd) in
  t <- timeNow ;;
  cfg <- gets config ;;
  let waitListTimeout :=
    time.Add t (time.mul (ActivityDumpCgroupsWaitListSize cfg)
                         (ActivityDumpDefaultDumpTimeout cfg)) in
  let waitListTimeoutRaw := ComputeMonotonicTimestamp env waitListTimeout in
  err <- Put cgroups_wait_list (KBytes containerIDB) waitListTimeoutRaw ;;
  match err with
  | Some e =>
      logf Debug "couldn't insert container ID %s to cgroups_wait_list: %v"
           [ContainerID nd; Error e]
  | None => ret tt
  end.

Definition pushTracedComm (nd : ActivityDump) : M unit :=
  let commB := bytesOf 16 (Comm nd) in
  let value := GetTimeoutRawTimestamp nd in
  err <- Put traced_comms (KBytes commB) value ;;
  match err with
  | Some e =>
      logf Debug "couldn't insert activity dump filter comm(%s): %v"
           [Comm nd; Error e]
  | None => ret tt
  end.

(** "dump will be added, push kernel space filters" *)
Definition pushFilters (newDump : ptr) : M unit :=
  nd <- deref newDump ;;
  when (nonEmpty (ContainerID nd)) (pushWaitList nd) ;;
  when (nonEmpty (Comm nd)) (pushTracedComm nd).

Definition insertActivityDump (newDump : ptr) : M (option error) :=
  nd <- deref newDump ;;
  byContainerID <- gets (fun s => containerIDActive s nd) ;;
  if byContainerID then ret None
  else
    byComm <- gets (fun s => commActive s nd) ;;
    if byComm then ret None
    else
      pushFilters newDump ;;
      Walk (SearchTracedProcessCacheEntryCallback newDump) ;;
      trySend newDump ;;
      modify (fun s => set_activeDumps (activeDumps s ++ [newDump]) s) ;;
      ret None.

Definition HandleCgroupTracingEvent (event : CgroupTracingEvent) : M unit :=
  t <- timeNow ;;
  r <- NewActivityDump (fun ad =>
         mkDump (ContainerContextID event) (Comm ad) (Start ad)
                (time.Sub (ResolveMonotonicTimestamp env (TimeoutRaw event)) t)
                true true (status ad) (tree ad)) ;;
  let (newDump, err) := r in
  match err with
  | Some e =>
      d <- deref newDump ;;
      logf Err "couldn't start tracing [%s]: %v" [GetSelectorStr env d; Error e]
  | None =>
      err <- insertActivityDump newDump ;;
      d <- deref newDump ;;
      match err with
      | Some e =>
          call (CClose newDump) ;;
          logf Err "couldn't start tracing [%s]: %v"
               [GetSelectorStr env d; Error e]
      | None => logf Info "tracing started for [%s]" [GetSelectorStr env d]
      end
  end.

Definition DumpActivity (params : DumpActivityParams)
  : M (SecurityActivityDumpMessage * option error) :=
  r <- NewActivityDump (fun ad =>
         mkDump (ContainerID ad) (paramComm params) (Start ad)
                (time.mul (paramTimeout params) time.Minute)
                (paramDifferentiateArgs params) (paramWithGraph params)
                (status ad) (tree ad)) ;;
  let (newDump, err) := r in
  match err with
  | Some e =>
      call (CClose newDump) ;;
      d <- deref newDump ;;
      let errMsg :=
        Errorf "couldn't start tracing [" (GetSelectorStr env d ++ "]") (Some e) in
      ret (mkDumpMsg None (Error errMsg), Some errMsg)
  | None =>
      err <- insertActivityDump newDump ;;
      match err with
      | Some e =>
          call (CClose newDump) ;;
          d <- deref newDump ;;
          let errMsg :=
            Errorf "couldn't start tracing [" (GetSelectorStr env d ++ "]") (Some e) in
          ret (mkDumpMsg None (Error errMsg), Some errMsg)
      | None =>
          d <- deref newDump ;;
          logf Info "tracing started for [%s]" [GetSelectorStr env d] ;;
          ret (ToSecurityActivityDumpMessage d, None)
      end
  end.

Definition ListActivityDumps
  : M (list SecurityActivityDumpMessage * option error) :=
  s <- gets (fun s => s) ;;
  ret (map (fun p => ToSecurityActivityDumpMessage (heap s p)) (activeDumps s),
       None).

(** The scan of [StopActivityDump], at index [i] of the range; the result
    is [toDelete]. *)
Fixpoint stopScan (comm : string) (l : list ptr) (i : Z) : M Z :=
  match l with
  | [] => ret (-1)
  | p :: l' =>
      d <- deref p ;;
      if CommMatches d comm then
        update p Done ;;
        d <- deref p ;;
        logf Info "tracing stopped for [%s]" [GetSelectorStr env d] ;;
        ret i
      else stopScan comm l' (i + 1)
  end.

Definition StopActivityDump (comm : string)
  : M (SecurityActivityDumpStoppedMessage * option error) :=
  dumps <- gets activeDumps ;;
  toDelete <- stopScan comm dumps 0 ;;
  if 0 <=? toDelete then
    modify (fun s =>
      set_activeDumps (removeAt (Z.to_nat toDelete) (activeDumps s)) s) ;;
    ret (mkStoppedMsg "", None)
  else
    let errMsg :=
      Errorf "the activity dump manager does not contain any ActivityDump with the following comm: "
             comm None in
    ret (mkStoppedMsg (Error errMsg), Some errMsg).

(** [d.Insert(event)] is recorded as a call: what a dump does with an
    event is its own business. *)
Definition ProcessEvent (event : Z) : M unit :=
  dumps <- gets activeDumps ;;
  forEach dumps (fun d => call (CInsert d event)).

(** The first loop of [cleanup], at index [i] of the range. *)
Fixpoint cleanupScan (l : list ptr) (i : nat) (toDelete : list nat)
  : M (list nat) :=
  match l with
  | [] => ret toDelete
  | p :: l' =>
      d <- deref p ;;
      t <- timeNow ;;
      if time.After t (time.Add (Start d) (Timeout d)) then
        update p Done ;;
        cleanupScan l' (S i) ([i] ++ toDelete)
      else cleanupScan l' (S i) toDelete
  end.

Definition cleanup : M unit :=
  dumps <- gets activeDumps ;;
  toDelete <- cleanupScan dumps 0%nat [] ;;
  forEach toDelete (fun i =>
    modify (fun s => set_activeDumps (removeAt i (activeDumps s)) s)).

Definition resolveTags : M unit :=
  dumps <- gets activeDumps ;;
  forEach dumps (fun dump =>
    call (CResolveTags dump) ;;
    match resolveTagsErr env dump with
    | Some e =>
        logf Warn "couldn't resolve activity dump tags (will try again later): %v"
             [Error e]
    | None => ret tt
    end).

(** The loop of [SendStats]; the result is the error it returns from
    inside the loop, if any. *)
Fixpoint sendStatsLoop (l : list ptr) : M (option error) :=
  match l with
  | [] => ret None
  | dump :: l' =>
      call (CDumpSendStats dump) ;;
      match dumpSendStatsErr env dump with
      | Some e =>
          d <- deref dump ;;
          ret (Some (Errorf "couldn't send metrics for " (GetSelectorStr env d)
                            (Some e)))
      | None => sendStatsLoop l'
      end
  end.

Definition SendStats : M (option error) :=
  dumps <- gets activeDumps ;;
  r <- sendStatsLoop dumps ;;
  match r with
  | Some e => ret (Some e)
  | None =>
      n <- gets (fun s => Z.of_nat (List.length (activeDumps s))) ;;
      let name := MetricActivityDumpActiveDumps env in
      call (CGauge name n) ;;
      match gaugeErr env name n with
      | Some e =>
          logf Err "couldn't send MetricActivityDumpActiveDumps metric: %v"
               [Error e]
      | None => ret tt
      end ;;
      ret None
  end.

(** The [case dump := <-adm.snapshotQueue] branch of [Start]. *)
Definition takeSnapshot : M unit :=
  q <- gets snapshotQueue ;;
  match q with
  | [] => ret tt
  | dump :: q' =>
      modify (set_snapshotQueue q') ;;
      call (CSnapshot dump) ;;
      match snapshotErr env dump with
      | Some e =>
          d <- deref dump ;;
          logf Err "couldn't snapshot %s: %v" [GetSelectorStr env d; Error e]
      | None => ret tt
      end
  end.

(** *** Profile generation *)

(** [os.Open]: the file must exist. *)
Definition osOpen (path : string) (files : FS) : error + File :=
  match openErr env path with
  | Some e => inl e
  | None =>
      match fsLookup path files with
      | None => inl (External "no such file or directory")
      | Some f => inr f
      end
  end.

(** [ioutil.ReadAll] *)
Definition ReadAll (path : string) (f : File) : error + string :=
  match readErr env path with
  | Some e => inl e
  | None => inr (data f)
  end.

(** [ioutil.TempFile(dir, pattern)]: creates a file that did not exist,
    readable and writable by its owner, and returns its name. *)
Definition TempFile (dir pattern : string) : M (error + string) :=
  files <- gets fs ;;
  let name := (dir ++ "/" ++ pattern ++ tempSuffix env files)%string in
  match tempFileErr env name with
  | Some e => ret (inl e)
  | None =>
      match fsLookup name files with
      | Some _ => ret (inl (External "file exists"))
      | None =>
          modify (set_fs (fsUpdate name (mkFile "" 384) files)) ;;
          ret (inr name)
      end
  end.

(** [os.Chmod(name, mode)] *)
Definition Chmod (name : string) (m : Z) : M (option error) :=
  files <- gets fs ;;
  match chmodErr env name m with
  | Some e => ret (Some e)
  | None =>
      match fsLookup name files with
      | None => ret (Some (External "no such file or directory"))
      | Some f =>
          modify (set_fs (fsUpdate name (mkFile (data f) m) files)) ;;
          ret None
      end
  end.

(** [t.Execute(profile, data)]: the rendered template is written through
    the open file, piece by piece: when it fails, what went through until
    then stays in the file. *)
Definition Execute (name : string) (p : ProfileData) : M (option error) :=
  files <- gets fs ;;
  match executeErr env name with
  | Some e =>
      match fsLookup name files with
      | None => ret (Some e)
      | Some f =>
          let written := substring 0 (executeWritten env name)
                                   (renderProfile p) in
          modify (set_fs (fsUpdate name
                    (mkFile (data f ++ written) (mode f)) files)) ;;
          ret (Some e)
      end
  | None =>
      match fsLookup name files with
      | None => ret (Some (External "file already closed"))
      | Some f =>
          modify (set_fs (fsUpdate name
                    (mkFile (data f ++ renderProfile p) (mode f)) files)) ;;
          ret None
      end
  end.

Definition failProfile (msg : string) (err : error)
  : M (SecurityProfileGeneratedMessage * option error) :=
  let errMsg := Errorf msg "" (Some err) in
  ret (mkProfileMsg "" (Error errMsg), Some errMsg).

Definition GenerateProfile (ActivityDumpFile : string)
  : M (SecurityProfileGeneratedMessage * option error) :=
  files <- gets fs ;;
  match osOpen ActivityDumpFile files with
  | inl err => failProfile "couldn't open activity dump file" err
  | inr f =>
  match ReadAll ActivityDumpFile f with
  | inl err => failProfile "couldn't read activity dump file" err
  | inr bytes =>
  match jsonUnmarshal env bytes with
  | inl err => failProfile "couldn't parse activity dump file" err
  | inr dump =>
  r <- TempFile "/tmp" "profile-" ;;
  match r with
  | inl err => failProfile "couldn't create profile file" err
  | inr profile =>
  err <- Chmod profile 256 ;;
  match err with
  | Some err =>
      failProfile "couldn't change the mode of the profile file" err
  | None =>
  err <- Execute profile (GenerateProfileData env dump) ;;
  match err with
  | Some err => failProfile "couldn't generate profile" err
  | None => ret (mkProfileMsg profile "", None)
  end end end end end end.

(** ** The manager's operations, as one type *)

Inductive Op :=
| OpHandleCgroupTracingEvent (event : CgroupTracingEvent)
| OpDumpActivity (params : DumpActivityParams)
| OpListActivityDumps
| OpStopActivityDump (comm : string)
| OpProcessEvent (event : Z)
| OpCleanup
| OpResolveTags
| OpSendStats
| OpTakeSnapshot
| OpGenerateProfile (path : string).

Definition step (o : Op) (s : ActivityDumpManager) : ActivityDumpManager :=
  match o with
  | OpHandleCgroupTracingEvent e => snd (HandleCgroupTracingEvent e s)
  | OpDumpActivity p => snd (DumpActivity p s)
  | OpListActivityDumps => snd (ListActivityDumps s)
  | OpStopActivityDump c => snd (StopActivityDump c s)
  | OpProcessEvent e => snd (ProcessEvent e s)
  | OpCleanup => snd (cleanup s)
  | OpResolveTags => snd (resolveTags s)
  | OpSendStats => snd (SendStats s)
  | OpTakeSnapshot => snd (takeSnapshot s)
  | OpGenerateProfile p => snd (GenerateProfile p s)
  end.

End Manager.

(** ** Construction, the background loop and the recovery of traced cgroups *)

(** What [p.manager.GetMap(name)] answers: the map, that there is no such
    map, or an error. *)
Inductive GetMapResult :=
| MapFound
| MapMissing
| MapError (e : error).

(** The part of [*Probe] the constructor reads: the configuration and the
    maps of the eBPF manager.  Event types are numbers. *)
Record Probe := mkProbe {
  probeConfig : Config;
  ActivityDumpTracedEventTypes : list Z;
  ActivityDumpTracedCgroupsCount : Z;
  GetMap : MapName -> GetMapResult
}.

Definition mapNameStr (m : MapName) : string :=
  match m with
  | traced_pids => "traced_pids"
  | traced_comms => "traced_comms"
  | traced_event_types => "traced_event_types"
  | traced_cgroups => "traced_cgroups"
  | cgroups_wait_list => "cgroups_wait_list"
  end.

(** [uint64(x)] on a signed 64-bit integer. *)
Definition toUint64 (x : Z) : Z := x mod 2 ^ 64.

Definition getTracedCgroupsCount (p : Probe) : Z :=
  toUint64 (ActivityDumpTracedCgroupsCount p).

Definition getDefaultDumpTimeout (p : Probe) : Z :=
  toUint64 (ActivityDumpDefaultDumpTimeout (probeConfig p)).

(** One lookup of the constructor: the error it returns, if any.
    [m, found, err := p.manager.GetMap(name); if err != nil { return nil, err };
     if !found { return nil, fmt.Errorf("couldn't find <name> map") }] *)
Definition requireMap (p : Probe) (m : MapName) : option error :=
  match GetMap p m with
  | MapError e => Some e
  | MapMissing => Some (Errorf "couldn't find " (mapNameStr m ++ " map") None)
  | MapFound => None
  end.

(** The cases of the [select] of [Start]. *)
Inductive LoopEvent :=
| CtxDone
| CleanupTick
| TagsTick
| SnapshotRecv.

Section Lifecycle.

Variable env : Env.

(** "init traced event types": the loop stops at the first failing Put, and
    the error it returns does not carry the cause. *)
Fixpoint putTracedEventTypes (types : list Z) : M (option error) :=
  match types with
  | [] => ret None
  | evtType :: rest =>
      err <- Put env traced_event_types (KU32 evtType) 1 ;;
      match err with
      | Some _ =>
          ret (Some (Errorf "failed to insert traced event type: " "" None))
      | None => putTracedEventTypes rest
      end
  end.

(** [NewActivityDumpManager]: the error, or nil with the manager built: an
    empty registry and an empty snapshot queue over the probe's
    configuration.  The state keeps what is not the manager's: the kernel
    maps, the clock, the processes, the files. *)
Definition NewActivityDumpManager (p : Probe) : M (option error) :=
  match requireMap p traced_pids with
  | Some e => ret (Some e)
  | None =>
  match requireMap p traced_comms with
  | Some e => ret (Some e)
  | None =>
  match requireMap p cgroups_wait_list with
  | Some e => ret (Some e)
  | None =>
  match requireMap p traced_event_types with
  | Some e => ret (Some e)
  | None =>
  err <- putTracedEventTypes (ActivityDumpTracedEventTypes p) ;;
  match err with
  | Some e => ret (Some e)
  | None =>
  match requireMap p traced_cgroups with
  | Some e => ret (Some e)
  | None =>
      modify (fun s =>
        mkADM (probeConfig p) (processes s) (now s) (heap s) (next s)
              [] [] (maps s) (log s) (calls s) (fs s)) ;;
      ret None
  end end end end end end.

(** [ActivityDumpManager.Start] (the dump's field has the plain name): the
    loop, run on the cases its [select] picks, in the order it picks
    them.  The loop returns when the select picks [ctx.Done()]; a finite
    schedule without it is a loop still waiting. *)
Fixpoint StartLoop (schedule : list LoopEvent) : M unit :=
  match schedule with
  | [] => ret tt
  | CtxDone :: _ => ret tt
  | CleanupTick :: rest => cleanup ;; StartLoop rest
  | TagsTick :: rest => resolveTags env ;; StartLoop rest
  | SnapshotRecv :: rest => takeSnapshot env ;; StartLoop rest
  end.

(** [snapshotTracedCgroups], over the keys the iterator of traced_cgroups
    yields and the error it ends with.  [UnmarshalBinary] decodes a key into
    a container ID.  [event.TimeoutRaw] is handed to [iterator.Next] by
    value, so it keeps the zero value it was declared with. *)
Definition snapshotTracedCgroups
           (UnmarshalBinary : list byte -> error + string)
           (yielded : list (list byte)) (iteratorErr : option error)
  : M unit :=
  forEach yielded (fun containerIDB =>
    match UnmarshalBinary containerIDB with
    | inl _ => ret tt
    | inr id => HandleCgroupTracingEvent env (mkCgroupEvent id 0)
    end) ;;
  match iteratorErr with
  | Some e =>
      logf Err "couldn't iterate over the map traced_cgroups: %v" [Error e]
  | None => ret tt
  end.

End Lifecycle.

(** * Specification vocabulary *)

(** [stable P m]: running [m] keeps the state inside [P]. *)
Definition stable {A} (P : ActivityDumpManager -> Prop) (m : M A) : Prop :=
  forall s, P s -> P (snd (m s)).

(** A state predicate that does not look at the log, the queue, ... *)
Definition ignores_log (P : ActivityDumpManager -> Prop) : Prop :=
  forall s e, P s -> P (set_log (log s ++ [e]) s).
Definition ignores_queue (P : ActivityDumpManager -> Prop) : Prop :=
  forall s q, P s -> P (set_snapshotQueue q s).
Definition ignores_fs (P : ActivityDumpManager -> Prop) : Prop :=
  forall s f, P s -> P (set_fs f s).
(** ... that survives the recording of the calls selected by [ok], ... *)
Definition ignores_calls (ok : Call -> bool)
           (P : ActivityDumpManager -> Prop) : Prop :=
  forall s c, ok c = true -> P s -> P (set_calls (calls s ++ [c]) s).
(** ... the writes to the maps made by the calls selected by [ok], ... *)
Definition ignores_puts (ok : Call -> bool)
           (P : ActivityDumpManager -> Prop) : Prop :=
  forall s m k v,
    ok (CPut m k v) = true ->
    P s ->
    P (set_maps (fun n => if MapName_eqb n m then upsert k v (maps s n)
                          else maps s n) s).
(** ... or an in-place change of a dump's status or tree. *)
Definition ignores_status (P : ActivityDumpManager -> Prop) : Prop :=
  forall s p st,
    P s -> P (set_heap (updHeap (heap s) p (set_status st (heap s p))) s).
Definition ignores_tree (P : ActivityDumpManager -> Prop) : Prop :=
  forall s p t,
    P s -> P (set_heap (updHeap (heap s) p (set_tree t (heap s p))) s).

Definition anyCall (c : Call) : bool := true.

(** The state right before the enqueue attempt of a registering insert:
    filters pushed, ancestors seeded. *)
Definition seeded (env : Env) (p : ptr) (s : ActivityDumpManager)
  : ActivityDumpManager :=
  snd (Walk (SearchTracedProcessCacheEntryCallback env p)
            (snd (pushFilters env p s))).

(** The non-empty values of a selector field over the registry, in
    registry order. *)
Definition keys (key : ActivityDump -> string) (s : ActivityDumpManager)
  : list string :=
  filter nonEmpty (map (fun p => key (heap s p)) (activeDumps s)).

(** I1: at most one active dump has a given non-empty ContainerID. *)
Definition I1 (s : ActivityDumpManager) : Prop := NoDup (keys ContainerID s).
(** I2: at most one active dump has a given non-empty Comm. *)
Definition I2 (s : ActivityDumpManager) : Prop := NoDup (keys Comm s).
(** Every registered pointer comes from an allocation. *)
Definition allocated (s : ActivityDumpManager) : Prop :=
  Forall (fun p => (p < next s)%nat) (activeDumps s).

Definition Inv (s : ActivityDumpManager) : Prop :=
  allocated s /\ I1 s /\ I2 s.

(** What happens around the manager: time passes, processes come and go,
    files and kernel maps change; the dumps, the registry and the queue are
    the manager's own. *)
Definition worldChange (s s' : ActivityDumpManager) : Prop :=
  activeDumps s' = activeDumps s /\ heap s' = heap s /\ next s' = next s /\
  snapshotQueue s' = snapshotQueue s.

(** The states a manager goes through: it starts with an empty registry
    and runs its operations, the world changing in between. *)
Inductive reachable (env : Env) : ActivityDumpManager -> Prop :=
| reach_start s : activeDumps s = [] -> reachable env s
| reach_step s o : reachable env s -> reachable env (step env o s)
| reach_world s s' : reachable env s -> worldChange s s' -> reachable env s'.

Definition ignores_removal (P : ActivityDumpManager -> Prop) : Prop :=
  forall s i, P s -> P (set_activeDumps (removeAt i (activeDumps s)) s).

Definition demoSelectorStr (d : ActivityDump) : string :=
  if nonEmpty (ContainerID d) then ("container_id:" ++ ContainerID d)%string
  else if nonEmpty (Comm d) then ("comm:" ++ Comm d)%string
  else "empty_selector"%string.

(** An environment in which no collaborator fails. *)
Definition demoEnv : Env :=
  mkEnv 64 "datadog.runtime_security.activity_dump.active_dumps"
        (fun t => t) (fun r => r) demoSelectorStr (fun _ _ => true)
        (fun d => mkProfile "N" "S" [mkRule "id1" "expr1"])
        (fun _ => inr zeroDump) (fun _ => "0001"%string)
        (fun _ _ _ => None) (fun _ => None) (fun _ => None) (fun _ _ => None)
        (fun _ => None) (fun _ => None) (fun _ => None) (fun _ => None)
        (fun _ => None) (fun _ _ => None) (fun _ => None) (fun _ => 0%nat).

(** The same, with every filter store write failing. *)
Definition brokenMapsEnv : Env :=
  mkEnv 64 "datadog.runtime_security.activity_dump.active_dumps"
        (fun t => t) (fun r => r) demoSelectorStr (fun _ _ => true)
        (fun d => mkProfile "N" "S" [mkRule "id1" "expr1"])
        (fun _ => inr zeroDump) (fun _ => "0001"%string)
        (fun _ _ _ => Some (External "map full")) (fun _ => None)
        (fun _ => None) (fun _ _ => None)
        (fun _ => None) (fun _ => None) (fun _ => None) (fun _ => None)
        (fun _ => None) (fun _ _ => None) (fun _ => None) (fun _ => 0%nat).

(** The environment in which the metrics of dump 1 cannot be sent. *)
Definition brokenStatsEnv : Env :=
  mkEnv 64 "datadog.runtime_security.activity_dump.active_dumps"
        (fun t => t) (fun r => r) demoSelectorStr (fun _ _ => true)
        (fun d => mkProfile "N" "S" [mkRule "id1" "expr1"])
        (fun _ => inr zeroDump) (fun _ => "0001"%string)
        (fun _ _ _ => None) (fun _ => None)
        (fun p => if Nat.eqb p 1 then Some (External "statsd down") else None)
        (fun _ _ => None)
        (fun _ => None) (fun _ => None) (fun _ => None) (fun _ => None)
        (fun _ => None) (fun _ _ => None) (fun _ => None) (fun _ => 0%nat).

Definition root : ProcessCacheEntry := PCE 1 "systemd" None.
Definition mid : ProcessCacheEntry := PCE 2 "containerd-shim" (Some root).
Definition leaf : ProcessCacheEntry := PCE 3 "nginx" (Some mid).

(** Five dumps: 0 (container c1) and 1 (comm nginx) are registered; 2, 3
    and 4 are candidates, 2 for the container of 0, 3 for a new comm and 4
    for a new container. *)
Definition demoHeap : ptr -> ActivityDump :=
  fun p =>
    match p with
    | 0%nat => mkDump "c1" "" 0 100 true true Open []
    | 1%nat => mkDump "" "nginx" 0 200 false false Open []
    | 2%nat => mkDump "c1" "" 50 100 true true Open []
    | 3%nat => mkDump "" "curl" 50 100 false false Open []
    | 4%nat => mkDump "c2" "" 50 100 true true Open []
    | _ => zeroDump
    end.

(** The clock stands at 100: dump 0 reaches Start + Timeout right now. *)
Definition demoState : ActivityDumpManager :=
  mkADM (mkConfig 10 1800000000000) [leaf] 100 demoHeap 5%nat [0%nat; 1%nat]
        [] (fun _ => []) [] []
        [("/var/run/dump.json"%string, mkFile "{}" 420)].

(** The same manager with its snapshot queue full. *)
Definition fullQueueState : ActivityDumpManager :=
  set_snapshotQueue (repeat 0%nat snapshotQueueCap) demoState.

(** The test of [cleanup]: [time.Now().After(d.Start.Add(d.Timeout))]. *)
Definition expired (s : ActivityDumpManager) (p : ptr) : bool :=
  time.After (now s) (time.Add (Start (heap s p)) (Timeout (heap s p))).

(** The indexes of a range that satisfy [f], in increasing order, the
    range starting at index [i]. *)
Fixpoint indexesOf {A} (f : A -> bool) (l : list A) (i : nat) : list nat :=
  match l with
  | [] => []
  | x :: l' => if f x then i :: indexesOf f l' (S i) else indexesOf f l' (S i)
  end.

(** The heap after [Done] on every dump of [l] that satisfies [f]. *)
Definition closeAll (f : ptr -> bool) (l : list ptr)
           (h : ptr -> ActivityDump) : ptr -> ActivityDump :=
  fold_left (fun h p => if f p then updHeap h p (Done (h p)) else h) l h.

(** The spec's "ordered list from root to the originally matched process":
    the lineage of an entry, root first. *)
Fixpoint lineage (e : ProcessCacheEntry) : list ProcessCacheEntry :=
  match e with
  | PCE _ _ None => [e]
  | PCE _ _ (Some parent) => lineage parent ++ [e]
  end.

(** A sequence of entries is root-first when it starts at an entry without
    ancestor and every later entry comes right after its own ancestor. *)
Definition rootFirst (l : list ProcessCacheEntry) : Prop :=
  (exists r, nth_error l 0 = Some r /\ GetNextAncestorNoFork r = None) /\
  (forall i child,
      nth_error l (S i) = Some child ->
      exists parent,
        nth_error l i = Some parent /\
        GetNextAncestorNoFork child = Some parent).

(** In a sequence of entries, parents come first when every entry that has
    an ancestor stands right after it. *)
Definition parentsFirst (l : list ProcessCacheEntry) : Prop :=
  forall i child parent,
    nth_error l i = Some child ->
    GetNextAncestorNoFork child = Some parent ->
    exists j, i = S j /\ nth_error l j = Some parent.

(** The node insertions requested from the dumps, in the order of the
    requests. *)
Definition findOrCreateCalls (cs : list Call)
  : list (ptr * ProcessCacheEntry) :=
  flat_map (fun c => match c with
                     | CFindOrCreate ad e => [(ad, e)]
                     | _ => []
                     end) cs.

Definition notFindOrCreate (c : Call) : bool :=
  match c with CFindOrCreate _ _ => false | _ => true end.

(** [news] is taken from [l], in the order of [l]. *)
Inductive selection {A : Type} : list A -> list A -> Prop :=
| selection_nil : selection [] []
| selection_skip x l news : selection l news -> selection (x :: l) news
| selection_take x l news : selection l news -> selection (x :: l) (x :: news).

(** The dump [d] takes every entry of [l], whatever its tree holds. *)
Definition takesAll (env : Env) (d : ActivityDump)
           (l : list ProcessCacheEntry) : Prop :=
  forall e t, In e l -> Matches env (set_tree t d) e = true.

(** The entries of [l] are new to the dump [d]: none has a node in its
    tree, and no two of them have the same pid. *)
Definition unseen (d : ActivityDump) (l : list ProcessCacheEntry) : Prop :=
  NoDup (map Pid l) /\ forall e, In e l -> ~ In (Pid e) (tree d).

(** The requests so far are [l]. *)
Definition requested (l : list (ptr * ProcessCacheEntry))
           (s : ActivityDumpManager) : Prop :=
  findOrCreateCalls (calls s) = l.

(** The error of a stop request that matches no active dump. *)
Definition notFound (comm : string) : error :=
  Errorf "the activity dump manager does not contain any ActivityDump with the following comm: "
         comm None.

Definition waitListKey (env : Env) (nd : ActivityDump) : Key :=
  KBytes (bytesOf (ContainerIDLen env) (ContainerID nd)).

(** The wait list expiry: now + waitListSize x defaultTimeout, the product
    being one of [time.Duration]s, in the kernel's clock. *)
Definition waitListValue (env : Env) (s : ActivityDumpManager) : Z :=
  ComputeMonotonicTimestamp env
    (now s + time.mul (ActivityDumpCgroupsWaitListSize (config s))
                      (ActivityDumpDefaultDumpTimeout (config s))).

Definition commKey (nd : ActivityDump) : Key := KBytes (bytesOf 16 (Comm nd)).

Definition waitListFailure (nd : ActivityDump) (e : error) : LogEntry :=
  mkLog Debug "couldn't insert container ID %s to cgroups_wait_list: %v"
        [ContainerID nd; Error e].

Definition tracedCommFailure (nd : ActivityDump) (e : error) : LogEntry :=
  mkLog Debug "couldn't insert activity dump filter comm(%s): %v"
        [Comm nd; Error e].

(** The writes requested on the cgroups wait list, oldest first. *)
Definition waitListPuts (cs : list Call) : list (Key * Z) :=
  flat_map (fun c => match c with
                     | CPut cgroups_wait_list k v => [(k, v)]
                     | _ => []
                     end) cs.

Definition notWaitListPut (c : Call) : bool :=
  match c with CPut cgroups_wait_list _ _ => false | _ => true end.

(** The operations that create a dump. *)
Definition createsDump (o : Op) : bool :=
  match o with
  | OpHandleCgroupTracingEvent _ | OpDumpActivity _ => true
  | _ => false
  end.

(** A log entry, once written, stays. *)
Definition logged (e : LogEntry) (s : ActivityDumpManager) : Prop :=
  In e (log s).

(** The state of the wait list: the writes requested so far and the
    content of the map. *)
Definition waitListIs (puts : list (Key * Z)) (content : EbpfMap)
           (s : ActivityDumpManager) : Prop :=
  waitListPuts (calls s) = puts /\ cgroupsWaitListMap s = content.

(** The error [SendStats] returns when the emission of a dump fails. *)
Definition statsFailure (env : Env) (d : ActivityDump) (e : error) : error :=
  Errorf "couldn't send metrics for " (GetSelectorStr env d) (Some e).

Definition gaugeFailure (e : error) : LogEntry :=
  mkLog Err "couldn't send MetricActivityDumpActiveDumps metric: %v" [Error e].

(** The profile document, line by line: under the document marker the
    name and the selector, then the rules, each with its id, its
    expression and an empty line after it. *)
Definition newline : string := String "010"%char EmptyString.

Definition unlines (l : list string) : string :=
  String.concat "" (map (fun x => (x ++ newline)%string) l).

Definition ruleLines (r : ProfileRule) : list string :=
  [("  - id: " ++ ID r)%string;
   ("    expression: " ++ Expression r)%string;
   ""%string].

Definition profileDocument (p : ProfileData) : string :=
  unlines (["---"%string;
            ("name: " ++ Name p)%string;
            "selector:"%string;
            ("  - " ++ Selector p)%string;
            ""%string;
            "rules:"%string]
           ++ flat_map ruleLines (Rules p)).

(** [0400]: read permission for the owner, nothing else. *)
Definition ownerReadOnly : Z := 256.

(** The name of the profile file. *)
Definition profileName (env : Env) (s : ActivityDumpManager) : string :=
  ("/tmp" ++ "/" ++ "profile-" ++ tempSuffix env (fs s))%string.

(** Every step of a profile generation goes through: the dump file [f] is
    opened, read and parsed into [dump], the profile file is created,
    restricted and written. *)
Definition stepsSucceed (env : Env) (path : string) (s : ActivityDumpManager)
           (f : File) (dump : ActivityDump) : Prop :=
  openErr env path = None /\
  fsLookup path (fs s) = Some f /\
  readErr env path = None /\
  jsonUnmarshal env (data f) = inr dump /\
  tempFileErr env (profileName env s) = None /\
  fsLookup (profileName env s) (fs s) = None /\
  chmodErr env (profileName env s) 256 = None /\
  executeErr env (profileName env s) = None.


(** The dump [DumpActivity] creates for a request. *)
Definition requestedDump (params : DumpActivityParams)
           (s : ActivityDumpManager) : ActivityDump :=
  mkDump "" (paramComm params) (now s)
         (time.mul (paramTimeout params) time.Minute)
         (paramDifferentiateArgs params) (paramWithGraph params) Open [].

(** The dump [HandleCgroupTracingEvent] creates for an event. *)
Definition tracedCgroupDump (env : Env) (event : CgroupTracingEvent)
           (s : ActivityDumpManager) : ActivityDump :=
  mkDump (ContainerContextID event) "" (now s)
         (time.Sub (ResolveMonotonicTimestamp env (TimeoutRaw event)) (now s))
         true true Open [].

Definition tracingStarted (sel : string) : LogEntry :=
  mkLog Info "tracing started for [%s]" [sel].

(** The snapshot queue holds no more than its capacity. *)
Definition queueBounded (s : ActivityDumpManager) : Prop :=
  (List.length (snapshotQueue s) <= snapshotQueueCap)%nat.

(** The dumps whose snapshot was run, oldest first. *)
Definition snapshotCalls (cs : list Call) : list ptr :=
  flat_map (fun c => match c with CSnapshot p => [p] | _ => [] end) cs.

Definition notSnapshot (c : Call) : bool :=
  match c with CSnapshot _ => false | _ => true end.

(** A state predicate that survives the allocation of a dump. *)
Definition ignores_alloc (P : ActivityDumpManager -> Prop) : Prop :=
  forall s d,
    P s -> P (set_next (S (next s)) (set_heap (updHeap (heap s) (next s) d) s)).

Definition snapshotFailure (env : Env) (d : ActivityDump) (e : error)
  : LogEntry :=
  mkLog Err "couldn't snapshot %s: %v" [GetSelectorStr env d; Error e].

(** The log entry of a stop. *)
Definition tracingStopped (sel : string) : LogEntry :=
  mkLog Info "tracing stopped for [%s]" [sel].

(** The state a stop leaves when it finds its dump [p], between [pre] and
    [post]. *)
Definition stopped (env : Env) (s : ActivityDumpManager)
           (pre : list ptr) (p : ptr) (post : list ptr)
  : ActivityDumpManager :=
  set_activeDumps (pre ++ post)
    (set_log (log s ++ [tracingStopped (GetSelectorStr env (Done (heap s p)))])
       (set_heap (updHeap (heap s) p (Done (heap s p))) s)).

(** The log entries of the snapshots that fail, for dumps taken in order
    from a queue. *)
Definition snapshotFailures (env : Env) (h : ptr -> ActivityDump)
           (q : list ptr) : list LogEntry :=
  flat_map (fun d => match snapshotErr env d with
                     | Some e => [snapshotFailure env (h d) e]
                     | None => []
                     end) q.

(** The registry holds each dump once, all of them allocated and open. *)
Definition Live (s : ActivityDumpManager) : Prop :=
  allocated s /\ NoDup (activeDumps s) /\
  Forall (fun p => status (heap s p) = Open) (activeDumps s).

(** The state after the allocation of the dump [d]. *)
Definition withNewDump (d : ActivityDump) (s : ActivityDumpManager)
  : ActivityDumpManager :=
  set_next (S (next s)) (set_heap (updHeap (heap s) (next s) d) s).

(** What the two entry points report when a dump cannot be started. *)
Definition startError (env : Env) (d : ActivityDump) (e : error) : error :=
  Errorf "couldn't start tracing [" (GetSelectorStr env d ++ "]") (Some e).

Definition startFailure (env : Env) (d : ActivityDump) (e : error)
  : LogEntry :=
  mkLog Err "couldn't start tracing [%s]: %v" [GetSelectorStr env d; Error e].

(** The largest timeout, in minutes, that [time.Duration] can hold. *)
Definition maxTimeoutMinutes : Z := 153722867.

(** The environment in which no dump can be created. *)
Definition noDumpEnv : Env :=
  mkEnv 64 "datadog.runtime_security.activity_dump.active_dumps"
        (fun t => t) (fun r => r) demoSelectorStr (fun _ _ => true)
        (fun d => mkProfile "N" "S" [mkRule "id1" "expr1"])
        (fun _ => inr zeroDump) (fun _ => "0001"%string)
        (fun _ _ _ => None) (fun _ => Some (External "no space left on device"))
        (fun _ => None) (fun _ _ => None)
        (fun _ => None) (fun _ => None) (fun _ => None) (fun _ => None)
        (fun _ => None) (fun _ _ => None) (fun _ => None) (fun _ => 0%nat).

Definition tagsFailure (e : error) : LogEntry :=
  mkLog Warn "couldn't resolve activity dump tags (will try again later): %v"
        [Error e].

(** The warnings of a tag resolution over the dumps [l]. *)
Definition tagsFailures (env : Env) (l : list ptr) : list LogEntry :=
  flat_map (fun d => match resolveTagsErr env d with
                     | Some e => [tagsFailure e]
                     | None => []
                     end) l.

(** The answer of ListActivityDumps: the metadata of the active dumps. *)
Definition listing (s : ActivityDumpManager)
  : list SecurityActivityDumpMessage :=
  fst (fst (ListActivityDumps s)).

(** The writes requested on traced_comms, oldest first. *)
Definition tracedCommsPuts (cs : list Call) : list (Key * Z) :=
  flat_map (fun c => match c with
                     | CPut traced_comms k v => [(k, v)]
                     | _ => []
                     end) cs.

Definition notTracedCommsPut (c : Call) : bool :=
  match c with CPut traced_comms _ _ => false | _ => true end.

(** The state of traced_comms: the writes requested so far and the content
    of the map. *)
Definition tracedCommsIs (puts : list (Key * Z)) (content : EbpfMap)
           (s : ActivityDumpManager) : Prop :=
  tracedCommsPuts (calls s) = puts /\ tracedCommsMap s = content.

(** The profile file is created: the dump file [f] is opened, read and
    parsed into [dump], and the temporary file is new. *)
Definition profileFileCreated (env : Env) (path : string)
           (s : ActivityDumpManager) (f : File) (dump : ActivityDump) : Prop :=
  openErr env path = None /\
  fsLookup path (fs s) = Some f /\
  readErr env path = None /\
  jsonUnmarshal env (data f) = inr dump /\
  tempFileErr env (profileName env s) = None /\
  fsLookup (profileName env s) (fs s) = None.

(** [0600], the mode [ioutil.TempFile] creates files with. *)
Definition ownerReadWrite : Z := 384.

(** The error of a failed step of the profile generation. *)
Definition profileError (msg : string) (e : error) : error :=
  Errorf msg "" (Some e).

(** The environment in which the mode of a file cannot be changed. *)
Definition noChmodEnv : Env :=
  mkEnv 64 "datadog.runtime_security.activity_dump.active_dumps"
        (fun t => t) (fun r => r) demoSelectorStr (fun _ _ => true)
        (fun d => mkProfile "N" "S" [mkRule "id1" "expr1"])
        (fun _ => inr zeroDump) (fun _ => "0001"%string)
        (fun _ _ _ => None) (fun _ => None)
        (fun _ => None) (fun _ _ => None)
        (fun _ => None) (fun _ => None) (fun _ => None) (fun _ => None)
        (fun _ => None) (fun _ _ => Some (External "operation not permitted"))
        (fun _ => None) (fun _ => 0%nat).

(** The environment in which the rendering of the profile fails after ten
    bytes went through. *)
Definition noRenderEnv : Env :=
  mkEnv 64 "datadog.runtime_security.activity_dump.active_dumps"
        (fun t => t) (fun r => r) demoSelectorStr (fun _ _ => true)
        (fun d => mkProfile "N" "S" [mkRule "id1" "expr1"])
        (fun _ => inr zeroDump) (fun _ => "0001"%string)
        (fun _ _ _ => None) (fun _ => None)
        (fun _ => None) (fun _ _ => None)
        (fun _ => None) (fun _ => None) (fun _ => None) (fun _ => None)
        (fun _ => None) (fun _ _ => None)
        (fun _ => Some (External "no space left on device"))
        (fun _ => 10%nat).

(** What went through of the document of [dump] when its rendering
    failed. *)
Definition writtenPart (env : Env) (s : ActivityDumpManager)
           (dump : ActivityDump) : string :=
  substring 0 (executeWritten env (profileName env s))
            (profileDocument (GenerateProfileData env dump)).

(** [m.Lookup(k)] on a kernel map. *)
Fixpoint mapLookup (k : Key) (m : EbpfMap) : option Z :=
  match m with
  | [] => None
  | (k', v) :: m' => if Key_eqb k k' then Some v else mapLookup k m'
  end.

(** The eBPF manager has each of the five maps. *)
Definition everyMapFound (p : Probe) : Prop :=
  forall m, GetMap p m = MapFound.

(** The traced event type [t] can be written to its map. *)
Definition writable (env : Env) (t : Z) : Prop :=
  putErr env traced_event_types (KU32 t) 1 = None.

(** The maps the constructor looks up before it writes anything, in the
    order of the lookups. *)
Definition lookupOrder : list MapName :=
  [traced_pids; traced_comms; cgroups_wait_list; traced_event_types].

(** The error of the first failing lookup of a list of maps. *)
Fixpoint firstError (p : Probe) (ms : list MapName) : option error :=
  match ms with
  | [] => None
  | m :: rest =>
      match requireMap p m with
      | Some e => Some e
      | None => firstError p rest
      end
  end.

(** The writes of the event types, as calls. *)
Definition eventTypePuts (types : list Z) : list Call :=
  map (fun t => CPut traced_event_types (KU32 t) 1) types.

(** The error of a failed write of an event type: it names no cause. *)
Definition eventTypeError : error :=
  Errorf "failed to insert traced event type: " "" None.

(** A manager is freshly built over the state [s] of the world: nothing
    registered, nothing queued, the probe's configuration. *)
Definition freshManager (p : Probe) (s s' : ActivityDumpManager) : Prop :=
  activeDumps s' = [] /\ snapshotQueue s' = [] /\ config s' = probeConfig p /\
  heap s' = heap s /\ next s' = next s /\ now s' = now s /\
  processes s' = processes s /\ fs s' = fs s /\ log s' = log s.

(** A probe with every map and three traced event types. *)
Definition demoProbe : Probe :=
  mkProbe (mkConfig 10 1800000000000) [1; 2; 3] 5 (fun _ => MapFound).

(** The same probe without the traced_cgroups map. *)
Definition noCgroupsProbe : Probe :=
  mkProbe (mkConfig 10 1800000000000) [1; 2; 3] 5
          (fun m => match m with
                    | traced_cgroups => MapMissing
                    | _ => MapFound
                    end).

(** The same probe without the traced_comms map. *)
Definition noCommsProbe : Probe :=
  mkProbe (mkConfig 10 1800000000000) [1; 2; 3] 5
          (fun m => match m with
                    | traced_comms => MapMissing
                    | _ => MapFound
                    end).

(** An environment whose maps refuse the event type 2 only. *)
Definition noTypeTwoEnv : Env :=
  mkEnv 64 "datadog.runtime_security.activity_dump.active_dumps"
        (fun t => t) (fun r => r) demoSelectorStr (fun _ _ => true)
        (fun d => mkProfile "N" "S" [mkRule "id1" "expr1"])
        (fun _ => inr zeroDump) (fun _ => "0001"%string)
        (fun m k _ => match m, k with
                      | traced_event_types, KU32 2 =>
                          Some (External "argument list too long")
                      | _, _ => None
                      end)
        (fun _ => None)
        (fun _ => None) (fun _ _ => None)
        (fun _ => None) (fun _ => None) (fun _ => None) (fun _ => None)
        (fun _ => None) (fun _ _ => None)
        (fun _ => None) (fun _ => 0%nat).

(** The container IDs of the keys that decode, in the order the iterator
    yields them. *)
Definition decodedIDs (UnmarshalBinary : list byte -> error + string)
           (yielded : list (list byte)) : list string :=
  flat_map (fun k => match UnmarshalBinary k with
                     | inl _ => []
                     | inr id => [id]
                     end) yielded.

(** One tracing event per container ID, each with the raw timeout 0. *)
Definition recover (env : Env) (ids : list string) : M unit :=
  forEach ids (fun id => HandleCgroupTracingEvent env (mkCgroupEvent id 0)).

Definition iterationFailure (e : error) : LogEntry :=
  mkLog Err "couldn't iterate over the map traced_cgroups: %v" [Error e].

(** A decoder of keys that refuses the empty key. *)
Definition demoUnmarshal (k : list byte) : error + string :=
  match k with
  | [] => inl (External "unexpected EOF")
  | _ => inr (string_of_list_byte k)
  end.

(** The offers of [event] to the dumps of [l], in order. *)
Definition offers (event : Z) (l : list ptr) : list Call :=
  map (fun d => CInsert d event) l.

(** A probe configured with a negative count and a negative timeout. *)
Definition negativeProbe : Probe :=
  mkProbe (mkConfig 10 (-1)) [] (-5) (fun _ => MapFound).

(** * Reasoning about the monad *)

Lemma bind_run {A B} (m : M A) (k : A -> M B) s :
  bind m k s = k (fst (m s)) (snd (m s)).
Proof. unfold bind. destruct (m s); reflexivity. Qed.

Section Stable.

Variable P : ActivityDumpManager -> Prop.

Lemma stable_ret {A} (a : A) : stable P (ret a).
Proof. intros s H; exact H. Qed.

Lemma stable_gets {A} (f : ActivityDumpManager -> A) : stable P (gets f).
Proof. intros s H; exact H. Qed.

Lemma stable_bind {A B} (m : M A) (k : A -> M B) :
  stable P m -> (forall a, stable P (k a)) -> stable P (bind m k).
Proof.
  intros Hm Hk s H. rewrite bind_run. apply Hk, Hm, H.
Qed.

Lemma stable_modify f :
  (forall s, P s -> P (f s)) -> stable P (modify f).
Proof. intros Hf s H. apply Hf, H. Qed.

Lemma stable_when b (m : M unit) : stable P m -> stable P (when b m).
Proof. intros Hm. destruct b; [exact Hm | apply stable_ret]. Qed.

Lemma stable_forEach {A} (l : list A) (body : A -> M unit) :
  (forall x, stable P (body x)) -> stable P (forEach l body).
Proof.
  intros Hb. induction l as [|x l IH]; simpl.
  - apply stable_ret.
  - apply stable_bind; [apply Hb | intros _; exact IH].
Qed.

End Stable.

Section StableOps.

Variable P : ActivityDumpManager -> Prop.
Variable ok : Call -> bool.
Hypothesis Hcalls : ignores_calls ok P.
Hypothesis Hlog : ignores_log P.

Lemma stable_logf lvl fmt a : stable P (logf lvl fmt a).
Proof. apply stable_modify. intros s Hs. apply Hlog, Hs. Qed.

Lemma stable_call c : ok c = true -> stable P (call c).
Proof. intros H. apply stable_modify. intros s Hs. apply Hcalls; assumption. Qed.

Lemma stable_trySend p : ignores_queue P -> stable P (trySend p).
Proof.
  intros H. unfold trySend. apply stable_bind; [apply stable_gets|].
  intros q. destruct (_ <? _)%nat.
  - apply stable_modify. intros s Hs. apply H, Hs.
  - apply stable_ret.
Qed.

Hypothesis Hmaps : ignores_puts ok P.

Lemma stable_Put env m k v : ok (CPut m k v) = true -> stable P (Put env m k v).
Proof.
  intros Hok. unfold Put. apply stable_bind; [apply stable_call, Hok|].
  intros _. destruct (putErr env m k v).
  - apply stable_ret.
  - apply stable_bind; [|intros; apply stable_ret].
    apply stable_modify. intros s Hs. apply Hmaps; assumption.
Qed.

Lemma stable_pushWaitList env nd :
  (forall k v, ok (CPut cgroups_wait_list k v) = true) ->
  stable P (pushWaitList env nd).
Proof.
  intros H. unfold pushWaitList, timeNow.
  apply stable_bind; [apply stable_gets|]. intros t.
  apply stable_bind; [apply stable_gets|]. intros cfg.
  apply stable_bind; [apply stable_Put, H|].
  intros [e|]; [apply stable_logf | apply stable_ret].
Qed.

Lemma stable_pushTracedComm env nd :
  (forall k v, ok (CPut traced_comms k v) = true) ->
  stable P (pushTracedComm env nd).
Proof.
  intros H. unfold pushTracedComm.
  apply stable_bind; [apply stable_Put, H|].
  intros [e|]; [apply stable_logf | apply stable_ret].
Qed.

Lemma stable_pushFilters env p :
  (forall k v, ok (CPut cgroups_wait_list k v) = true) ->
  (forall k v, ok (CPut traced_comms k v) = true) ->
  stable P (pushFilters env p).
Proof.
  intros H1 H2. unfold pushFilters, deref.
  apply stable_bind; [apply stable_gets|]. intros nd.
  apply stable_bind; [|intros _]; apply stable_when.
  - apply stable_pushWaitList, H1.
  - apply stable_pushTracedComm, H2.
Qed.

Hypothesis Htree : ignores_tree P.

Lemma stable_seedCallback env ad entry :
  (forall e, ok (CFindOrCreate ad e) = true) ->
  (forall k v, ok (CPut traced_pids k v) = true) ->
  stable P (SearchTracedProcessCacheEntryCallback env ad entry).
Proof.
  intros H1 H2. unfold SearchTracedProcessCacheEntryCallback.
  apply stable_forEach. intros parent.
  apply stable_bind.
  - unfold FindOrCreateProcessActivityNode, deref.
    apply stable_bind; [apply stable_call, H1|]. intros _.
    apply stable_bind; [apply stable_gets|]. intros d.
    destruct (Matches env d parent); [|apply stable_ret].
    apply stable_bind; [|intros; apply stable_ret].
    apply stable_when, stable_modify. intros s Hs. apply Htree, Hs.
  - intros [pid|]; [|apply stable_ret].
    unfold UpdateTracedPidTimeout, deref.
    apply stable_bind; [apply stable_gets|]. intros d.
    apply stable_bind; [apply stable_Put, H2|].
    intros [e|]; [apply stable_logf | apply stable_ret].
Qed.

Lemma stable_Walk env ad :
  (forall e, ok (CFindOrCreate ad e) = true) ->
  (forall k v, ok (CPut traced_pids k v) = true) ->
  stable P (Walk (SearchTracedProcessCacheEntryCallback env ad)).
Proof.
  intros H1 H2. unfold Walk.
  apply stable_bind; [apply stable_gets|]. intros entries.
  apply stable_forEach. intros e. apply stable_seedCallback; assumption.
Qed.

End StableOps.

(** * Insertion *)

Lemma insert_conflict env p s :
  containerIDActive s (heap s p) = true \/ commActive s (heap s p) = true ->
  insertActivityDump env p s = (None, s).
Proof.
  intros H. unfold insertActivityDump.
  rewrite bind_run; simpl. rewrite bind_run; simpl.
  destruct (containerIDActive s (heap s p)); [reflexivity|].
  rewrite bind_run; simpl.
  destruct H as [H|H]; [discriminate|]. rewrite H. reflexivity.
Qed.

Lemma insert_fresh env p s :
  containerIDActive s (heap s p) = false ->
  commActive s (heap s p) = false ->
  insertActivityDump env p s =
    (None,
     let s3 := snd (trySend p (seeded env p s)) in
     set_activeDumps (activeDumps s3 ++ [p]) s3).
Proof.
  intros H1 H2. unfold insertActivityDump, seeded.
  rewrite bind_run; simpl. rewrite bind_run; simpl. rewrite H1.
  rewrite bind_run; simpl. rewrite H2.
  repeat (rewrite bind_run; simpl). reflexivity.
Qed.

(** What the seeding phase cannot change. *)
Lemma seeded_frame {X} (f : ActivityDumpManager -> X) env p s :
  (forall s l, f (set_log l s) = f s) ->
  (forall s c, f (set_calls c s) = f s) ->
  (forall s m, f (set_maps m s) = f s) ->
  (forall s q t,
      f (set_heap (updHeap (heap s) q (set_tree t (heap s q))) s) = f s) ->
  f (seeded env p s) = f s.
Proof.
  intros Hl Hc Hm Ht. unfold seeded.
  assert (Hl' : ignores_log (fun s' => f s' = f s))
    by (intros s' e E; rewrite Hl; exact E).
  assert (Hc' : ignores_calls anyCall (fun s' => f s' = f s))
    by (intros s' l _ E; rewrite Hc; exact E).
  assert (Hm' : ignores_puts anyCall (fun s' => f s' = f s))
    by (intros s' m k v _ E; rewrite Hm; exact E).
  assert (Ht' : ignores_tree (fun s' => f s' = f s))
    by (intros s' q t E; rewrite Ht; exact E).
  apply (stable_Walk (fun s' => f s' = f s) anyCall);
    try assumption; try reflexivity.
  apply (stable_pushFilters (fun s' => f s' = f s) anyCall);
    try assumption; try reflexivity.
Qed.

Lemma updHeap_same h p d : updHeap h p d p = d.
Proof. unfold updHeap. rewrite Nat.eqb_refl. reflexivity. Qed.

Lemma updHeap_other h p d q : q <> p -> updHeap h p d q = h q.
Proof.
  intros H. unfold updHeap. destruct (Nat.eqb q p) eqn:E; [|reflexivity].
  apply Nat.eqb_eq in E. contradiction.
Qed.

(** A field of a dump that a change of its tree or status leaves alone
    reads the same through the updated heap. *)
Lemma updHeap_field {X} (field : ActivityDump -> X) h p (g : ActivityDump -> ActivityDump) q :
  (forall d, field (g d) = field d) ->
  field (updHeap h p (g (h p)) q) = field (h q).
Proof.
  intros H. unfold updHeap. destruct (Nat.eqb q p) eqn:E; [|reflexivity].
  apply Nat.eqb_eq in E. subst q. apply H.
Qed.

Lemma seeded_activeDumps env p s : activeDumps (seeded env p s) = activeDumps s.
Proof. apply (seeded_frame activeDumps); reflexivity. Qed.

Lemma seeded_snapshotQueue env p s :
  snapshotQueue (seeded env p s) = snapshotQueue s.
Proof. apply (seeded_frame snapshotQueue); reflexivity. Qed.

Lemma seeded_next env p s : next (seeded env p s) = next s.
Proof. apply (seeded_frame next); reflexivity. Qed.

Lemma seeded_fs env p s : fs (seeded env p s) = fs s.
Proof. apply (seeded_frame fs); reflexivity. Qed.

Lemma seeded_field {X} (field : ActivityDump -> X) env p s q :
  (forall t d, field (set_tree t d) = field d) ->
  field (heap (seeded env p s) q) = field (heap s q).
Proof.
  intros H. apply (seeded_frame (fun s => field (heap s q))); try reflexivity.
  intros s' q' t. simpl. apply (updHeap_field field). intros d. apply H.
Qed.

Lemma trySend_frame {X} (f : ActivityDumpManager -> X) p s :
  (forall s q, f (set_snapshotQueue q s) = f s) ->
  f (snd (trySend p s)) = f s.
Proof.
  intros H. unfold trySend. rewrite bind_run; simpl.
  destruct (_ <? _)%nat; simpl; [apply H | reflexivity].
Qed.

(** ** The registry invariants *)

Lemma nonEmpty_true s : nonEmpty s = true <-> s <> ""%string.
Proof.
  unfold nonEmpty. rewrite negb_true_iff. split.
  - intros H E. subst. discriminate.
  - intros H. destruct (String.eqb s "") eqn:E; [|reflexivity].
    apply String.eqb_eq in E. contradiction.
Qed.

Lemma existsb_false_In {A} (f : A -> bool) l x :
  existsb f l = false -> In x l -> f x = false.
Proof.
  intros H Hin. destruct (f x) eqn:E; [|reflexivity].
  assert (existsb f l = true) by (apply existsb_exists; eauto). congruence.
Qed.

Lemma removeAt_cons {A} i (x : A) l :
  removeAt (S i) (x :: l) = x :: removeAt i l.
Proof. reflexivity. Qed.

Lemma removeAt_split {A} (pre post : list A) x :
  removeAt (List.length pre) (pre ++ x :: post) = pre ++ post.
Proof.
  induction pre as [|a pre IH]; [reflexivity|].
  simpl List.length. simpl app. rewrite removeAt_cons, IH. reflexivity.
Qed.

Lemma removeAt_out {A} i (l : list A) :
  (List.length l <= i)%nat -> removeAt i l = l.
Proof.
  intros H. unfold removeAt.
  rewrite firstn_all2 by lia. rewrite skipn_all2 by lia. apply app_nil_r.
Qed.

(** Removing one index drops one element and keeps the others in place. *)
Lemma removeAt_cases {A} i (l : list A) :
  removeAt i l = l \/
  exists pre x post, l = pre ++ x :: post /\ removeAt i l = pre ++ post.
Proof.
  destruct (Nat.le_gt_cases (List.length l) i) as [H|H].
  - left. apply removeAt_out, H.
  - right. destruct (nth_error l i) as [x|] eqn:E.
    + apply nth_error_split in E. destruct E as (pre & post & -> & <-).
      exists pre, x, post. split; [reflexivity | apply removeAt_split].
    + apply nth_error_None in E. lia.
Qed.

Lemma NoDup_filter_map_remove {A} (g : A -> string) pre x post :
  NoDup (filter nonEmpty (map g (pre ++ x :: post))) ->
  NoDup (filter nonEmpty (map g (pre ++ post))).
Proof.
  rewrite !map_app, !filter_app. simpl.
  destruct (nonEmpty (g x)); [|auto].
  apply NoDup_remove_1.
Qed.

Lemma keys_ext key s s' :
  activeDumps s' = activeDumps s ->
  (forall q, key (heap s' q) = key (heap s q)) ->
  keys key s' = keys key s.
Proof.
  intros Ha Hk. unfold keys. rewrite Ha. f_equal.
  apply map_ext. intros q. apply Hk.
Qed.

Lemma keys_removeAt key s s' i :
  activeDumps s' = removeAt i (activeDumps s) ->
  (forall q, key (heap s' q) = key (heap s q)) ->
  NoDup (keys key s) -> NoDup (keys key s').
Proof.
  intros Ha Hk H. unfold keys in *. rewrite Ha.
  rewrite (map_ext _ (fun p => key (heap s p))) by (intros; apply Hk).
  destruct (removeAt_cases i (activeDumps s))
    as [E | (pre & x & post & E1 & E2)].
  - rewrite E. exact H.
  - rewrite E2. rewrite E1 in H.
    apply NoDup_filter_map_remove with (x := x). exact H.
Qed.

Lemma keys_append key s s' p :
  activeDumps s' = activeDumps s ++ [p] ->
  (forall q, key (heap s' q) = key (heap s q)) ->
  (nonEmpty (key (heap s p)) = true ->
   forall q, In q (activeDumps s) -> key (heap s q) <> key (heap s p)) ->
  NoDup (keys key s) -> NoDup (keys key s').
Proof.
  intros Ha Hk Hfresh H. unfold keys in *. rewrite Ha.
  rewrite (map_ext _ (fun p => key (heap s p))) by (intros; apply Hk).
  rewrite map_app, filter_app. simpl.
  destruct (nonEmpty (key (heap s p))) eqn:E.
  - apply NoDup_app.
    + exact H.
    + constructor; [intros []|constructor].
    + intros k Hin [<-|[]].
      apply filter_In in Hin. destruct Hin as [Hin _].
      apply in_map_iff in Hin. destruct Hin as (q & Hq & Hin).
      exact (Hfresh eq_refl q Hin Hq).
  - rewrite app_nil_r. exact H.
Qed.

Lemma containerIDActive_false s nd :
  containerIDActive s nd = false ->
  nonEmpty (ContainerID nd) = true ->
  forall q, In q (activeDumps s) -> ContainerID (heap s q) <> ContainerID nd.
Proof.
  unfold containerIDActive. intros H Hne q Hin E. rewrite Hne in H. simpl in H.
  apply existsb_false_In with (x := q) in H; [|exact Hin].
  apply String.eqb_neq in H. contradiction.
Qed.

Lemma commActive_false s nd :
  commActive s nd = false ->
  nonEmpty (Comm nd) = true ->
  forall q, In q (activeDumps s) -> Comm (heap s q) <> Comm nd.
Proof.
  unfold commActive. intros H Hne q Hin E. rewrite Hne in H. simpl in H.
  apply existsb_false_In with (x := q) in H; [|exact Hin].
  apply String.eqb_neq in H. contradiction.
Qed.

Lemma containerIDActive_true s nd p :
  In p (activeDumps s) ->
  ContainerID (heap s p) = ContainerID nd ->
  ContainerID nd <> ""%string ->
  containerIDActive s nd = true.
Proof.
  intros Hin E Hne. unfold containerIDActive.
  apply andb_true_intro. split; [apply nonEmpty_true, Hne|].
  apply existsb_exists. exists p. split; [exact Hin|].
  apply String.eqb_eq, E.
Qed.

Lemma commActive_true s nd p :
  In p (activeDumps s) ->
  Comm (heap s p) = Comm nd ->
  Comm nd <> ""%string ->
  commActive s nd = true.
Proof.
  intros Hin E Hne. unfold commActive.
  apply andb_true_intro. split; [apply nonEmpty_true, Hne|].
  apply existsb_exists. exists p. split; [exact Hin|].
  apply String.eqb_eq, E.
Qed.

(** The state a registering insert leaves: the registry one longer, the
    selectors of every dump as they were. *)
Lemma insert_fresh_state env p s :
  containerIDActive s (heap s p) = false ->
  commActive s (heap s p) = false ->
  let s' := snd (insertActivityDump env p s) in
  activeDumps s' = activeDumps s ++ [p] /\
  next s' = next s /\
  (forall X (field : ActivityDump -> X),
      (forall t d, field (set_tree t d) = field d) ->
      forall q, field (heap s' q) = field (heap s q)).
Proof.
  intros H1 H2. rewrite (insert_fresh env p s H1 H2). simpl.
  rewrite !(trySend_frame activeDumps) by reflexivity.
  rewrite seeded_activeDumps.
  rewrite (trySend_frame next) by reflexivity. rewrite seeded_next.
  repeat split. intros X field Hf q.
  rewrite (trySend_frame (fun s => field (heap s q))) by reflexivity.
  apply seeded_field, Hf.
Qed.

Lemma insert_cases env p s :
  insertActivityDump env p s = (None, s) \/
  (containerIDActive s (heap s p) = false /\
   commActive s (heap s p) = false).
Proof.
  destruct (containerIDActive s (heap s p)) eqn:E1.
  - left. apply insert_conflict. left. exact E1.
  - destruct (commActive s (heap s p)) eqn:E2.
    + left. apply insert_conflict. right. exact E2.
    + right. split; reflexivity.
Qed.

Lemma insert_I1 env p s : I1 s -> I1 (snd (insertActivityDump env p s)).
Proof.
  intros H. destruct (insert_cases env p s) as [E|[E1 E2]].
  - rewrite E. exact H.
  - destruct (insert_fresh_state env p s E1 E2) as (Ha & _ & Hf).
    apply (keys_append ContainerID s _ p Ha).
    + intros q. apply Hf. reflexivity.
    + apply containerIDActive_false, E1.
    + exact H.
Qed.

Lemma insert_I2 env p s : I2 s -> I2 (snd (insertActivityDump env p s)).
Proof.
  intros H. destruct (insert_cases env p s) as [E|[E1 E2]].
  - rewrite E. exact H.
  - destruct (insert_fresh_state env p s E1 E2) as (Ha & _ & Hf).
    apply (keys_append Comm s _ p Ha).
    + intros q. apply Hf. reflexivity.
    + apply commActive_false, E2.
    + exact H.
Qed.

Lemma insert_allocated env p s :
  (p < next s)%nat -> allocated s ->
  allocated (snd (insertActivityDump env p s)).
Proof.
  intros Hp H. destruct (insert_cases env p s) as [E|[E1 E2]].
  - rewrite E. exact H.
  - destruct (insert_fresh_state env p s E1 E2) as (Ha & Hn & _).
    unfold allocated. rewrite Ha, Hn. apply Forall_app. split; [exact H|].
    constructor; [exact Hp | constructor].
Qed.

(** * The operations that do not register a dump *)

Section StableReaders.

Variable P : ActivityDumpManager -> Prop.
Variable ok : Call -> bool.
Hypothesis Hcalls : ignores_calls ok P.
Hypothesis Hlog : ignores_log P.

Lemma stable_ProcessEvent event :
  (forall d, ok (CInsert d event) = true) -> stable P (ProcessEvent event).
Proof.
  intros H. unfold ProcessEvent.
  apply stable_bind; [apply stable_gets|]. intros dumps.
  apply stable_forEach. intros d. apply (stable_call P ok Hcalls), H.
Qed.

Lemma stable_resolveTags env :
  (forall d, ok (CResolveTags d) = true) -> stable P (resolveTags env).
Proof.
  intros H. unfold resolveTags.
  apply stable_bind; [apply stable_gets|]. intros dumps.
  apply stable_forEach. intros d.
  apply stable_bind; [apply (stable_call P ok Hcalls), H|]. intros _.
  destruct (resolveTagsErr env d); [apply stable_logf, Hlog | apply stable_ret].
Qed.

Lemma stable_sendStatsLoop env l :
  (forall d, ok (CDumpSendStats d) = true) -> stable P (sendStatsLoop env l).
Proof.
  intros H. induction l as [|d l IH]; simpl; [apply stable_ret|].
  apply stable_bind; [apply (stable_call P ok Hcalls), H|]. intros _.
  destruct (dumpSendStatsErr env d); [|exact IH].
  apply stable_bind; [apply stable_gets | intros; apply stable_ret].
Qed.

Lemma stable_SendStats env :
  (forall d, ok (CDumpSendStats d) = true) ->
  (forall n v, ok (CGauge n v) = true) ->
  stable P (SendStats env).
Proof.
  intros H1 H2. unfold SendStats.
  apply stable_bind; [apply stable_gets|]. intros dumps.
  apply stable_bind; [apply stable_sendStatsLoop, H1|].
  intros [e|]; [apply stable_ret|].
  apply stable_bind; [apply stable_gets|]. intros n.
  apply stable_bind; [apply (stable_call P ok Hcalls), H2|]. intros _.
  apply stable_bind; [|intros; apply stable_ret].
  destruct (gaugeErr env _ n); [apply stable_logf, Hlog | apply stable_ret].
Qed.

Lemma stable_takeSnapshot env :
  ignores_queue P -> (forall d, ok (CSnapshot d) = true) ->
  stable P (takeSnapshot env).
Proof.
  intros Hq H. unfold takeSnapshot.
  apply stable_bind; [apply stable_gets|]. intros [|d q]; [apply stable_ret|].
  apply stable_bind; [apply stable_modify; intros s Hs; apply Hq, Hs|].
  intros _.
  apply stable_bind; [apply (stable_call P ok Hcalls), H|]. intros _.
  destruct (snapshotErr env d); [|apply stable_ret].
  apply stable_bind; [apply stable_gets | intros; apply stable_logf, Hlog].
Qed.

Lemma stable_ListActivityDumps : stable P ListActivityDumps.
Proof.
  unfold ListActivityDumps.
  apply stable_bind; [apply stable_gets | intros; apply stable_ret].
Qed.

Lemma stable_GenerateProfile env path :
  ignores_fs P -> stable P (GenerateProfile env path).
Proof.
  intros Hfs. unfold GenerateProfile, failProfile.
  apply stable_bind; [apply stable_gets|]. intros files.
  destruct (osOpen env path files) as [e|f]; [apply stable_ret|].
  destruct (ReadAll env path f) as [e|bytes]; [apply stable_ret|].
  destruct (jsonUnmarshal env bytes) as [e|dump]; [apply stable_ret|].
  apply stable_bind.
  { unfold TempFile. apply stable_bind; [apply stable_gets|]. intros fs0.
    destruct (tempFileErr env _); [apply stable_ret|].
    destruct (fsLookup _ fs0); [apply stable_ret|].
    apply stable_bind; [|intros; apply stable_ret].
    apply stable_modify. intros s Hs. apply Hfs, Hs. }
  intros [e|profile]; [apply stable_ret|].
  apply stable_bind.
  { unfold Chmod. apply stable_bind; [apply stable_gets|]. intros fs0.
    destruct (chmodErr env _ _); [apply stable_ret|].
    destruct (fsLookup _ fs0); [|apply stable_ret].
    apply stable_bind; [|intros; apply stable_ret].
    apply stable_modify. intros s Hs. apply Hfs, Hs. }
  intros [e|]; [apply stable_ret|].
  apply stable_bind.
  { unfold Execute. apply stable_bind; [apply stable_gets|]. intros fs0.
    destruct (executeErr env _);
      (destruct (fsLookup _ fs0); [|apply stable_ret]);
      (apply stable_bind; [|intros; apply stable_ret]);
      apply stable_modify; intros s Hs; apply Hfs, Hs. }
  intros [e|]; apply stable_ret.
Qed.

Hypothesis Hstatus : ignores_status P.
Hypothesis Hremoval : ignores_removal P.

Lemma stable_cleanupScan l i toDelete : stable P (cleanupScan l i toDelete).
Proof.
  revert i toDelete. induction l as [|p l IH]; intros i toDelete; simpl.
  - apply stable_ret.
  - apply stable_bind; [apply stable_gets|]. intros d.
    apply stable_bind; [apply stable_gets|]. intros t.
    destruct (time.After _ _); [|apply IH].
    apply stable_bind; [|intros; apply IH].
    apply stable_modify. intros s Hs. apply Hstatus, Hs.
Qed.

Lemma stable_cleanup : stable P cleanup.
Proof.
  unfold cleanup.
  apply stable_bind; [apply stable_gets|]. intros dumps.
  apply stable_bind; [apply stable_cleanupScan|]. intros toDelete.
  apply stable_forEach. intros i.
  apply stable_modify. intros s Hs. apply Hremoval, Hs.
Qed.

Lemma stable_stopScan env comm l i : stable P (stopScan env comm l i).
Proof.
  revert i. induction l as [|p l IH]; intros i; simpl.
  - apply stable_ret.
  - apply stable_bind; [apply stable_gets|]. intros d.
    destruct (CommMatches d comm); [|apply IH].
    apply stable_bind; [apply stable_modify; intros s Hs; apply Hstatus, Hs|].
    intros _. apply stable_bind; [apply stable_gets|]. intros d'.
    apply stable_bind; [apply stable_logf, Hlog | intros; apply stable_ret].
Qed.

Lemma stable_StopActivityDump env comm : stable P (StopActivityDump env comm).
Proof.
  unfold StopActivityDump.
  apply stable_bind; [apply stable_gets|]. intros dumps.
  apply stable_bind; [apply stable_stopScan|]. intros toDelete.
  destruct (0 <=? toDelete); [|apply stable_ret].
  apply stable_bind; [|intros; apply stable_ret].
  apply stable_modify. intros s Hs. apply Hremoval, Hs.
Qed.

End StableReaders.

(** * The invariants under every operation *)

Lemma Inv_ignores_log : ignores_log Inv.
Proof. intros s l H. exact H. Qed.

Lemma Inv_ignores_calls : ignores_calls anyCall Inv.
Proof. intros s c _ H. exact H. Qed.

Lemma Inv_ignores_queue : ignores_queue Inv.
Proof. intros s q H. exact H. Qed.

Lemma Inv_ignores_fs : ignores_fs Inv.
Proof. intros s f H. exact H. Qed.

Lemma Inv_ignores_status : ignores_status Inv.
Proof.
  intros s p st (Ha & H1 & H2). split; [exact Ha|]. split.
  - unfold I1. erewrite keys_ext; [exact H1 | reflexivity |].
    intros q. simpl. apply (updHeap_field ContainerID). reflexivity.
  - unfold I2. erewrite keys_ext; [exact H2 | reflexivity |].
    intros q. simpl. apply (updHeap_field Comm). reflexivity.
Qed.

Lemma Forall_removeAt {A} (Q : A -> Prop) i l :
  Forall Q l -> Forall Q (removeAt i l).
Proof.
  intros H. destruct (removeAt_cases i l) as [E | (pre & x & post & E1 & E2)].
  - rewrite E. exact H.
  - rewrite E2. rewrite E1 in H. apply Forall_app in H. destruct H as [Hp Hx].
    apply Forall_app. split; [exact Hp|]. inversion Hx; assumption.
Qed.

Lemma Inv_ignores_removal : ignores_removal Inv.
Proof.
  intros s i (Ha & H1 & H2). split; [|split].
  - unfold allocated in *. simpl. apply Forall_removeAt, Ha.
  - apply (keys_removeAt ContainerID s _ i); [reflexivity | reflexivity | exact H1].
  - apply (keys_removeAt Comm s _ i); [reflexivity | reflexivity | exact H2].
Qed.

(** Allocation writes a fresh cell: the registered dumps are untouched. *)
Lemma NewActivityDump_Inv env options s :
  Inv s ->
  let r := NewActivityDump env options s in
  Inv (snd r) /\ (fst (fst r) < next (snd r))%nat.
Proof.
  intros (Ha & H1 & H2). unfold NewActivityDump, timeNow.
  repeat (rewrite bind_run; simpl).
  assert (Hk : forall X (field : ActivityDump -> X) d,
             map (fun p => field (updHeap (heap s) (next s) d p)) (activeDumps s)
             = map (fun p => field (heap s p)) (activeDumps s)).
  { intros X field d. apply map_ext_in. intros q Hq.
    unfold allocated in Ha. rewrite Forall_forall in Ha. specialize (Ha q Hq).
    rewrite updHeap_other by lia. reflexivity. }
  split; [|lia]. split; [|split].
  - unfold allocated in *. simpl. eapply Forall_impl; [|exact Ha].
    simpl. intros; lia.
  - unfold I1, keys in *. simpl. rewrite Hk. exact H1.
  - unfold I2, keys in *. simpl. rewrite Hk. exact H2.
Qed.

Lemma insert_Inv env p s :
  (p < next s)%nat -> Inv s -> Inv (snd (insertActivityDump env p s)).
Proof.
  intros Hp (Ha & H1 & H2). split; [|split].
  - apply insert_allocated; assumption.
  - apply insert_I1, H1.
  - apply insert_I2, H2.
Qed.

Lemma HandleCgroupTracingEvent_Inv env event s :
  Inv s -> Inv (snd (HandleCgroupTracingEvent env event s)).
Proof.
  intros H. unfold HandleCgroupTracingEvent, timeNow.
  rewrite bind_run; simpl. rewrite bind_run.
  match goal with |- context [NewActivityDump env ?o s] =>
    destruct (NewActivityDump_Inv env o s H) as [Hi Hlt];
    destruct (NewActivityDump env o s) as [[newDump err] s1] end.
  simpl in *. destruct err as [e|].
  - repeat (rewrite bind_run; simpl). exact Hi.
  - rewrite bind_run.
    pose proof (insert_Inv env newDump s1 Hlt Hi) as Hi2.
    destruct (insertActivityDump env newDump s1) as [[e|] s2];
      simpl in *; repeat (rewrite bind_run; simpl); exact Hi2.
Qed.

Lemma DumpActivity_Inv env params s :
  Inv s -> Inv (snd (DumpActivity env params s)).
Proof.
  intros H. unfold DumpActivity. rewrite bind_run.
  match goal with |- context [NewActivityDump env ?o s] =>
    destruct (NewActivityDump_Inv env o s H) as [Hi Hlt];
    destruct (NewActivityDump env o s) as [[newDump err] s1] end.
  simpl in *. destruct err as [e|].
  - repeat (rewrite bind_run; simpl). exact Hi.
  - rewrite bind_run.
    pose proof (insert_Inv env newDump s1 Hlt Hi) as Hi2.
    destruct (insertActivityDump env newDump s1) as [[e|] s2];
      simpl in *; repeat (rewrite bind_run; simpl); exact Hi2.
Qed.

Lemma step_Inv env o s : Inv s -> Inv (step env o s).
Proof.
  intros H. destruct o; cbv [step].
  - apply HandleCgroupTracingEvent_Inv, H.
  - apply DumpActivity_Inv, H.
  - apply (stable_ListActivityDumps Inv), H.
  - apply (stable_StopActivityDump Inv);
      auto using Inv_ignores_log, Inv_ignores_status, Inv_ignores_removal.
  - apply (stable_ProcessEvent Inv anyCall);
      auto using Inv_ignores_calls.
  - apply (stable_cleanup Inv);
      auto using Inv_ignores_status, Inv_ignores_removal.
  - apply (stable_resolveTags Inv anyCall);
      auto using Inv_ignores_calls, Inv_ignores_log.
  - apply (stable_SendStats Inv anyCall);
      auto using Inv_ignores_calls, Inv_ignores_log.
  - apply (stable_takeSnapshot Inv anyCall);
      auto using Inv_ignores_calls, Inv_ignores_log, Inv_ignores_queue.
  - apply (stable_GenerateProfile Inv); auto using Inv_ignores_fs.
Qed.

(** * C1: duplicates are ignored, the invariants hold *)

(** The pointwise reading of I1 and I2: two different positions of the
    registry never hold the same non-empty key. *)
Lemma keys_NoDup_at_most_one key s pre p between q post :
  NoDup (keys key s) ->
  activeDumps s = pre ++ p :: between ++ q :: post ->
  key (heap s p) <> ""%string ->
  key (heap s p) <> key (heap s q).
Proof.
  unfold keys. intros H E Hne Heq. rewrite E in H.
  rewrite map_app, filter_app in H. simpl in H.
  apply nonEmpty_true in Hne. rewrite Hne in H.
  apply NoDup_remove_2 in H. apply H.
  apply in_or_app. right.
  rewrite map_app, filter_app. apply in_or_app. right. simpl.
  rewrite <- Heq, Hne. left. reflexivity.
Qed.

Lemma demoState_Inv : Inv demoState.
Proof.
  split; [|split].
  - repeat constructor.
  - unfold I1, keys. simpl. repeat constructor. intros [].
  - unfold I2, keys. simpl. repeat constructor. intros [].
Qed.

Lemma reachable_Inv env s : reachable env s -> Inv s.
Proof.
  induction 1 as [s H | s o _ IH | s s' _ IH (Ha & Hh & Hn & _)].
  - unfold Inv, allocated, I1, I2, keys. rewrite H. simpl.
    repeat split; constructor.
  - apply step_Inv, IH.
  - unfold Inv, allocated, I1, I2, keys in *. rewrite Ha, Hh, Hn. exact IH.
Qed.

(** C1. Inserting a candidate whose non-empty ContainerID, or non-empty
    Comm, equals that of a dump of the active registry returns nil and
    leaves the whole manager state as it was; insertion keeps I1 and I2,
    every operation of the manager keeps them (together with the fact that
    registered pointers are allocated), and so they hold in every state a
    manager started with an empty registry goes through. *)
Theorem insert_duplicate_ignored_invariants_kept (env : Env) :
  (forall s newDump p,
      In p (activeDumps s) ->
      (ContainerID (heap s newDump) <> ""%string /\
       ContainerID (heap s p) = ContainerID (heap s newDump)) \/
      (Comm (heap s newDump) <> ""%string /\
       Comm (heap s p) = Comm (heap s newDump)) ->
      insertActivityDump env newDump s = (None, s)) /\
  (forall s newDump,
      I1 s -> I2 s ->
      I1 (snd (insertActivityDump env newDump s)) /\
      I2 (snd (insertActivityDump env newDump s))) /\
  (forall s o, Inv s -> Inv (step env o s)) /\
  (forall s, reachable env s -> I1 s /\ I2 s).
Proof.
  split; [|split; [|split]].
  - intros s newDump p Hin [[Hne E]|[Hne E]]; apply insert_conflict.
    + left. eapply containerIDActive_true; eassumption.
    + right. eapply commActive_true; eassumption.
  - intros s newDump H1 H2. split; [apply insert_I1, H1 | apply insert_I2, H2].
  - intros s o. apply step_Inv.
  - intros s H. apply reachable_Inv in H. apply H.
Qed.

Lemma insert_duplicate_ignored_invariants_kept_witness :
  insertActivityDump demoEnv 2%nat demoState = (None, demoState) /\
  (I1 (snd (insertActivityDump demoEnv 3%nat demoState)) /\
   I2 (snd (insertActivityDump demoEnv 3%nat demoState))) /\
  Inv (step demoEnv (OpDumpActivity (mkDumpParams "nginx" 1 false false))
            demoState) /\
  (I1 (step demoEnv (OpDumpActivity (mkDumpParams "curl" 1 false false))
            (set_activeDumps [] demoState)) /\
   I2 (step demoEnv (OpDumpActivity (mkDumpParams "curl" 1 false false))
            (set_activeDumps [] demoState))).
Proof.
  destruct (insert_duplicate_ignored_invariants_kept demoEnv)
    as (Hdup & Hins & Hinv & Hreach).
  split; [|split; [|split]].
  - apply (Hdup demoState 2%nat 0%nat).
    + simpl. left. reflexivity.
    + left. split; [discriminate | reflexivity].
  - apply Hins; apply demoState_Inv.
  - apply Hinv. exact demoState_Inv.
  - apply Hreach. apply reach_step, reach_start. reflexivity.
Defined.

(** * C2: cleanup *)

Lemma expired_iff s p :
  expired s p = true <-> Start (heap s p) + Timeout (heap s p) < now s.
Proof. unfold expired, time.After, time.Add. apply Z.ltb_lt. Qed.

Lemma indexesOf_S {A} (f : A -> bool) l i :
  indexesOf f l (S i) = map S (indexesOf f l i).
Proof.
  revert i. induction l as [|x l IH]; intros i; simpl; [reflexivity|].
  destruct (f x); simpl; rewrite IH; reflexivity.
Qed.

Lemma removeAll_shift {A} (x : A) idx a :
  fold_left (fun a i => removeAt i a) (map S idx) (x :: a)
  = x :: fold_left (fun a i => removeAt i a) idx a.
Proof.
  revert a. induction idx as [|i idx IH]; intros a; simpl; [reflexivity|].
  rewrite removeAt_cons. apply IH.
Qed.

(** Deleting the selected indexes, greatest first, is filtering. *)
Lemma removeAll_descending {A} (f : A -> bool) l :
  fold_left (fun a i => removeAt i a) (rev (indexesOf f l 0%nat)) l
  = filter (fun x => negb (f x)) l.
Proof.
  induction l as [|x l IH]; simpl; [reflexivity|].
  rewrite indexesOf_S. destruct (f x); simpl.
  - rewrite <- map_rev, fold_left_app, removeAll_shift, IH. reflexivity.
  - rewrite <- map_rev, removeAll_shift, IH. reflexivity.
Qed.

Lemma cleanupScan_run f l : forall i toDelete s,
  (forall q, expired s q = f q) ->
  cleanupScan l i toDelete s
  = (rev (indexesOf f l i) ++ toDelete, set_heap (closeAll f l (heap s)) s).
Proof.
  induction l as [|p l IH]; intros i toDelete s Hf.
  - simpl. destruct s; reflexivity.
  - simpl. rewrite bind_run; simpl. rewrite bind_run; simpl.
    rewrite <- Hf. unfold expired.
    destruct (time.After _ _) eqn:E.
    + rewrite bind_run. simpl. rewrite IH.
      * simpl. rewrite <- app_assoc. reflexivity.
      * intros q. rewrite <- Hf. unfold expired. simpl.
        rewrite (updHeap_field Start), (updHeap_field Timeout);
          reflexivity.
    + rewrite IH by exact Hf. reflexivity.
Qed.

Lemma forEach_removeAt idx : forall s,
  snd (forEach idx (fun i =>
         modify (fun s => set_activeDumps (removeAt i (activeDumps s)) s)) s)
  = set_activeDumps (fold_left (fun a i => removeAt i a) idx (activeDumps s)) s.
Proof.
  induction idx as [|i idx IH]; intros s; simpl.
  - destruct s; reflexivity.
  - rewrite bind_run. simpl. rewrite IH. reflexivity.
Qed.

Lemma cleanup_run s :
  snd (cleanup s)
  = set_activeDumps (filter (fun p => negb (expired s p)) (activeDumps s))
      (set_heap (closeAll (expired s) (activeDumps s) (heap s)) s).
Proof.
  unfold cleanup. rewrite bind_run; simpl. rewrite bind_run.
  rewrite (cleanupScan_run (expired s)) by reflexivity. simpl.
  rewrite forEach_removeAt. simpl.
  rewrite app_nil_r, removeAll_descending. reflexivity.
Qed.

Lemma closeAll_closed f l : forall h p,
  (In p l /\ f p = true) \/ status (h p) = Closed ->
  status (closeAll f l h p) = Closed.
Proof.
  induction l as [|x l IH]; intros h p H; simpl.
  - destruct H as [[[] _]|H]; exact H.
  - apply IH. destruct H as [[[->|Hin] Hf]|H].
    + right. rewrite Hf, updHeap_same. reflexivity.
    + left. split; assumption.
    + right. destruct (f x); [|exact H].
      destruct (Nat.eq_dec p x) as [->|Hne].
      * rewrite updHeap_same. reflexivity.
      * rewrite updHeap_other by exact Hne. exact H.
Qed.

Lemma closeAll_other f l : forall h p,
  f p = false -> closeAll f l h p = h p.
Proof.
  induction l as [|x l IH]; intros h p H; simpl; [reflexivity|].
  rewrite IH by exact H. destruct (f x) eqn:E; [|reflexivity].
  apply updHeap_other. intros ->. congruence.
Qed.

(** C2, as the code has it.  A run of cleanup finalizes and removes every
    active dump whose expiry instant Start + Timeout is strictly before the
    current time, and only those: the registry becomes the sequence of the
    dumps that are not past their expiry, in their former order, and the
    dumps that stay are not touched. *)
Theorem cleanup_removes_dumps_past_expiry (s : ActivityDumpManager) :
  activeDumps (snd (cleanup s))
  = filter (fun p => negb (expired s p)) (activeDumps s) /\
  (forall p,
      In p (activeDumps s) ->
      Start (heap s p) + Timeout (heap s p) < now s ->
      status (heap (snd (cleanup s)) p) = Closed /\
      ~ In p (activeDumps (snd (cleanup s)))) /\
  (forall p,
      now s <= Start (heap s p) + Timeout (heap s p) ->
      heap (snd (cleanup s)) p = heap s p /\
      (In p (activeDumps s) -> In p (activeDumps (snd (cleanup s))))).
Proof.
  rewrite cleanup_run. simpl. split; [reflexivity|]. split.
  - intros p Hin Hlt. apply expired_iff in Hlt. split.
    + apply closeAll_closed. left. split; assumption.
    + intros H. apply filter_In in H. destruct H as [_ H].
      rewrite Hlt in H. discriminate.
  - intros p Hle.
    assert (E : expired s p = false).
    { destruct (expired s p) eqn:E; [|reflexivity].
      apply expired_iff in E. lia. }
    split.
    + apply closeAll_other, E.
    + intros Hin. apply filter_In. split; [exact Hin|]. rewrite E. reflexivity.
Qed.

Lemma cleanup_removes_dumps_past_expiry_witness :
  status (heap (snd (cleanup (set_activeDumps [0%nat; 1%nat]
            (mkADM (config demoState) (processes demoState) 150 demoHeap 5%nat
                   [] [] (fun _ => []) [] [] [])))) 0%nat) = Closed /\
  In 1%nat (activeDumps (snd (cleanup (set_activeDumps [0%nat; 1%nat]
            (mkADM (config demoState) (processes demoState) 150 demoHeap 5%nat
                   [] [] (fun _ => []) [] [] []))))).
Proof.
  pose proof (cleanup_removes_dumps_past_expiry
                (set_activeDumps [0%nat; 1%nat]
                   (mkADM (config demoState) (processes demoState) 150
                          demoHeap 5%nat [] [] (fun _ => []) [] [] [])))
    as (_ & Hgone & Hstay).
  split.
  - apply (Hgone 0%nat); simpl; [left; reflexivity | lia].
  - apply (Hstay 1%nat); simpl; [lia | right; left; reflexivity].
Defined.

(** C2 as stated fails at the expiry instant itself: dump 0 of
    [demoState] has Start + Timeout equal to the current time, and cleanup
    leaves it registered and open. *)
Lemma cleanup_keeps_dump_at_expiry_instant :
  In 0%nat (activeDumps demoState) /\
  Start (heap demoState 0%nat) + Timeout (heap demoState 0%nat)
    <= now demoState /\
  In 0%nat (activeDumps (snd (cleanup demoState))) /\
  status (heap (snd (cleanup demoState)) 0%nat) = Open.
Proof.
  split; [|split; [|split]].
  - simpl. left. reflexivity.
  - simpl. lia.
  - vm_compute. left. reflexivity.
  - vm_compute. reflexivity.
Qed.

(** End to end: a dump for comm curl with a timeout of one minute is
    listed once inserted, and gone after a cleanup that runs past the
    minute. *)
Example end_to_end_curl :
  let s0 := set_activeDumps [] demoState in
  let s1 := step demoEnv (OpDumpActivity (mkDumpParams "curl" 1 false false))
                 s0 in
  let s2 := step demoEnv OpCleanup (set_now (now s1 + time.Minute + 1) s1) in
  map (fun m => option_map Comm (Metadata m)) (fst (fst (ListActivityDumps s1)))
  = [Some "curl"%string] /\
  fst (fst (ListActivityDumps s2)) = [].
Proof. vm_compute. split; reflexivity. Qed.

(** * C3: ancestry seeding *)

Lemma prependAncestors_lineage :
  forall q ancestors, prependAncestors q ancestors = lineage q ++ ancestors.
Proof.
  fix IH 1. intros [pid comm [parent|]] ancestors; simpl.
  - rewrite IH, <- app_assoc. reflexivity.
  - reflexivity.
Qed.

Lemma computeAncestors_lineage entry : computeAncestors entry = lineage entry.
Proof.
  destruct entry as [pid comm [parent|]]; simpl; [|reflexivity].
  unfold computeAncestors. simpl. apply prependAncestors_lineage.
Qed.

Lemma lineage_last e : exists l, lineage e = l ++ [e].
Proof.
  destruct e as [pid comm [parent|]]; simpl.
  - exists (lineage parent). reflexivity.
  - exists []. reflexivity.
Qed.

Lemma lineage_rootFirst : forall e, rootFirst (lineage e).
Proof.
  fix IH 1. intros [pid comm [parent|]].
  - destruct (IH parent) as [(r & Hr & Hroot) Hstep].
    destruct (lineage_last parent) as [l El].
    change (lineage (PCE pid comm (Some parent)))
      with (lineage parent ++ [PCE pid comm (Some parent)]).
    assert (Hlen : List.length (lineage parent) = S (List.length l))
      by (rewrite El, length_app; simpl; lia).
    split.
    + exists r. split; [|exact Hroot].
      rewrite nth_error_app1 by lia. exact Hr.
    + intros i child Hi.
      destruct (Nat.lt_ge_cases (S i) (List.length (lineage parent))) as [Hlt|Hge].
      * rewrite nth_error_app1 in Hi by exact Hlt.
        rewrite nth_error_app1 by lia. apply Hstep, Hi.
      * rewrite nth_error_app2 in Hi by exact Hge.
        destruct (S i - List.length (lineage parent))%nat as [|k] eqn:Ek.
        -- simpl in Hi. injection Hi as <-. exists parent. split; [|reflexivity].
           rewrite nth_error_app1 by lia.
           rewrite El, nth_error_app2 by lia.
           replace (i - List.length l)%nat with 0%nat by lia. reflexivity.
        -- destruct k; discriminate.
  - split.
    + exists (PCE pid comm None). split; reflexivity.
    + intros i child Hi. destruct i; discriminate.
Qed.

Lemma rootFirst_parentsFirst l : rootFirst l -> parentsFirst l.
Proof.
  intros [(r & Hr & Hroot) Hstep] i child parent Hi Hp.
  destruct i as [|j].
  - rewrite Hr in Hi. injection Hi as <-. congruence.
  - exists j. split; [reflexivity|].
    destruct (Hstep j child Hi) as (parent' & Hj & Hp'). congruence.
Qed.

Lemma parentsFirst_app l1 l2 :
  parentsFirst l1 -> parentsFirst l2 -> parentsFirst (l1 ++ l2).
Proof.
  intros H1 H2 i child parent Hi Hp.
  destruct (Nat.lt_ge_cases i (List.length l1)) as [Hlt|Hge].
  - rewrite nth_error_app1 in Hi by exact Hlt.
    destruct (H1 i child parent Hi Hp) as (j & -> & Hj).
    exists j. split; [reflexivity|]. rewrite nth_error_app1 by lia. exact Hj.
  - rewrite nth_error_app2 in Hi by exact Hge.
    destruct (H2 _ child parent Hi Hp) as (j & Ej & Hj).
    exists (List.length l1 + j)%nat. split; [lia|].
    rewrite nth_error_app2 by lia.
    replace (List.length l1 + j - List.length l1)%nat with j by lia. exact Hj.
Qed.

Lemma parentsFirst_lineages l : parentsFirst (flat_map lineage l).
Proof.
  induction l as [|e l IH]; simpl.
  - intros [|i] child parent Hi; discriminate.
  - apply parentsFirst_app; [|exact IH].
    apply rootFirst_parentsFirst, lineage_rootFirst.
Qed.

Lemma bind_assoc {A B C} (m : M A) (f : A -> M B) (g : B -> M C) s :
  bind (bind m f) g s = bind m (fun a => bind (f a) g) s.
Proof. unfold bind. destruct (m s) as [a s1]. reflexivity. Qed.

Lemma findOrCreateCalls_app cs cs' :
  findOrCreateCalls (cs ++ cs') = findOrCreateCalls cs ++ findOrCreateCalls cs'.
Proof. apply flat_map_app. Qed.

Section SeedingCalls.

Variable env : Env.
Variable ad : ptr.

Lemma requested_ignores_calls l : ignores_calls notFindOrCreate (requested l).
Proof.
  intros s c Hc H. unfold requested in *. simpl.
  rewrite findOrCreateCalls_app, H.
  destruct c; try discriminate; apply app_nil_r.
Qed.

Lemma requested_ignores_log l : ignores_log (requested l).
Proof. intros s e H. exact H. Qed.

Lemma requested_ignores_maps l : ignores_puts notFindOrCreate (requested l).
Proof. intros s m k v _ H. exact H. Qed.

Lemma requested_ignores_tree l : ignores_tree (requested l).
Proof. intros s p t H. exact H. Qed.

(** What follows the recording of the request, in one round of the second
    loop of the callback, requests nothing. *)
Lemma stable_afterRequest l parent :
  stable (requested l)
    (node <- (d <- deref ad ;;
              if Matches env d parent
              then when (negb (existsb (Z.eqb (Pid parent)) (tree d)))
                     (update ad (fun d => set_tree (tree d ++ [Pid parent]) d)) ;;
                   ret (Some (Pid parent))
              else ret None) ;;
     match node with
     | Some pid => UpdateTracedPidTimeout env ad pid
     | None => ret tt
     end).
Proof.
  apply stable_bind.
  - unfold deref. apply stable_bind; [apply stable_gets|]. intros d.
    destruct (Matches env d parent); [|apply stable_ret].
    apply stable_bind; [|intros; apply stable_ret].
    apply stable_when, stable_modify. intros s' Hs.
    apply requested_ignores_tree, Hs.
  - intros [pid|]; [|apply stable_ret].
    unfold UpdateTracedPidTimeout, deref.
    apply stable_bind; [apply stable_gets|]. intros d.
    apply stable_bind.
    + apply (stable_Put _ notFindOrCreate);
        auto using requested_ignores_calls, requested_ignores_maps.
    + intros [e|]; [|apply stable_ret].
      apply stable_logf, requested_ignores_log.
Qed.

(** One round of the second loop of the callback requests one insertion. *)
Lemma seed_one_calls parent s :
  findOrCreateCalls (calls (snd (
    (node <- FindOrCreateProcessActivityNode env ad parent ;;
     match node with
     | Some pid => UpdateTracedPidTimeout env ad pid
     | None => ret tt
     end) s)))
  = findOrCreateCalls (calls s) ++ [(ad, parent)].
Proof.
  unfold FindOrCreateProcessActivityNode. rewrite bind_assoc.
  rewrite bind_run.
  apply (stable_afterRequest (findOrCreateCalls (calls s) ++ [(ad, parent)])).
  unfold requested. simpl. apply findOrCreateCalls_app.
Qed.

Lemma seed_all_calls l : forall s,
  findOrCreateCalls (calls (snd (forEach l (fun parent =>
      node <- FindOrCreateProcessActivityNode env ad parent ;;
      match node with
      | Some pid => UpdateTracedPidTimeout env ad pid
      | None => ret tt
      end) s)))
  = findOrCreateCalls (calls s) ++ map (pair ad) l.
Proof.
  induction l as [|x l IH]; intros s; simpl.
  - rewrite app_nil_r. reflexivity.
  - rewrite bind_run. rewrite IH. simpl fst.
    rewrite seed_one_calls, <- app_assoc. reflexivity.
Qed.

Lemma callback_calls entry s :
  findOrCreateCalls
    (calls (snd (SearchTracedProcessCacheEntryCallback env ad entry s)))
  = findOrCreateCalls (calls s) ++ map (pair ad) (lineage entry).
Proof.
  unfold SearchTracedProcessCacheEntryCallback.
  rewrite seed_all_calls, computeAncestors_lineage. reflexivity.
Qed.

Lemma Walk_calls_aux l : forall s,
  findOrCreateCalls
    (calls (snd (forEach l (SearchTracedProcessCacheEntryCallback env ad) s)))
  = findOrCreateCalls (calls s) ++ map (pair ad) (flat_map lineage l).
Proof.
  induction l as [|x l IH]; intros s; simpl.
  - rewrite app_nil_r. reflexivity.
  - rewrite bind_run, IH. simpl fst.
    rewrite callback_calls, map_app, <- app_assoc. reflexivity.
Qed.

Lemma seeded_calls s :
  findOrCreateCalls (calls (seeded env ad s))
  = findOrCreateCalls (calls s)
    ++ map (pair ad) (flat_map lineage (processes s)).
Proof.
  unfold seeded, Walk. rewrite bind_run. simpl fst. simpl snd.
  rewrite Walk_calls_aux. f_equal.
  - apply (stable_pushFilters (requested (findOrCreateCalls (calls s)))
                              notFindOrCreate);
      auto using requested_ignores_calls, requested_ignores_log,
                 requested_ignores_maps.
    reflexivity.
  - f_equal. f_equal.
    apply (stable_pushFilters (fun s' => processes s' = processes s) anyCall);
      try reflexivity; intros s' x; intros; assumption.
Qed.

End SeedingCalls.

(** ** The tree of the dump *)

Lemma set_tree_same d : set_tree (tree d) d = d.
Proof. destruct d; reflexivity. Qed.

Lemma UpdateTracedPidTimeout_frame env ad pid s :
  heap (snd (UpdateTracedPidTimeout env ad pid s)) = heap s.
Proof.
  apply (stable_bind (fun s' => heap s' = heap s)); [| |reflexivity].
  - apply stable_gets.
  - intros d. apply stable_bind.
    + apply (stable_Put _ anyCall); [| |reflexivity];
        intros s0; intros; assumption.
    + intros [e|]; [|apply stable_ret].
      apply stable_logf. intros s0 e0 H. exact H.
Qed.

(** One round of the second loop of the callback creates the node of the
    process, at the end of the tree, when the dump takes the process and
    has no node for it; otherwise the dump is as it was. *)
Lemma seed_one_tree env ad parent s :
  let s' := snd ((node <- FindOrCreateProcessActivityNode env ad parent ;;
                  match node with
                  | Some pid => UpdateTracedPidTimeout env ad pid
                  | None => ret tt
                  end) s) in
  let d := heap s ad in
  heap s' ad
  = if Matches env d parent && negb (existsb (Z.eqb (Pid parent)) (tree d))
    then set_tree (tree d ++ [Pid parent]) d
    else d.
Proof.
  cbn zeta. rewrite bind_run.
  unfold FindOrCreateProcessActivityNode, call, deref.
  repeat (rewrite bind_run; cbn [fst snd gets modify]).
  cbn [heap set_calls].
  destruct (Matches env (heap s ad) parent); [|reflexivity].
  rewrite bind_run. cbn [fst snd ret andb].
  rewrite UpdateTracedPidTimeout_frame.
  unfold when, update.
  destruct (existsb (Z.eqb (Pid parent)) (tree (heap s ad)));
    cbn [negb snd ret modify heap set_heap set_calls].
  - reflexivity.
  - apply updHeap_same.
Qed.

Lemma selection_refl {A} (l : list A) : selection l l.
Proof. induction l; constructor; assumption. Qed.

(** The rounds of the callback over a list of entries: the nodes they
    create go to the end of the tree in the order of the entries, and
    they are all of them when the dump takes every entry and has seen
    none. *)
Lemma seed_all_tree env ad l : forall s,
  let s' := snd (forEach l (fun parent =>
      node <- FindOrCreateProcessActivityNode env ad parent ;;
      match node with
      | Some pid => UpdateTracedPidTimeout env ad pid
      | None => ret tt
      end) s) in
  let d := heap s ad in
  exists news,
    heap s' ad = set_tree (tree d ++ news) d /\
    selection (map Pid l) news /\
    (takesAll env d l -> unseen d l -> news = map Pid l).
Proof.
  induction l as [|e l IH]; intros s; cbn zeta.
  - exists []. cbn [forEach snd ret map]. rewrite app_nil_r, set_tree_same.
    split; [reflexivity|]. split; [constructor | reflexivity].
  - cbn [forEach]. rewrite bind_run. cbn [fst].
    match goal with |- context [forEach l ?b (snd ?x)] =>
      set (s1 := snd x) end.
    pose proof (seed_one_tree env ad e s) as H1. cbn zeta in H1.
    fold s1 in H1.
    destruct (IH s1) as (news & Hh & Hsel & Hall). cbn zeta in Hh.
    set (d := heap s ad) in *.
    destruct (Matches env d e && negb (existsb (Z.eqb (Pid e)) (tree d)))
      eqn:Hc.
    + exists (Pid e :: news). rewrite Hh, H1. cbn [tree set_tree map].
      rewrite <- app_assoc. split; [reflexivity|].
      split; [constructor; exact Hsel|].
      intros Ht [Hnd Hfresh]. f_equal. apply Hall.
      * rewrite H1. intros e' t Hin. apply (Ht e' t). right. exact Hin.
      * rewrite H1. cbn [tree set_tree map] in *.
        inversion Hnd as [|? ? Hnotin Hnd']. subst.
        split; [exact Hnd'|]. intros e' Hin Hin'.
        apply in_app_or in Hin'. destruct Hin' as [Hin'|[Heq|[]]].
        -- apply (Hfresh e'); [right; exact Hin | exact Hin'].
        -- apply Hnotin. rewrite Heq. apply in_map. exact Hin.
    + exists news. rewrite Hh, H1.
      split; [reflexivity|]. split; [constructor; exact Hsel|].
      intros Ht [Hnd Hfresh]. exfalso.
      assert (Hm : Matches env d e = true).
      { rewrite <- (set_tree_same d). apply Ht. left. reflexivity. }
      assert (He : existsb (Z.eqb (Pid e)) (tree d) = false).
      { destruct (existsb (Z.eqb (Pid e)) (tree d)) eqn:E; [|reflexivity].
        apply existsb_exists in E. destruct E as (x & Hx & Ex).
        apply Z.eqb_eq in Ex. subst x.
        exfalso. apply (Hfresh e); [left; reflexivity | exact Hx]. }
      rewrite Hm, He in Hc. discriminate.
Qed.

Lemma forEach_app {A} (l l' : list A) (body : A -> M unit) s :
  snd (forEach (l ++ l') body s) = snd (forEach l' body (snd (forEach l body s))).
Proof.
  revert s. induction l as [|x l IH]; intros s.
  - reflexivity.
  - cbn [app forEach]. rewrite !bind_run. apply IH.
Qed.

(** The walk over the entries is one sequence of rounds, over their
    lineages. *)
Lemma Walk_rounds env ad l : forall s,
  snd (forEach l (SearchTracedProcessCacheEntryCallback env ad) s)
  = snd (forEach (flat_map lineage l) (fun parent =>
      node <- FindOrCreateProcessActivityNode env ad parent ;;
      match node with
      | Some pid => UpdateTracedPidTimeout env ad pid
      | None => ret tt
      end) s).
Proof.
  induction l as [|x l IH]; intros s.
  - reflexivity.
  - cbn [forEach flat_map]. rewrite bind_run, forEach_app, IH. cbn [fst].
    unfold SearchTracedProcessCacheEntryCallback at 1.
    rewrite computeAncestors_lineage. reflexivity.
Qed.

Lemma callback_tree env ad entry s :
  let s' := snd (SearchTracedProcessCacheEntryCallback env ad entry s) in
  let d := heap s ad in
  exists news,
    heap s' ad = set_tree (tree d ++ news) d /\
    selection (map Pid (lineage entry)) news /\
    (takesAll env d (lineage entry) -> unseen d (lineage entry) ->
     news = map Pid (lineage entry)).
Proof.
  unfold SearchTracedProcessCacheEntryCallback.
  rewrite computeAncestors_lineage. apply seed_all_tree.
Qed.

Lemma pushFilters_frame env p s :
  heap (snd (pushFilters env p s)) = heap s /\
  processes (snd (pushFilters env p s)) = processes s.
Proof.
  apply (stable_pushFilters
           (fun s' => heap s' = heap s /\ processes s' = processes s) anyCall);
    try (intros s0; intros; assumption); try reflexivity.
  split; reflexivity.
Qed.

Lemma insert_fresh_tree env p s :
  containerIDActive s (heap s p) = false ->
  commActive s (heap s p) = false ->
  let s' := snd (insertActivityDump env p s) in
  let d := heap s p in
  let l := flat_map lineage (processes s) in
  exists news,
    heap s' p = set_tree (tree d ++ news) d /\
    selection (map Pid l) news /\
    (takesAll env d l -> unseen d l -> news = map Pid l).
Proof.
  intros H1 H2. cbn zeta. rewrite (insert_fresh env p s H1 H2). cbn [snd].
  change (heap (set_activeDumps ?l ?s)) with (heap s).
  rewrite (trySend_frame heap) by reflexivity.
  unfold seeded, Walk. rewrite bind_run. cbn [fst snd gets].
  destruct (pushFilters_frame env p s) as [Hh Hp].
  rewrite Walk_rounds, Hp.
  destruct (seed_all_tree env p (flat_map lineage (processes s))
                          (snd (pushFilters env p s)))
    as (news & Hn & Hsel & Hall).
  cbn zeta in Hn, Hall. rewrite Hh in Hn, Hall.
  exists news. split; [exact Hn|]. split; [exact Hsel | exact Hall].
Qed.

Lemma insert_fresh_calls env p s :
  containerIDActive s (heap s p) = false ->
  commActive s (heap s p) = false ->
  calls (snd (insertActivityDump env p s)) = calls (seeded env p s) /\
  log (snd (insertActivityDump env p s)) = log (seeded env p s).
Proof.
  intros H1 H2. rewrite (insert_fresh env p s H1 H2). simpl.
  rewrite (trySend_frame calls), (trySend_frame log) by reflexivity.
  split; reflexivity.
Qed.

Lemma selection_In {A} (l news : list A) x :
  selection l news -> In x news -> In x l.
Proof.
  induction 1 as [|y l news _ IH|y l news _ IH]; intros Hin.
  - exact Hin.
  - right. apply IH, Hin.
  - destruct Hin as [->|Hin]; [left; reflexivity | right; apply IH, Hin].
Qed.

Lemma selection_split {A} (xs ys : list A) : forall news,
  selection (xs ++ ys) news ->
  exists n1 n2, news = n1 ++ n2 /\ selection xs n1 /\ selection ys n2.
Proof.
  induction xs as [|x xs IH]; intros news H.
  - exists [], news. split; [reflexivity|]. split; [constructor | exact H].
  - cbn [app] in H. inversion H as [|? ? ? H'|? ? n H']; subst.
    + destruct (IH news H') as (n1 & n2 & -> & H1 & H2).
      exists n1, n2. split; [reflexivity|].
      split; [constructor; exact H1 | exact H2].
    + destruct (IH n H') as (n1 & n2 & -> & H1 & H2).
      exists (x :: n1), n2. split; [reflexivity|].
      split; [constructor; exact H1 | exact H2].
Qed.

(** In a selection from a list without repetition, what is taken of two
    neighbours keeps their order. *)
Lemma selection_neighbours {A} (xs ys : list A) p c news :
  NoDup (xs ++ p :: c :: ys) ->
  selection (xs ++ p :: c :: ys) news ->
  In c news ->
  exists n1 n2, news = n1 ++ c :: n2 /\ (In p news -> In p n1).
Proof.
  intros Hnd Hsel Hc.
  replace (xs ++ p :: c :: ys) with ((xs ++ [p]) ++ c :: ys) in *
    by (rewrite <- app_assoc; reflexivity).
  destruct (selection_split _ _ _ Hsel) as (n1 & n2 & -> & H1 & H2).
  pose proof (NoDup_remove_2 _ _ _ Hnd) as Hnc.
  assert (Hc1 : ~ In c n1).
  { intros H. apply Hnc, in_or_app. left. exact (selection_In _ _ _ H1 H). }
  assert (Hys : forall n, selection ys n -> ~ In c n).
  { intros n Hn H. apply Hnc, in_or_app. right. exact (selection_In _ _ _ Hn H). }
  inversion H2 as [|? ? ? H2'|? ? n2' H2']; subst.
  - exfalso. apply in_app_or in Hc. destruct Hc as [Hc|Hc].
    + exact (Hc1 Hc).
    + exact (Hys _ H2' Hc).
  - exists n1, n2'. split; [reflexivity|].
    intros Hp. apply in_app_or in Hp. destruct Hp as [Hp|[Hp|Hp]].
    + exact Hp.
    + exfalso. subst p. apply Hnc, in_or_app. left.
      apply in_or_app. right. left. reflexivity.
    + exfalso. apply NoDup_remove_1 in Hnd.
      rewrite <- app_assoc in Hnd. cbn [app] in Hnd.
      apply NoDup_remove_2 in Hnd. apply Hnd, in_or_app. right.
      exact (selection_In _ _ _ H2' Hp).
Qed.

(** In a lineage an entry stands right after its ancestor. *)
Lemma lineage_neighbours : forall e child parent,
  In child (lineage e) ->
  GetNextAncestorNoFork child = Some parent ->
  exists pre post, lineage e = pre ++ parent :: child :: post.
Proof.
  fix IH 1. intros [pid comm [p|]] child parent Hin Hp.
  - change (lineage (PCE pid comm (Some p)))
      with (lineage p ++ [PCE pid comm (Some p)]) in *.
    apply in_app_or in Hin. destruct Hin as [Hin|[<-|[]]].
    + destruct (IH p child parent Hin Hp) as (pre & post & E).
      exists pre, (post ++ [PCE pid comm (Some p)]).
      rewrite E, <- app_assoc. reflexivity.
    + cbn in Hp. injection Hp as <-.
      destruct (lineage_last p) as [l El].
      exists l, []. rewrite El, <- app_assoc. reflexivity.
  - destruct Hin as [<-|[]]. discriminate.
Qed.

(** C3. The callback of the ancestry seeding walks the parent chain of the
    entry up to the root and asks the dump for the nodes in root-first
    order: the requests it adds are exactly the lineage of the entry,
    which starts at the root, ends at the entry itself, and in which
    every entry comes right after its own parent.  In the tree of the
    dump, the nodes the callback creates go to the end in that order, a
    node the tree has already keeping its place; when the dump takes the
    whole chain and has seen none of it they are the whole lineage, so
    for a chain root, mid, leaf the tree gets root, then mid, then leaf.
    A node created for a child stands after the node of its parent.  A
    registering insert does this for every entry the process resolver
    walks over. *)
Theorem seeding_inserts_nodes_root_first (env : Env) (ad : ptr) :
  (forall entry s,
      findOrCreateCalls
        (calls (snd (SearchTracedProcessCacheEntryCallback env ad entry s)))
      = findOrCreateCalls (calls s) ++ map (pair ad) (lineage entry)) /\
  (forall entry,
      rootFirst (lineage entry) /\ exists l, lineage entry = l ++ [entry]) /\
  (forall pr cr pm cm pl cl,
      let root := PCE pr cr None in
      let mid := PCE pm cm (Some root) in
      let leaf := PCE pl cl (Some mid) in
      lineage leaf = [root; mid; leaf]) /\
  (forall s,
      containerIDActive s (heap s ad) = false ->
      commActive s (heap s ad) = false ->
      findOrCreateCalls (calls (snd (insertActivityDump env ad s)))
      = findOrCreateCalls (calls s)
        ++ map (pair ad) (flat_map lineage (processes s))) /\
  (forall entries, parentsFirst (flat_map lineage entries)) /\
  (forall entry s,
      let s' := snd (SearchTracedProcessCacheEntryCallback env ad entry s) in
      exists news,
        tree (heap s' ad) = tree (heap s ad) ++ news /\
        selection (map Pid (lineage entry)) news /\
        (takesAll env (heap s ad) (lineage entry) ->
         unseen (heap s ad) (lineage entry) ->
         news = map Pid (lineage entry))) /\
  (forall pr cr pm cm pl cl s,
      let root := PCE pr cr None in
      let mid := PCE pm cm (Some root) in
      let leaf := PCE pl cl (Some mid) in
      takesAll env (heap s ad) [root; mid; leaf] ->
      unseen (heap s ad) [root; mid; leaf] ->
      tree (heap (snd (SearchTracedProcessCacheEntryCallback env ad leaf s)) ad)
      = tree (heap s ad) ++ [pr; pm; pl]) /\
  (forall entry s child parent,
      let s' := snd (SearchTracedProcessCacheEntryCallback env ad entry s) in
      NoDup (map Pid (lineage entry)) ->
      In child (lineage entry) ->
      GetNextAncestorNoFork child = Some parent ->
      ~ In (Pid child) (tree (heap s ad)) ->
      In (Pid child) (tree (heap s' ad)) ->
      In (Pid parent) (tree (heap s' ad)) ->
      exists before after,
        tree (heap s' ad) = before ++ Pid child :: after /\
        In (Pid parent) before) /\
  (forall s,
      containerIDActive s (heap s ad) = false ->
      commActive s (heap s ad) = false ->
      let s' := snd (insertActivityDump env ad s) in
      let l := flat_map lineage (processes s) in
      exists news,
        tree (heap s' ad) = tree (heap s ad) ++ news /\
        selection (map Pid l) news /\
        (takesAll env (heap s ad) l -> unseen (heap s ad) l ->
         news = map Pid l)).
Proof.
  split; [|split; [|split; [|split; [|split; [|split; [|split; [|split]]]]]]].
  - intros entry s. apply callback_calls.
  - intros entry. split; [apply lineage_rootFirst | apply lineage_last].
  - intros. reflexivity.
  - intros s H1 H2.
    destruct (insert_fresh_calls env ad s H1 H2) as [-> _].
    apply seeded_calls.
  - apply parentsFirst_lineages.
  - intros entry s s'. subst s'.
    destruct (callback_tree env ad entry s) as (news & Hh & Hsel & Hall).
    exists news. rewrite Hh. split; [reflexivity|].
    split; [exact Hsel | exact Hall].
  - intros pr cr pm cm pl cl s root mid leaf Ht Hu.
    destruct (callback_tree env ad leaf s) as (news & Hh & _ & Hall).
    rewrite Hh. cbn [tree set_tree]. rewrite (Hall Ht Hu). reflexivity.
  - intros entry s child parent s' Hnd Hin Hp Hold Hnew Hpar. subst s'.
    destruct (callback_tree env ad entry s) as (news & Hh & Hsel & _).
    rewrite Hh in *. cbn [tree set_tree] in *.
    destruct (lineage_neighbours entry child parent Hin Hp)
      as (pre & post & E).
    rewrite E, map_app in Hnd, Hsel. cbn [map] in Hnd, Hsel.
    assert (Hc : In (Pid child) news).
    { apply in_app_or in Hnew. destruct Hnew as [H|H];
        [contradiction | exact H]. }
    destruct (selection_neighbours _ _ _ _ _ Hnd Hsel Hc)
      as (n1 & n2 & -> & Hn1).
    exists (tree (heap s ad) ++ n1), n2.
    split; [rewrite <- app_assoc; reflexivity|].
    apply in_or_app. apply in_app_or in Hpar.
    destruct Hpar as [H|H]; [left; exact H | right; apply Hn1, H].
  - intros s H1 H2 s' l. subst s' l.
    destruct (insert_fresh_tree env ad s H1 H2) as (news & Hh & Hsel & Hall).
    exists news. rewrite Hh. split; [reflexivity|].
    split; [exact Hsel | exact Hall].
Qed.

Lemma seeding_inserts_nodes_root_first_witness :
  findOrCreateCalls (calls (snd (insertActivityDump demoEnv 3%nat demoState)))
  = [(3%nat, root); (3%nat, mid); (3%nat, leaf)] /\
  tree (heap (snd (insertActivityDump demoEnv 3%nat demoState)) 3%nat)
  = [1; 2; 3].
Proof.
  destruct (seeding_inserts_nodes_root_first demoEnv 3%nat)
    as (_ & _ & _ & Hreq & _ & _ & _ & _ & Htree).
  split.
  - rewrite (Hreq demoState); reflexivity.
  - destruct (Htree demoState eq_refl eq_refl) as (news & Ht & _ & Hall).
    rewrite Ht, Hall.
    + reflexivity.
    + intros e t _. reflexivity.
    + split.
      * repeat constructor; simpl; intuition discriminate.
      * intros e _ H. exact H.
Defined.

(** The tree of the new dump sees root, then mid, then leaf. *)
Example seeding_tree_root_mid_leaf :
  tree (heap (snd (insertActivityDump demoEnv 3%nat demoState)) 3%nat)
  = [Pid root; Pid mid; Pid leaf].
Proof. vm_compute. reflexivity. Qed.

(** * C4: the snapshot queue *)

(** C4, as the code has it.  With the snapshot queue full, a
    non-conflicting insert drops the snapshot request: the queue is as it
    was, the dump is registered, nil is returned.  The drop itself leaves
    no trace: the log and the recorded calls are those of the state reached
    right before the enqueue attempt. *)
Theorem insert_full_queue_drops_silently (env : Env) (s : ActivityDumpManager)
        (newDump : ptr) :
  (snapshotQueueCap <= List.length (snapshotQueue s))%nat ->
  containerIDActive s (heap s newDump) = false ->
  commActive s (heap s newDump) = false ->
  let r := insertActivityDump env newDump s in
  fst r = None /\
  activeDumps (snd r) = activeDumps s ++ [newDump] /\
  snapshotQueue (snd r) = snapshotQueue s /\
  log (snd r) = log (seeded env newDump s) /\
  calls (snd r) = calls (seeded env newDump s).
Proof.
  intros Hfull H1 H2. simpl.
  destruct (insert_fresh_calls env newDump s H1 H2) as [Hc Hl].
  destruct (insert_fresh_state env newDump s H1 H2) as (Ha & _ & _).
  rewrite (insert_fresh env newDump s H1 H2) in *. simpl in *.
  repeat split; try assumption.
  unfold trySend. rewrite bind_run. simpl.
  rewrite seeded_snapshotQueue.
  destruct (_ <? _)%nat eqn:E; [|apply seeded_snapshotQueue].
  apply Nat.ltb_lt in E. lia.
Qed.

Lemma insert_full_queue_drops_silently_witness :
  activeDumps (snd (insertActivityDump demoEnv 3%nat fullQueueState))
  = [0%nat; 1%nat; 3%nat] /\
  snapshotQueue (snd (insertActivityDump demoEnv 3%nat fullQueueState))
  = snapshotQueue fullQueueState.
Proof.
  destruct (insert_full_queue_drops_silently demoEnv fullQueueState 3%nat)
    as (_ & Ha & Hq & _).
  - vm_compute. apply le_n.
  - reflexivity.
  - reflexivity.
  - split; [exact Ha | exact Hq].
Defined.

(** C4 as stated fails on its last part: the queue is full, the insert
    registers the dump and drops the request, and the log has no entry for
    it, before or after. *)
Lemma insert_full_queue_writes_no_log_entry :
  List.length (snapshotQueue fullQueueState) = snapshotQueueCap /\
  fst (insertActivityDump demoEnv 3%nat fullQueueState) = None /\
  activeDumps (snd (insertActivityDump demoEnv 3%nat fullQueueState))
  = activeDumps fullQueueState ++ [3%nat] /\
  snapshotQueue (snd (insertActivityDump demoEnv 3%nat fullQueueState))
  = snapshotQueue fullQueueState /\
  log (snd (insertActivityDump demoEnv 3%nat fullQueueState)) = [].
Proof. vm_compute. repeat split. Qed.

(** * C5: stopping a dump *)

Lemma CommMatches_false d comm : Comm d <> comm -> CommMatches d comm = false.
Proof. intros H. apply String.eqb_neq, H. Qed.

Lemma stopScan_miss env comm l : forall i s,
  (forall q, In q l -> Comm (heap s q) <> comm) ->
  stopScan env comm l i s = (-1, s).
Proof.
  induction l as [|p l IH]; intros i s H; simpl; [reflexivity|].
  rewrite bind_run. simpl.
  rewrite CommMatches_false by (apply H; left; reflexivity).
  apply IH. intros q Hq. apply H. right. exact Hq.
Qed.

Lemma stopScan_found env comm pre p post : forall i s,
  (forall q, In q pre -> Comm (heap s q) <> comm) ->
  Comm (heap s p) = comm ->
  stopScan env comm (pre ++ p :: post) i s
  = (i + Z.of_nat (List.length pre),
     set_log (log s ++ [mkLog Info "tracing stopped for [%s]"
                              [GetSelectorStr env (Done (heap s p))]])
       (set_heap (updHeap (heap s) p (Done (heap s p))) s)).
Proof.
  induction pre as [|x pre IH]; intros i s Hpre Hp.
  - simpl. rewrite bind_run. simpl.
    unfold CommMatches. rewrite Hp, String.eqb_refl.
    repeat (rewrite bind_run; simpl). rewrite updHeap_same.
    unfold ret. rewrite Z.add_0_r. reflexivity.
  - simpl app. simpl stopScan. rewrite bind_run. simpl fst. simpl snd.
    rewrite CommMatches_false by (apply Hpre; left; reflexivity).
    rewrite IH; [|intros q Hq; apply Hpre; right; exact Hq | exact Hp].
    f_equal. simpl List.length. lia.
Qed.

(** C5. StopActivityDump finalizes and removes exactly the first active dump
    whose Comm equals the target, keeps the other entries in their order,
    touches no other dump and returns success; when no active dump has the
    target Comm it returns the not-found error and the manager state is
    what it was. *)
Theorem stop_removes_first_match_or_fails (env : Env) (comm : string) :
  (forall s pre p post,
      activeDumps s = pre ++ p :: post ->
      (forall q, In q pre -> Comm (heap s q) <> comm) ->
      Comm (heap s p) = comm ->
      let r := StopActivityDump env comm s in
      fst r = (mkStoppedMsg "", None) /\
      activeDumps (snd r) = pre ++ post /\
      status (heap (snd r) p) = Closed /\
      (forall q, q <> p -> heap (snd r) q = heap s q)) /\
  (forall s,
      (forall q, In q (activeDumps s) -> Comm (heap s q) <> comm) ->
      StopActivityDump env comm s
      = ((mkStoppedMsg (Error (notFound comm)), Some (notFound comm)), s)).
Proof.
  split.
  - intros s pre p post Ha Hpre Hp. unfold StopActivityDump.
    rewrite bind_run. cbn [fst snd gets]. rewrite bind_run.
    rewrite Ha, (stopScan_found env comm pre p post 0 s Hpre Hp).
    cbn [fst snd].
    replace (0 <=? 0 + Z.of_nat (List.length pre)) with true
      by (symmetry; apply Z.leb_le; lia).
    rewrite bind_run. cbn [fst snd modify ret activeDumps set_activeDumps
                           set_log set_heap heap].
    rewrite Ha, Z.add_0_l, Nat2Z.id, removeAt_split, updHeap_same.
    repeat split. intros q Hq. apply updHeap_other, Hq.
  - intros s H. unfold StopActivityDump.
    rewrite bind_run. simpl fst. simpl snd. rewrite bind_run.
    rewrite (stopScan_miss env comm _ 0 s H). reflexivity.
Qed.

Lemma stop_removes_first_match_or_fails_witness :
  activeDumps (snd (StopActivityDump demoEnv "nginx" demoState)) = [0%nat] /\
  StopActivityDump demoEnv "curl" demoState
  = ((mkStoppedMsg (Error (notFound "curl")), Some (notFound "curl")),
     demoState).
Proof.
  destruct (stop_removes_first_match_or_fails demoEnv "nginx") as [Hhit _].
  destruct (stop_removes_first_match_or_fails demoEnv "curl") as [_ Hmiss].
  split.
  - destruct (Hhit demoState [0%nat] 1%nat []) as (_ & Ha & _).
    + reflexivity.
    + intros q [<-|[]]. discriminate.
    + reflexivity.
    + exact Ha.
  - apply Hmiss. intros q [<-|[<-|[]]]; discriminate.
Defined.

(** * Creating a dump *)

Lemma insert_returns_nil env p s : fst (insertActivityDump env p s) = None.
Proof.
  destruct (insert_cases env p s) as [E|[E1 E2]].
  - rewrite E. reflexivity.
  - rewrite (insert_fresh env p s E1 E2). reflexivity.
Qed.

Lemma NewActivityDump_run env options s :
  NewActivityDump env options s
  = ((next s,
      newDumpErr env (options (mkDump "" "" (now s) 0 false false Open []))),
     set_next (S (next s))
       (set_heap (updHeap (heap s) (next s)
                    (options (mkDump "" "" (now s) 0 false false Open []))) s)).
Proof.
  unfold NewActivityDump, timeNow.
  repeat (rewrite bind_run; cbn [fst snd gets modify ret]). reflexivity.
Qed.

Lemma DumpActivity_created env params s :
  newDumpErr env (requestedDump params s) = None ->
  let s1 := set_next (S (next s))
              (set_heap (updHeap (heap s) (next s) (requestedDump params s)) s) in
  let s2 := snd (insertActivityDump env (next s) s1) in
  DumpActivity env params s
  = ((ToSecurityActivityDumpMessage (heap s2 (next s)), None),
     set_log (log s2 ++ [tracingStarted (GetSelectorStr env (heap s2 (next s)))])
             s2).
Proof.
  intros Hnew s1 s2. unfold DumpActivity.
  rewrite bind_run, NewActivityDump_run. cbn [fst snd].
  change (mkDump _ _ _ _ _ _ _ _) with (requestedDump params s).
  rewrite Hnew. fold s1. rewrite bind_run.
  pose proof (insert_returns_nil env (next s) s1) as Hnil. fold s2.
  destruct (insertActivityDump env (next s) s1) as [[e|] s2'] eqn:E;
    [discriminate|].
  cbn [fst snd] in *. subst s2. cbn [snd].
  repeat (rewrite bind_run; cbn [fst snd gets modify ret deref logf]).
  reflexivity.
Qed.

Lemma HandleCgroupTracingEvent_created env event s :
  newDumpErr env (tracedCgroupDump env event s) = None ->
  let s1 := set_next (S (next s))
              (set_heap (updHeap (heap s) (next s)
                                 (tracedCgroupDump env event s)) s) in
  let s2 := snd (insertActivityDump env (next s) s1) in
  snd (HandleCgroupTracingEvent env event s)
  = set_log (log s2 ++ [tracingStarted (GetSelectorStr env (heap s2 (next s)))])
            s2.
Proof.
  intros Hnew s1 s2. unfold HandleCgroupTracingEvent, timeNow.
  rewrite bind_run. cbn [fst snd gets].
  rewrite bind_run, NewActivityDump_run. cbn [fst snd].
  change (mkDump _ _ _ _ _ _ _ _) with (tracedCgroupDump env event s).
  rewrite Hnew. fold s1. rewrite bind_run.
  pose proof (insert_returns_nil env (next s) s1) as Hnil. fold s2.
  destruct (insertActivityDump env (next s) s1) as [[e|] s2'] eqn:E;
    [discriminate|].
  cbn [fst snd] in *. subst s2. cbn [snd].
  repeat (rewrite bind_run; cbn [fst snd gets modify ret deref logf]).
  reflexivity.
Qed.

(** * C6 and C7: the filter store writes of an insert *)

Lemma mul_exact a b :
  minInt64 <= a * b <= maxInt64 -> time.mul a b = a * b.
Proof.
  unfold time.mul, wrap64, minInt64, maxInt64. intros H.
  rewrite Z.mod_small by lia. lia.
Qed.

Lemma pushFilters_run env p s :
  snd (pushFilters env p s)
  = snd (when (nonEmpty (Comm (heap s p))) (pushTracedComm env (heap s p))
          (snd (when (nonEmpty (ContainerID (heap s p)))
                     (pushWaitList env (heap s p)) s))).
Proof.
  unfold pushFilters. rewrite bind_run. cbn [fst snd deref gets].
  rewrite bind_run. reflexivity.
Qed.

Lemma pushWaitList_run env nd s :
  snd (pushWaitList env nd s)
  = match putErr env cgroups_wait_list (waitListKey env nd)
                 (waitListValue env s) with
    | Some e =>
        set_log (log s ++ [waitListFailure nd e])
          (set_calls (calls s ++ [CPut cgroups_wait_list (waitListKey env nd)
                                        (waitListValue env s)]) s)
    | None =>
        set_maps (fun n => if MapName_eqb n cgroups_wait_list
                           then upsert (waitListKey env nd)
                                       (waitListValue env s) (maps s n)
                           else maps s n)
          (set_calls (calls s ++ [CPut cgroups_wait_list (waitListKey env nd)
                                        (waitListValue env s)]) s)
    end.
Proof.
  unfold pushWaitList, Put, timeNow.
  repeat (rewrite bind_run; cbn [fst snd gets modify call ret]).
  unfold time.Add.
  change (KBytes (bytesOf (ContainerIDLen env) (ContainerID nd)))
    with (waitListKey env nd).
  cbn [config now set_calls].
  fold (waitListValue env s).
  destruct (putErr env cgroups_wait_list (waitListKey env nd)
                   (waitListValue env s)) as [e|].
  - reflexivity.
  - repeat (rewrite bind_run; cbn [fst snd gets modify call ret]).
    reflexivity.
Qed.

Lemma pushTracedComm_run env nd s :
  snd (pushTracedComm env nd s)
  = match putErr env traced_comms (commKey nd)
                 (GetTimeoutRawTimestamp env nd) with
    | Some e =>
        set_log (log s ++ [tracedCommFailure nd e])
          (set_calls (calls s ++ [CPut traced_comms (commKey nd)
                                        (GetTimeoutRawTimestamp env nd)]) s)
    | None =>
        set_maps (fun n => if MapName_eqb n traced_comms
                           then upsert (commKey nd)
                                       (GetTimeoutRawTimestamp env nd)
                                       (maps s n)
                           else maps s n)
          (set_calls (calls s ++ [CPut traced_comms (commKey nd)
                                        (GetTimeoutRawTimestamp env nd)]) s)
    end.
Proof.
  unfold pushTracedComm, Put, commKey.
  repeat (rewrite bind_run; cbn [fst snd gets modify call ret]).
  destruct (putErr env traced_comms _ _) as [e|].
  - reflexivity.
  - repeat (rewrite bind_run; cbn [fst snd gets modify call ret]).
    reflexivity.
Qed.

Lemma logged_ignores_log e : ignores_log (logged e).
Proof. intros s e' H. unfold logged. simpl. apply in_or_app. left. exact H. Qed.

Lemma logged_ignores_calls e : ignores_calls anyCall (logged e).
Proof. intros s c _ H. exact H. Qed.

Lemma logged_ignores_puts e : ignores_puts anyCall (logged e).
Proof. intros s m k v _ H. exact H. Qed.

Lemma logged_ignores_tree e : ignores_tree (logged e).
Proof. intros s p t H. exact H. Qed.

Lemma logged_seeded e env p s :
  logged e (snd (pushFilters env p s)) -> logged e (seeded env p s).
Proof.
  intros H. unfold seeded.
  apply (stable_Walk (logged e) anyCall);
    auto using logged_ignores_log, logged_ignores_calls, logged_ignores_puts,
               logged_ignores_tree.
Qed.

(** C6. For a non-conflicting insertion, whatever the filter store answers,
    the insert returns nil and appends the dump to the active registry; a
    failing wait-list Put and a failing traced-comms Put each leave their
    entry in the log. *)
Theorem insert_survives_filter_write_failures (env : Env)
        (s : ActivityDumpManager) (newDump : ptr) :
  containerIDActive s (heap s newDump) = false ->
  commActive s (heap s newDump) = false ->
  let nd := heap s newDump in
  let r := insertActivityDump env newDump s in
  fst r = None /\
  activeDumps (snd r) = activeDumps s ++ [newDump] /\
  (forall e,
      ContainerID nd <> ""%string ->
      putErr env cgroups_wait_list (waitListKey env nd) (waitListValue env s)
      = Some e ->
      In (waitListFailure nd e) (log (snd r))) /\
  (forall e,
      Comm nd <> ""%string ->
      putErr env traced_comms (commKey nd) (GetTimeoutRawTimestamp env nd)
      = Some e ->
      In (tracedCommFailure nd e) (log (snd r))).
Proof.
  intros H1 H2 nd r.
  destruct (insert_fresh_state env newDump s H1 H2) as (Ha & _ & _).
  destruct (insert_fresh_calls env newDump s H1 H2) as [_ Hl].
  subst r. rewrite Hl. split; [|split; [exact Ha|split]].
  - rewrite (insert_fresh env newDump s H1 H2). reflexivity.
  - intros e Hne Hput. apply logged_seeded. rewrite pushFilters_run.
    fold nd. apply nonEmpty_true in Hne. rewrite Hne. cbn [when].
    assert (Hw : logged (waitListFailure nd e) (snd (pushWaitList env nd s))).
    { rewrite pushWaitList_run, Hput. unfold logged. simpl.
      apply in_or_app. right. left. reflexivity. }
    revert Hw. generalize (snd (pushWaitList env nd s)).
    apply stable_when.
    apply (stable_pushTracedComm (logged (waitListFailure nd e)) anyCall);
      auto using logged_ignores_log, logged_ignores_calls, logged_ignores_puts.
  - intros e Hne Hput. apply logged_seeded. rewrite pushFilters_run.
    fold nd. apply nonEmpty_true in Hne. rewrite Hne. cbn [when].
    rewrite pushTracedComm_run, Hput. unfold logged. simpl.
    apply in_or_app. right. left. reflexivity.
Qed.

Lemma insert_survives_filter_write_failures_witness :
  (activeDumps (snd (insertActivityDump brokenMapsEnv 4%nat demoState))
   = [0%nat; 1%nat; 4%nat] /\
   In (waitListFailure (heap demoState 4%nat) (External "map full"))
      (log (snd (insertActivityDump brokenMapsEnv 4%nat demoState)))) /\
  (activeDumps (snd (insertActivityDump brokenMapsEnv 3%nat demoState))
   = [0%nat; 1%nat; 3%nat] /\
   In (tracedCommFailure (heap demoState 3%nat) (External "map full"))
      (log (snd (insertActivityDump brokenMapsEnv 3%nat demoState)))).
Proof.
  split.
  - destruct (insert_survives_filter_write_failures brokenMapsEnv demoState
                                                    4%nat)
      as (_ & Ha & Hw & _).
    + reflexivity.
    + reflexivity.
    + split; [exact Ha|]. apply Hw; [discriminate | reflexivity].
  - destruct (insert_survives_filter_write_failures brokenMapsEnv demoState
                                                    3%nat)
      as (_ & Ha & _ & Hc).
    + reflexivity.
    + reflexivity.
    + split; [exact Ha|]. apply Hc; [discriminate | reflexivity].
Defined.

Section WaitList.

Variable puts : list (Key * Z).
Variable content : EbpfMap.

Lemma waitListIs_ignores_calls :
  ignores_calls notWaitListPut (waitListIs puts content).
Proof.
  intros s c Hc [H1 H2]. split; [|exact H2]. simpl.
  unfold waitListPuts in *. rewrite flat_map_app, H1. simpl.
  destruct c as [[] k v| | | | | | |]; try discriminate; apply app_nil_r.
Qed.

Lemma waitListIs_ignores_puts :
  ignores_puts notWaitListPut (waitListIs puts content).
Proof.
  intros s m k v Hc [H1 H2]. split; [exact H1|].
  unfold cgroupsWaitListMap in *. simpl.
  destruct m; try discriminate; exact H2.
Qed.

Lemma waitListIs_ignores_log : ignores_log (waitListIs puts content).
Proof. intros s e H. exact H. Qed.

Lemma waitListIs_ignores_tree : ignores_tree (waitListIs puts content).
Proof. intros s p t H. exact H. Qed.

Lemma waitListIs_ignores_status : ignores_status (waitListIs puts content).
Proof. intros s p t H. exact H. Qed.

Lemma waitListIs_ignores_queue : ignores_queue (waitListIs puts content).
Proof. intros s q H. exact H. Qed.

Lemma waitListIs_ignores_fs : ignores_fs (waitListIs puts content).
Proof. intros s f H. exact H. Qed.

Lemma waitListIs_ignores_removal : ignores_removal (waitListIs puts content).
Proof. intros s i H. exact H. Qed.

(** After the wait-list write, nothing in an insert touches the wait
    list. *)
Lemma waitListIs_insert_fresh env p s :
  containerIDActive s (heap s p) = false ->
  commActive s (heap s p) = false ->
  waitListIs puts content
    (snd (when (nonEmpty (ContainerID (heap s p)))
               (pushWaitList env (heap s p)) s)) ->
  waitListIs puts content (snd (insertActivityDump env p s)).
Proof.
  intros H1 H2 H. rewrite (insert_fresh env p s H1 H2). cbn [snd].
  change (waitListIs puts content (snd (trySend p (seeded env p s)))).
  apply (stable_trySend (waitListIs puts content));
    [apply waitListIs_ignores_queue|].
  unfold seeded.
  apply (stable_Walk (waitListIs puts content) notWaitListPut);
    auto using waitListIs_ignores_calls, waitListIs_ignores_puts,
               waitListIs_ignores_log, waitListIs_ignores_tree.
  rewrite pushFilters_run. revert H. generalize (snd (when (nonEmpty (ContainerID (heap s p)))
               (pushWaitList env (heap s p)) s)).
  apply stable_when.
  apply (stable_pushTracedComm (waitListIs puts content) notWaitListPut);
    auto using waitListIs_ignores_calls, waitListIs_ignores_puts,
               waitListIs_ignores_log.
Qed.

Lemma waitListIs_step env o s :
  createsDump o = false ->
  waitListIs puts content s -> waitListIs puts content (step env o s).
Proof.
  intros Ho H. destruct o; try discriminate; cbv [step].
  - apply (stable_ListActivityDumps (waitListIs puts content)), H.
  - apply (stable_StopActivityDump (waitListIs puts content));
      auto using waitListIs_ignores_log, waitListIs_ignores_status,
                 waitListIs_ignores_removal.
  - apply (stable_ProcessEvent (waitListIs puts content) notWaitListPut);
      auto using waitListIs_ignores_calls.
  - apply (stable_cleanup (waitListIs puts content));
      auto using waitListIs_ignores_status, waitListIs_ignores_removal.
  - apply (stable_resolveTags (waitListIs puts content) notWaitListPut);
      auto using waitListIs_ignores_calls, waitListIs_ignores_log.
  - apply (stable_SendStats (waitListIs puts content) notWaitListPut);
      auto using waitListIs_ignores_calls, waitListIs_ignores_log.
  - apply (stable_takeSnapshot (waitListIs puts content) notWaitListPut);
      auto using waitListIs_ignores_calls, waitListIs_ignores_log,
                 waitListIs_ignores_queue.
  - apply (stable_GenerateProfile (waitListIs puts content));
      auto using waitListIs_ignores_fs.
Qed.

End WaitList.

(** A tracing event for a container that already has an active dump
    creates a dump and drops it: no filter is written, nothing is
    registered. *)
Lemma HandleCgroupTracingEvent_active env event s p :
  allocated s ->
  In p (activeDumps s) ->
  ContainerID (heap s p) = ContainerContextID event ->
  ContainerContextID event <> ""%string ->
  let s' := snd (HandleCgroupTracingEvent env event s) in
  calls s' = calls s /\ maps s' = maps s /\ activeDumps s' = activeDumps s.
Proof.
  intros Halloc Hin Hcid Hne s'. subst s'.
  destruct (newDumpErr env (tracedCgroupDump env event s)) as [e|] eqn:Hnew.
  - unfold HandleCgroupTracingEvent, timeNow.
    rewrite bind_run. cbn [fst snd gets].
    rewrite bind_run, NewActivityDump_run. cbn [fst snd].
    change (mkDump _ _ _ _ _ _ _ _) with (tracedCgroupDump env event s).
    rewrite Hnew.
    repeat (rewrite bind_run; cbn [fst snd gets modify ret deref logf]).
    repeat split.
  - rewrite (HandleCgroupTracingEvent_created env event s Hnew).
    set (s1 := set_next (S (next s))
                 (set_heap (updHeap (heap s) (next s)
                                    (tracedCgroupDump env event s)) s)).
    assert (Hp : (p < next s)%nat).
    { unfold allocated in Halloc. rewrite Forall_forall in Halloc.
      apply Halloc, Hin. }
    assert (Hdup : insertActivityDump env (next s) s1 = (None, s1)).
    { apply insert_conflict. left.
      apply (containerIDActive_true s1 _ p).
      - exact Hin.
      - unfold s1. cbn [heap set_next set_heap].
        rewrite updHeap_same, updHeap_other by lia. exact Hcid.
      - unfold s1. cbn [heap set_next set_heap]. rewrite updHeap_same.
        exact Hne. }
    rewrite Hdup. repeat split.
Qed.

(** C7. A registering insert of a dump with a non-empty ContainerID
    requests exactly one write on the cgroups wait list, for the
    container's key, with the value now + waitListSize x defaultTimeout
    (the product taken as Go takes it, on int64 durations; it is the exact
    product whenever that fits) in the kernel's clock, and the map holds
    it when the write succeeds.  An insert of a dump without ContainerID
    requests none; no operation other than the creation of a dump writes
    to the wait list, and a tracing event for a container whose dump is
    active writes nothing: the entry is never refreshed. *)
Theorem wait_list_written_once_at_insert (env : Env) :
  (forall s newDump,
      containerIDActive s (heap s newDump) = false ->
      commActive s (heap s newDump) = false ->
      ContainerID (heap s newDump) <> ""%string ->
      let nd := heap s newDump in
      let s' := snd (insertActivityDump env newDump s) in
      waitListPuts (calls s')
      = waitListPuts (calls s) ++ [(waitListKey env nd, waitListValue env s)] /\
      (putErr env cgroups_wait_list (waitListKey env nd) (waitListValue env s)
       = None ->
       cgroupsWaitListMap s'
       = upsert (waitListKey env nd) (waitListValue env s)
                (cgroupsWaitListMap s))) /\
  (forall s newDump,
      ContainerID (heap s newDump) = ""%string ->
      let s' := snd (insertActivityDump env newDump s) in
      waitListPuts (calls s') = waitListPuts (calls s) /\
      cgroupsWaitListMap s' = cgroupsWaitListMap s) /\
  (forall s o,
      createsDump o = false ->
      waitListPuts (calls (step env o s)) = waitListPuts (calls s) /\
      cgroupsWaitListMap (step env o s) = cgroupsWaitListMap s) /\
  (forall s event p,
      allocated s ->
      In p (activeDumps s) ->
      ContainerID (heap s p) = ContainerContextID event ->
      ContainerContextID event <> ""%string ->
      let s' := step env (OpHandleCgroupTracingEvent event) s in
      waitListPuts (calls s') = waitListPuts (calls s) /\
      cgroupsWaitListMap s' = cgroupsWaitListMap s) /\
  (forall s,
      let size := ActivityDumpCgroupsWaitListSize (config s) in
      let timeout := ActivityDumpDefaultDumpTimeout (config s) in
      waitListValue env s
      = ComputeMonotonicTimestamp env (now s + wrap64 (size * timeout)) /\
      (minInt64 <= size * timeout <= maxInt64 ->
       waitListValue env s
       = ComputeMonotonicTimestamp env (now s + size * timeout))).
Proof.
  split; [|split; [|split; [|split]]].
  - intros s newDump H1 H2 Hne nd s'.
    apply nonEmpty_true in Hne.
    assert (Hc : waitListPuts (calls (snd (pushWaitList env nd s)))
                 = waitListPuts (calls s)
                   ++ [(waitListKey env nd, waitListValue env s)]).
    { rewrite pushWaitList_run.
      destruct (putErr env cgroups_wait_list _ _); simpl;
        unfold waitListPuts; rewrite flat_map_app; reflexivity. }
    split.
    + eapply (waitListIs_insert_fresh _ _ env newDump s H1 H2).
      rewrite Hne. cbn [when]. split; [exact Hc | reflexivity].
    + intros Hput.
      eapply (waitListIs_insert_fresh _ _ env newDump s H1 H2).
      rewrite Hne. cbn [when]. split; [reflexivity|].
      fold nd. rewrite pushWaitList_run, Hput. reflexivity.
  - intros s newDump He s'. subst s'.
    destruct (insert_cases env newDump s) as [E|[E1 E2]].
    + rewrite E. split; reflexivity.
    + apply (waitListIs_insert_fresh _ _ env newDump s E1 E2).
      rewrite He. cbn [nonEmpty String.eqb negb when]. split; reflexivity.
  - intros s o Ho. apply (waitListIs_step _ _ env o s Ho). split; reflexivity.
  - intros s event p Halloc Hin Hcid Hne s'. subst s'. cbv [step].
    destruct (HandleCgroupTracingEvent_active env event s p Halloc Hin Hcid Hne)
      as (Hc & Hm & _).
    unfold cgroupsWaitListMap. rewrite Hc, Hm. split; reflexivity.
  - intros s size timeout. split; [reflexivity|].
    intros H. unfold waitListValue. fold size timeout.
    rewrite mul_exact by exact H. reflexivity.
Qed.

Lemma wait_list_written_once_at_insert_witness :
  waitListPuts (calls (snd (insertActivityDump demoEnv 4%nat demoState)))
  = [(waitListKey demoEnv (heap demoState 4%nat), 18000000000100)] /\
  cgroupsWaitListMap (snd (insertActivityDump demoEnv 4%nat demoState))
  = [(waitListKey demoEnv (heap demoState 4%nat), 18000000000100)] /\
  waitListPuts (calls (snd (insertActivityDump demoEnv 3%nat demoState))) = [] /\
  waitListPuts (calls (step demoEnv OpCleanup demoState)) = [] /\
  waitListPuts
    (calls (step demoEnv (OpHandleCgroupTracingEvent (mkCgroupEvent "c1" 500))
                 demoState)) = [] /\
  waitListValue demoEnv demoState = 100 + 10 * 1800000000000.
Proof.
  destruct (wait_list_written_once_at_insert demoEnv)
    as (Hcid & Hcomm & Hop & Hevent & Hval).
  destruct (Hcid demoState 4%nat) as [Hputs Hmap];
    [reflexivity | reflexivity | discriminate |].
  split; [exact Hputs|]. split; [apply Hmap; reflexivity|].
  split; [|split; [|split]].
  - destruct (Hcomm demoState 3%nat) as [H _]; [reflexivity | exact H].
  - destruct (Hop demoState OpCleanup) as [H _]; [reflexivity | exact H].
  - destruct (Hevent demoState (mkCgroupEvent "c1" 500) 0%nat) as [H _].
    + apply demoState_Inv.
    + left. reflexivity.
    + reflexivity.
    + discriminate.
    + exact H.
  - destruct (Hval demoState) as [_ H]. apply H.
    unfold minInt64, maxInt64. simpl. lia.
Defined.

(** * C8: statistics *)

Lemma set_calls_nil s : set_calls (calls s ++ []) s = s.
Proof. rewrite app_nil_r. destruct s; reflexivity. Qed.

Lemma set_calls_app c l s :
  set_calls (calls (set_calls (calls s ++ [c]) s) ++ l)
            (set_calls (calls s ++ [c]) s)
  = set_calls (calls s ++ c :: l) s.
Proof. simpl. rewrite <- app_assoc. reflexivity. Qed.

Lemma sendStatsLoop_ok env l : forall s,
  (forall q, In q l -> dumpSendStatsErr env q = None) ->
  sendStatsLoop env l s = (None, set_calls (calls s ++ map CDumpSendStats l) s).
Proof.
  induction l as [|p l IH]; intros s H.
  - simpl. rewrite set_calls_nil. reflexivity.
  - simpl. rewrite bind_run. cbn [fst snd call modify].
    rewrite (H p) by (left; reflexivity).
    rewrite IH by (intros q Hq; apply H; right; exact Hq).
    rewrite set_calls_app. reflexivity.
Qed.

Lemma sendStatsLoop_fails env pre p post e : forall s,
  (forall q, In q pre -> dumpSendStatsErr env q = None) ->
  dumpSendStatsErr env p = Some e ->
  sendStatsLoop env (pre ++ p :: post) s
  = (Some (statsFailure env (heap s p) e),
     set_calls (calls s ++ map CDumpSendStats (pre ++ [p])) s).
Proof.
  induction pre as [|x pre IH]; intros s Hpre Hp.
  - simpl. rewrite bind_run. cbn [fst snd call modify]. rewrite Hp.
    rewrite bind_run. reflexivity.
  - simpl. rewrite bind_run. cbn [fst snd call modify].
    rewrite (Hpre x) by (left; reflexivity).
    rewrite IH; [|intros q Hq; apply Hpre; right; exact Hq | exact Hp].
    rewrite set_calls_app. reflexivity.
Qed.

(** C8. SendStats asks the active dumps, in registry order, to emit their
    metrics.  At the first dump whose emission fails it returns that error,
    wrapped with the dump's selector: the later dumps are not asked and no
    gauge is emitted.  When every emission succeeds it emits the
    active-dump-count gauge and returns nil, whether the gauge went
    through or not; a failed gauge leaves one entry in the log. *)
Theorem send_stats_fails_fast_gauge_tolerated (env : Env)
        (s : ActivityDumpManager) :
  (forall pre p post e,
      activeDumps s = pre ++ p :: post ->
      (forall q, In q pre -> dumpSendStatsErr env q = None) ->
      dumpSendStatsErr env p = Some e ->
      SendStats env s
      = (Some (statsFailure env (heap s p) e),
         set_calls (calls s ++ map CDumpSendStats (pre ++ [p])) s)) /\
  ((forall q, In q (activeDumps s) -> dumpSendStatsErr env q = None) ->
   let n := Z.of_nat (List.length (activeDumps s)) in
   let gauge := CGauge (MetricActivityDumpActiveDumps env) n in
   fst (SendStats env s) = None /\
   calls (snd (SendStats env s))
   = calls s ++ map CDumpSendStats (activeDumps s) ++ [gauge] /\
   log (snd (SendStats env s))
   = log s ++ match gaugeErr env (MetricActivityDumpActiveDumps env) n with
              | Some e => [gaugeFailure e]
              | None => []
              end).
Proof.
  split.
  - intros pre p post e Ha Hpre Hp. unfold SendStats.
    rewrite bind_run. cbn [fst snd gets]. rewrite bind_run.
    rewrite Ha, (sendStatsLoop_fails env pre p post e s Hpre Hp).
    reflexivity.
  - intros H n gauge. unfold SendStats.
    rewrite bind_run. cbn [fst snd gets]. rewrite bind_run.
    rewrite (sendStatsLoop_ok env _ s H). cbn [fst snd].
    repeat (rewrite bind_run; cbn [fst snd gets call modify set_calls
                                   activeDumps]).
    fold n.
    destruct (gaugeErr env (MetricActivityDumpActiveDumps env) n) as [e|];
      cbn; rewrite <- ?app_assoc, ?app_nil_r; repeat split.
Qed.

Lemma send_stats_fails_fast_gauge_tolerated_witness :
  (fst (SendStats demoEnv demoState) = None /\
   calls (snd (SendStats demoEnv demoState))
   = [CDumpSendStats 0%nat; CDumpSendStats 1%nat;
      CGauge (MetricActivityDumpActiveDumps demoEnv) 2]) /\
  SendStats brokenStatsEnv (set_activeDumps [0%nat; 1%nat; 3%nat] demoState)
  = (Some (statsFailure brokenStatsEnv (heap demoState 1%nat)
                        (External "statsd down")),
     set_calls [CDumpSendStats 0%nat; CDumpSendStats 1%nat]
               (set_activeDumps [0%nat; 1%nat; 3%nat] demoState)).
Proof.
  split.
  - destruct (send_stats_fails_fast_gauge_tolerated demoEnv demoState)
      as [_ Hok].
    destruct Hok as (Hr & Hc & _); [reflexivity|].
    split; [exact Hr | exact Hc].
  - destruct (send_stats_fails_fast_gauge_tolerated brokenStatsEnv
                (set_activeDumps [0%nat; 1%nat; 3%nat] demoState))
      as [Hfail _].
    apply (Hfail [0%nat] 1%nat [3%nat] (External "statsd down")).
    + reflexivity.
    + intros q [<-|[]]. reflexivity.
    + reflexivity.
Defined.

(** * C9: profile generation *)

Lemma fsLookup_fsUpdate path f files :
  fsLookup path (fsUpdate path f files) = Some f.
Proof.
  induction files as [|[p g] files IH]; simpl.
  - rewrite String.eqb_refl. reflexivity.
  - destruct (String.eqb p path) eqn:E; simpl; rewrite E; [reflexivity|exact IH].
Qed.

Lemma fsUpdate_twice path f g files :
  fsUpdate path g (fsUpdate path f files) = fsUpdate path g files.
Proof.
  induction files as [|[p h] files IH]; simpl.
  - rewrite String.eqb_refl. reflexivity.
  - destruct (String.eqb p path) eqn:E; simpl; rewrite E; [reflexivity|].
    rewrite IH. reflexivity.
Qed.


Lemma GenerateProfile_succeeds env path s f dump :
  stepsSucceed env path s f dump ->
  GenerateProfile env path s
  = ((mkProfileMsg (profileName env s) "", None),
     set_fs (fsUpdate (profileName env s)
               (mkFile (renderProfile (GenerateProfileData env dump))
                       ownerReadOnly) (fs s)) s).
Proof.
  intros (Ho & Hf & Hr & Hj & Ht & Hn & Hc & He).
  unfold GenerateProfile, osOpen, ReadAll, TempFile, Chmod, Execute.
  rewrite bind_run. cbn [fst snd gets]. rewrite Ho, Hf, Hr, Hj.
  rewrite bind_run. rewrite bind_run. cbn [fst snd gets].
  fold (profileName env s). rewrite Ht, Hn.
  repeat (rewrite bind_run; cbn [fst snd gets modify ret set_fs fs]).
  rewrite Hc, fsLookup_fsUpdate.
  repeat (rewrite bind_run; cbn [fst snd gets modify ret set_fs fs]).
  rewrite He, fsLookup_fsUpdate.
  repeat (rewrite bind_run; cbn [fst snd gets modify ret set_fs fs data mode]).
  rewrite !fsUpdate_twice. reflexivity.
Qed.

Lemma GenerateProfile_cases env path s :
  (exists err msg,
      fst (GenerateProfile env path s)
      = (mkProfileMsg "" (Error (Errorf msg "" (Some err))),
         Some (Errorf msg "" (Some err)))) \/
  (exists f dump, stepsSucceed env path s f dump).
Proof.
  unfold stepsSucceed.
  destruct (openErr env path) as [e|] eqn:Ho.
  { left. exists e. eexists. unfold GenerateProfile, osOpen.
    rewrite bind_run. cbn [fst snd gets]. rewrite Ho. reflexivity. }
  destruct (fsLookup path (fs s)) as [f|] eqn:Hf.
  2:{ left. eexists. eexists. unfold GenerateProfile, osOpen.
      rewrite bind_run. cbn [fst snd gets]. rewrite Ho, Hf. reflexivity. }
  destruct (readErr env path) as [e|] eqn:Hr.
  { left. exists e. eexists. unfold GenerateProfile, osOpen, ReadAll.
    rewrite bind_run. cbn [fst snd gets]. rewrite Ho, Hf, Hr. reflexivity. }
  destruct (jsonUnmarshal env (data f)) as [e|dump] eqn:Hj.
  { left. exists e. eexists. unfold GenerateProfile, osOpen, ReadAll.
    rewrite bind_run. cbn [fst snd gets]. rewrite Ho, Hf, Hr, Hj.
    reflexivity. }
  destruct (tempFileErr env (profileName env s)) as [e|] eqn:Ht.
  { left. exists e. eexists. unfold GenerateProfile, osOpen, ReadAll, TempFile.
    rewrite bind_run. cbn [fst snd gets]. rewrite Ho, Hf, Hr, Hj.
    rewrite bind_run. rewrite bind_run. cbn [fst snd gets].
    fold (profileName env s). rewrite Ht. reflexivity. }
  destruct (fsLookup (profileName env s) (fs s)) as [g|] eqn:Hn.
  { left. eexists. eexists. unfold GenerateProfile, osOpen, ReadAll, TempFile.
    rewrite bind_run. cbn [fst snd gets]. rewrite Ho, Hf, Hr, Hj.
    rewrite bind_run. rewrite bind_run. cbn [fst snd gets].
    fold (profileName env s). rewrite Ht, Hn. reflexivity. }
  destruct (chmodErr env (profileName env s) 256) as [e|] eqn:Hc.
  { left. exists e. eexists.
    unfold GenerateProfile, osOpen, ReadAll, TempFile, Chmod.
    rewrite bind_run. cbn [fst snd gets]. rewrite Ho, Hf, Hr, Hj.
    rewrite bind_run. rewrite bind_run. cbn [fst snd gets].
    fold (profileName env s). rewrite Ht, Hn.
    repeat (rewrite bind_run; cbn [fst snd gets modify ret set_fs fs]).
    rewrite Hc. reflexivity. }
  destruct (executeErr env (profileName env s)) as [e|] eqn:He.
  { left. exists e. eexists.
    unfold GenerateProfile, osOpen, ReadAll, TempFile, Chmod, Execute.
    rewrite bind_run. cbn [fst snd gets]. rewrite Ho, Hf, Hr, Hj.
    rewrite bind_run. rewrite bind_run. cbn [fst snd gets].
    fold (profileName env s). rewrite Ht, Hn.
    repeat (rewrite bind_run; cbn [fst snd gets modify ret set_fs fs]).
    rewrite Hc, fsLookup_fsUpdate.
    repeat (rewrite bind_run; cbn [fst snd gets modify ret set_fs fs]).
    rewrite He, fsLookup_fsUpdate.
    repeat (rewrite bind_run; cbn [fst snd gets modify ret set_fs fs]).
    reflexivity. }
  right. exists f, dump. repeat split; first [assumption | reflexivity].
Qed.




(** The template renders the document. *)
Lemma string_app_assoc (a b c : string) :
  ((a ++ b) ++ c)%string = (a ++ (b ++ c))%string.
Proof.
  induction a as [|x a IH]; simpl; [reflexivity | rewrite IH; reflexivity].
Qed.

Lemma string_app_nil_r (a : string) : (a ++ "")%string = a.
Proof.
  induction a as [|x a IH]; simpl; [reflexivity | rewrite IH; reflexivity].
Qed.

Lemma concat_cons (x : string) (l : list string) :
  String.concat "" (x :: l) = (x ++ String.concat "" l)%string.
Proof.
  destruct l as [|y l]; simpl; [rewrite string_app_nil_r|]; reflexivity.
Qed.

Lemma unlines_cons (x : string) (l : list string) :
  unlines (x :: l) = (x ++ newline ++ unlines l)%string.
Proof.
  unfold unlines. cbn [map]. rewrite concat_cons, string_app_assoc.
  reflexivity.
Qed.

Lemma renderRules_lines (rules : list ProfileRule) :
  (String.concat "" (map renderRule rules) ++ nl)%string
  = (newline ++ unlines (flat_map ruleLines rules))%string.
Proof.
  induction rules as [|r rules IH].
  - reflexivity.
  - cbn [map flat_map ruleLines app].
    rewrite concat_cons, string_app_assoc, IH.
    rewrite !unlines_cons. unfold renderRule. change nl with newline.
    rewrite !string_app_assoc. reflexivity.
Qed.

Lemma renderProfile_document (p : ProfileData) :
  renderProfile p = profileDocument p.
Proof.
  unfold renderProfile, profileDocument. cbn [app].
  rewrite !unlines_cons, <- renderRules_lines. change nl with newline.
  rewrite !string_app_assoc. reflexivity.
Qed.



(** The document of a dump named N, with selector S and one rule. *)
Example renderProfile_one_rule :
  renderProfile (mkProfile "N" "S" [mkRule "id1" "expr1"])
  = ("---" ++ nl ++ "name: N" ++ nl ++ "selector:" ++ nl ++ "  - S" ++ nl
     ++ nl ++ "rules:" ++ nl ++ "  - id: id1" ++ nl
     ++ "    expression: expr1" ++ nl ++ nl)%string.
Proof. reflexivity. Qed.

(** * C10: insertion never fails *)

(** C10. insertActivityDump returns nil for every candidate, registered or
    ignored.  So once the dump is created, DumpActivity always answers with
    a metadata message and no error, and HandleCgroupTracingEvent always
    logs that tracing started: their insert-failure branches are never
    taken.  In particular a DumpActivity request for a non-empty Comm that
    an active dump already has answers with the metadata of the new dump
    and nil, while the registry is what it was and the new dump is not in
    it. *)
Theorem insert_never_fails_duplicate_request_succeeds (env : Env) :
  (forall s newDump, fst (insertActivityDump env newDump s) = None) /\
  (forall s params,
      newDumpErr env (requestedDump params s) = None ->
      exists d,
        fst (DumpActivity env params s)
        = (ToSecurityActivityDumpMessage d, None)) /\
  (forall s event,
      newDumpErr env (tracedCgroupDump env event s) = None ->
      exists l sel,
        log (snd (HandleCgroupTracingEvent env event s))
        = l ++ [tracingStarted sel]) /\
  (forall s params p,
      allocated s ->
      newDumpErr env (requestedDump params s) = None ->
      paramComm params <> ""%string ->
      In p (activeDumps s) ->
      Comm (heap s p) = paramComm params ->
      fst (DumpActivity env params s)
      = (ToSecurityActivityDumpMessage (requestedDump params s), None) /\
      activeDumps (snd (DumpActivity env params s)) = activeDumps s /\
      ~ In (next s) (activeDumps (snd (DumpActivity env params s)))).
Proof.
  split; [|split; [|split]].
  - intros s newDump. apply insert_returns_nil.
  - intros s params Hnew. eexists.
    rewrite (DumpActivity_created env params s Hnew). reflexivity.
  - intros s event Hnew. eexists. eexists.
    rewrite (HandleCgroupTracingEvent_created env event s Hnew). reflexivity.
  - intros s params p Halloc Hnew Hne Hin Hcomm.
    rewrite (DumpActivity_created env params s Hnew).
    set (s1 := set_next (S (next s))
                 (set_heap (updHeap (heap s) (next s) (requestedDump params s))
                           s)).
    assert (Hp : (p < next s)%nat).
    { unfold allocated in Halloc. rewrite Forall_forall in Halloc.
      apply Halloc, Hin. }
    assert (Hdup : insertActivityDump env (next s) s1 = (None, s1)).
    { apply insert_conflict. right.
      apply (commActive_true s1 _ p).
      - exact Hin.
      - unfold s1. cbn [heap set_next set_heap].
        rewrite updHeap_same, updHeap_other by lia. exact Hcomm.
      - unfold s1. cbn [heap set_next set_heap]. rewrite updHeap_same.
        exact Hne. }
    rewrite Hdup. cbn [fst snd activeDumps set_log].
    unfold s1. cbn [heap activeDumps set_next set_heap].
    rewrite updHeap_same. repeat split.
    intros Hin'. unfold allocated in Halloc. rewrite Forall_forall in Halloc.
    specialize (Halloc _ Hin'). lia.
Qed.

Lemma insert_never_fails_duplicate_request_succeeds_witness :
  fst (DumpActivity demoEnv (mkDumpParams "nginx" 1 false false) demoState)
  = (ToSecurityActivityDumpMessage
       (requestedDump (mkDumpParams "nginx" 1 false false) demoState), None) /\
  activeDumps
    (snd (DumpActivity demoEnv (mkDumpParams "nginx" 1 false false) demoState))
  = [0%nat; 1%nat] /\
  (exists d,
      fst (DumpActivity demoEnv (mkDumpParams "curl" 1 false false) demoState)
      = (ToSecurityActivityDumpMessage d, None)) /\
  (exists l sel,
      log (snd (HandleCgroupTracingEvent demoEnv (mkCgroupEvent "c2" 500)
                                         demoState))
      = l ++ [tracingStarted sel]).
Proof.
  destruct (insert_never_fails_duplicate_request_succeeds demoEnv)
    as (_ & Hdump & Hcgroup & Hdup).
  destruct (Hdup demoState (mkDumpParams "nginx" 1 false false) 1%nat)
    as (Hr & Ha & _).
  - repeat constructor.
  - reflexivity.
  - discriminate.
  - simpl. right. left. reflexivity.
  - reflexivity.
  - split; [exact Hr|]. split; [exact Ha|]. split.
    + apply Hdump. reflexivity.
    + apply Hcgroup. reflexivity.
Defined.

(** * More of the manager *)

(** ** Operations that create a dump, under a stable predicate *)

Section StableCreators.

Variable P : ActivityDumpManager -> Prop.
Variable env : Env.
Variable ok : Call -> bool.
Hypothesis Hcalls : ignores_calls ok P.
Hypothesis Hlog : ignores_log P.
Hypothesis Halloc : ignores_alloc P.
Hypothesis Hins : forall p, stable P (insertActivityDump env p).
Hypothesis Hclose : forall p, ok (CClose p) = true.

Lemma stable_NewActivityDump options : stable P (NewActivityDump env options).
Proof. intros s Hs. rewrite NewActivityDump_run. apply Halloc, Hs. Qed.

Lemma stable_HandleCgroupTracingEvent event :
  stable P (HandleCgroupTracingEvent env event).
Proof.
  unfold HandleCgroupTracingEvent, timeNow, deref.
  apply stable_bind; [apply stable_gets|]. intros t.
  apply stable_bind; [apply stable_NewActivityDump|]. intros [newDump [e|]].
  - apply stable_bind; [apply stable_gets|]. intros d.
    apply stable_logf, Hlog.
  - apply stable_bind; [apply Hins|]. intros err.
    apply stable_bind; [apply stable_gets|]. intros d.
    destruct err as [e|].
    + apply stable_bind; [apply (stable_call P ok Hcalls), Hclose|].
      intros _. apply stable_logf, Hlog.
    + apply stable_logf, Hlog.
Qed.

Lemma stable_DumpActivity params : stable P (DumpActivity env params).
Proof.
  unfold DumpActivity, deref.
  apply stable_bind; [apply stable_NewActivityDump|]. intros [newDump [e|]].
  - apply stable_bind; [apply (stable_call P ok Hcalls), Hclose|]. intros _.
    apply stable_bind; [apply stable_gets | intros; apply stable_ret].
  - apply stable_bind; [apply Hins|]. intros [e|].
    + apply stable_bind; [apply (stable_call P ok Hcalls), Hclose|]. intros _.
      apply stable_bind; [apply stable_gets | intros; apply stable_ret].
    + apply stable_bind; [apply stable_gets|]. intros d.
      apply stable_bind; [apply stable_logf, Hlog | intros; apply stable_ret].
Qed.

Hypothesis Hany : forall c, ok c = true.
Hypothesis Hfs : ignores_fs P.
Hypothesis Hstatus : ignores_status P.
Hypothesis Hremoval : ignores_removal P.
Hypothesis Htake : stable P (takeSnapshot env).

(** Every operation keeps the predicate. *)
Lemma stable_step o s : P s -> P (step env o s).
Proof.
  intros H. destruct o; cbv [step].
  - apply stable_HandleCgroupTracingEvent, H.
  - apply stable_DumpActivity, H.
  - apply (stable_ListActivityDumps P), H.
  - apply (stable_StopActivityDump P); assumption.
  - apply (stable_ProcessEvent P ok); auto.
  - apply (stable_cleanup P); assumption.
  - apply (stable_resolveTags P ok); auto.
  - apply (stable_SendStats P ok); auto.
  - apply Htake, H.
  - apply (stable_GenerateProfile P); assumption.
Qed.

End StableCreators.

(** ** The snapshot queue *)

Lemma trySend_queue p s :
  snapshotQueue (snd (trySend p s))
  = if (List.length (snapshotQueue s) <? snapshotQueueCap)%nat
    then snapshotQueue s ++ [p] else snapshotQueue s.
Proof.
  unfold trySend. rewrite bind_run. cbn [fst snd gets].
  destruct (_ <? _)%nat; reflexivity.
Qed.

Lemma insert_fresh_queue env p s :
  containerIDActive s (heap s p) = false ->
  commActive s (heap s p) = false ->
  snapshotQueue (snd (insertActivityDump env p s))
  = if (List.length (snapshotQueue s) <? snapshotQueueCap)%nat
    then snapshotQueue s ++ [p] else snapshotQueue s.
Proof.
  intros H1 H2. rewrite (insert_fresh env p s H1 H2). cbn [snd].
  change (snapshotQueue (set_activeDumps ?l ?s)) with (snapshotQueue s).
  rewrite trySend_queue, seeded_snapshotQueue. reflexivity.
Qed.

Lemma queueBounded_insert env p : stable queueBounded (insertActivityDump env p).
Proof.
  intros s H. destruct (insert_cases env p s) as [E|[E1 E2]].
  - rewrite E. exact H.
  - unfold queueBounded in *. rewrite (insert_fresh_queue env p s E1 E2).
    destruct (_ <? _)%nat eqn:E; [|exact H].
    apply Nat.ltb_lt in E. rewrite length_app. simpl. lia.
Qed.

Lemma takeSnapshot_run env s :
  snd (takeSnapshot env s)
  = match snapshotQueue s with
    | [] => s
    | d :: q =>
        let s1 := set_calls (calls s ++ [CSnapshot d]) (set_snapshotQueue q s) in
        match snapshotErr env d with
        | Some e => set_log (log s ++ [snapshotFailure env (heap s d) e]) s1
        | None => s1
        end
    end.
Proof.
  unfold takeSnapshot. rewrite bind_run. cbn [fst snd gets].
  destruct (snapshotQueue s) as [|d q]; [reflexivity|].
  repeat (rewrite bind_run; cbn [fst snd gets modify call]).
  destruct (snapshotErr env d); [|reflexivity].
  repeat (rewrite bind_run; cbn [fst snd gets modify call deref logf]).
  reflexivity.
Qed.

Lemma queueBounded_takeSnapshot env : stable queueBounded (takeSnapshot env).
Proof.
  intros s H. rewrite takeSnapshot_run. unfold queueBounded in *.
  destruct (snapshotQueue s) as [|d q] eqn:E; [rewrite E; exact H|].
  destruct (snapshotErr env d); simpl in *; lia.
Qed.

Lemma StopActivityDump_found_run env comm s pre p post :
  activeDumps s = pre ++ p :: post ->
  (forall q, In q pre -> Comm (heap s q) <> comm) ->
  Comm (heap s p) = comm ->
  StopActivityDump env comm s
  = ((mkStoppedMsg "", None), stopped env s pre p post).
Proof.
  intros Ha Hpre Hp. unfold StopActivityDump.
  rewrite bind_run. cbn [fst snd gets]. rewrite bind_run.
  rewrite Ha, (stopScan_found env comm pre p post 0 s Hpre Hp).
  cbn [fst snd].
  replace (0 <=? 0 + Z.of_nat (List.length pre)) with true
    by (symmetry; apply Z.leb_le; lia).
  rewrite bind_run. cbn [fst snd modify ret activeDumps set_activeDumps
                         set_log set_heap heap].
  rewrite Ha, Z.add_0_l, Nat2Z.id, removeAt_split. reflexivity.
Qed.

Lemma StopActivityDump_miss_run env comm s :
  (forall q, In q (activeDumps s) -> Comm (heap s q) <> comm) ->
  StopActivityDump env comm s
  = ((mkStoppedMsg (Error (notFound comm)), Some (notFound comm)), s).
Proof.
  intros H. unfold StopActivityDump.
  rewrite bind_run. cbn [fst snd gets]. rewrite bind_run.
  rewrite (stopScan_miss env comm _ 0 s H). reflexivity.
Qed.

(** A list splits at its first element that satisfies a test, if any. *)
Lemma first_match_split {A} (f : A -> bool) (l : list A) :
  (forall x, In x l -> f x = false) \/
  (exists pre x post,
      l = pre ++ x :: post /\ (forall y, In y pre -> f y = false) /\ f x = true).
Proof.
  induction l as [|a l IH].
  - left. intros x [].
  - destruct (f a) eqn:E.
    + right. exists [], a, l. repeat split; [intros y []|exact E].
    + destruct IH as [IH|(pre & x & post & -> & Hpre & Hx)].
      * left. intros x [<-|Hin]; [exact E | apply IH, Hin].
      * right. exists (a :: pre), x, post. repeat split; [|exact Hx].
        intros y [<-|Hin]; [exact E | apply Hpre, Hin].
Qed.

(** A stop either misses, or stops the first dump of the given comm. *)
Lemma StopActivityDump_cases env comm s :
  StopActivityDump env comm s
  = ((mkStoppedMsg (Error (notFound comm)), Some (notFound comm)), s) \/
  (exists pre p post,
      activeDumps s = pre ++ p :: post /\
      (forall q, In q pre -> Comm (heap s q) <> comm) /\
      Comm (heap s p) = comm /\
      StopActivityDump env comm s
      = ((mkStoppedMsg "", None), stopped env s pre p post)).
Proof.
  destruct (first_match_split (fun q => String.eqb (Comm (heap s q)) comm)
                              (activeDumps s))
    as [H|(pre & p & post & Ha & Hpre & Hp)].
  - left. apply StopActivityDump_miss_run. intros q Hq.
    apply String.eqb_neq, H, Hq.
  - right. exists pre, p, post.
    assert (Hpre' : forall q, In q pre -> Comm (heap s q) <> comm)
      by (intros q Hq; apply String.eqb_neq, Hpre, Hq).
    apply String.eqb_eq in Hp.
    repeat split; try assumption.
    apply StopActivityDump_found_run; assumption.
Qed.

Lemma queueBounded_ignores_calls : ignores_calls anyCall queueBounded.
Proof. intros s c _ H. exact H. Qed.

Lemma queueBounded_ignores_log : ignores_log queueBounded.
Proof. intros s e H. exact H. Qed.

Lemma queueBounded_ignores_alloc : ignores_alloc queueBounded.
Proof. intros s d H. exact H. Qed.

Lemma queueBounded_ignores_fs : ignores_fs queueBounded.
Proof. intros s f H. exact H. Qed.

Lemma queueBounded_ignores_status : ignores_status queueBounded.
Proof. intros s p st H. exact H. Qed.

Lemma queueBounded_ignores_removal : ignores_removal queueBounded.
Proof. intros s i H. exact H. Qed.

Lemma stable_StartLoop P env schedule :
  stable P cleanup -> stable P (resolveTags env) ->
  stable P (takeSnapshot env) ->
  stable P (StartLoop env schedule).
Proof.
  intros Hc Hr Ht. induction schedule as [|[] rest IH]; simpl;
    try apply stable_ret;
    (apply stable_bind; [assumption | intros _; exact IH]).
Qed.

(** X1. The snapshot queue never holds more than its capacity: every
    operation of the manager, and the background loop on any schedule,
    keeps the bound. *)
Theorem snapshot_queue_stays_within_capacity (env : Env) :
  (forall s o, queueBounded s -> queueBounded (step env o s)) /\
  (forall s schedule,
      queueBounded s -> queueBounded (snd (StartLoop env schedule s))).
Proof.
  split.
  - intros s o. apply (stable_step queueBounded env anyCall);
      auto using queueBounded_ignores_calls, queueBounded_ignores_log,
                 queueBounded_ignores_alloc, queueBounded_ignores_fs,
                 queueBounded_ignores_status, queueBounded_ignores_removal,
                 queueBounded_insert, queueBounded_takeSnapshot.
  - intros s schedule. apply stable_StartLoop.
    + apply (stable_cleanup queueBounded);
        auto using queueBounded_ignores_status, queueBounded_ignores_removal.
    + apply (stable_resolveTags queueBounded anyCall);
        auto using queueBounded_ignores_calls, queueBounded_ignores_log.
    + apply queueBounded_takeSnapshot.
Qed.

Lemma snapshot_queue_stays_within_capacity_witness :
  queueBounded (step demoEnv (OpDumpActivity (mkDumpParams "curl" 1 false false))
                     fullQueueState) /\
  queueBounded (snd (StartLoop demoEnv [SnapshotRecv; CleanupTick; CtxDone]
                               fullQueueState)).
Proof.
  destruct (snapshot_queue_stays_within_capacity demoEnv) as [Hstep Hloop].
  assert (H : queueBounded fullQueueState) by (vm_compute; apply le_n).
  split; [apply Hstep, H | apply Hloop, H].
Defined.

(** X2. With room in the snapshot queue, a non-conflicting insert puts the
    dump at the back of the queue and at the end of the registry. *)
Theorem insert_enqueues_snapshot_when_room (env : Env)
        (s : ActivityDumpManager) (newDump : ptr) :
  (List.length (snapshotQueue s) < snapshotQueueCap)%nat ->
  containerIDActive s (heap s newDump) = false ->
  commActive s (heap s newDump) = false ->
  snapshotQueue (snd (insertActivityDump env newDump s))
  = snapshotQueue s ++ [newDump] /\
  activeDumps (snd (insertActivityDump env newDump s))
  = activeDumps s ++ [newDump].
Proof.
  intros Hroom H1 H2. split.
  - rewrite (insert_fresh_queue env newDump s H1 H2).
    apply Nat.ltb_lt in Hroom. rewrite Hroom. reflexivity.
  - apply (insert_fresh_state env newDump s H1 H2).
Qed.

Lemma insert_enqueues_snapshot_when_room_witness :
  snapshotQueue (snd (insertActivityDump demoEnv 3%nat demoState)) = [3%nat] /\
  activeDumps (snd (insertActivityDump demoEnv 3%nat demoState))
  = [0%nat; 1%nat; 3%nat].
Proof.
  apply (insert_enqueues_snapshot_when_room demoEnv demoState 3%nat).
  - vm_compute. apply le_n_S, Nat.le_0_l.
  - reflexivity.
  - reflexivity.
Defined.

Lemma snapshotCalls_app cs cs' :
  snapshotCalls (cs ++ cs') = snapshotCalls cs ++ snapshotCalls cs'.
Proof. apply flat_map_app. Qed.

Lemma snapshotCalls_map q : snapshotCalls (map CSnapshot q) = q.
Proof.
  induction q as [|d q IH]; [reflexivity|]. simpl. rewrite IH. reflexivity.
Qed.

(** [n] receptions from the queue, one after the other. *)
Lemma drain_run env n : forall s,
  let s' := snd (StartLoop env (repeat SnapshotRecv n) s) in
  snapshotQueue s' = skipn n (snapshotQueue s) /\
  calls s' = calls s ++ map CSnapshot (firstn n (snapshotQueue s)) /\
  log s' = log s ++ snapshotFailures env (heap s) (firstn n (snapshotQueue s)) /\
  activeDumps s' = activeDumps s /\ heap s' = heap s.
Proof.
  induction n as [|n IH]; intros s; cbn [repeat StartLoop].
  - cbn. rewrite !app_nil_r. repeat split.
  - rewrite bind_run. cbn [fst].
    destruct (IH (snd (takeSnapshot env s))) as (Hq & Hc & Hl & Ha & Hh).
    cbn zeta. rewrite Hq, Hc, Hl, Ha, Hh. clear.
    rewrite takeSnapshot_run.
    destruct (snapshotQueue s) as [|d q] eqn:E.
    + rewrite E. destruct n; cbn; rewrite ?app_nil_r; repeat split.
    + cbn [firstn skipn map snapshotFailures flat_map].
      destruct (snapshotErr env d) as [e|];
        cbn [snapshotQueue calls log activeDumps heap set_log set_calls
             set_snapshotQueue app];
        rewrite <- ?app_assoc; repeat split.
Qed.

(** X3. The consumer of the background loop drains the snapshot queue in
    FIFO order: after as many receptions as the queue is long, the snapshot
    of every queued dump has been asked for, in queue order, and the queue
    is empty.  A failing snapshot is logged and the following ones are
    still asked for; the registry is as it was. *)
Theorem loop_drains_snapshot_queue_in_order (env : Env)
        (s : ActivityDumpManager) :
  let s' := snd (StartLoop env
                   (repeat SnapshotRecv (List.length (snapshotQueue s))) s) in
  snapshotQueue s' = [] /\
  snapshotCalls (calls s') = snapshotCalls (calls s) ++ snapshotQueue s /\
  log s' = log s ++ snapshotFailures env (heap s) (snapshotQueue s) /\
  activeDumps s' = activeDumps s.
Proof.
  destruct (drain_run env (List.length (snapshotQueue s)) s)
    as (Hq & Hc & Hl & Ha & Hh).
  cbn zeta. rewrite Hq, Hc, Hl, Ha, firstn_all, skipn_all.
  split; [reflexivity|]. split; [|repeat split].
  rewrite snapshotCalls_app, snapshotCalls_map. reflexivity.
Qed.

(** X4. Stopping a dump and cleaning up leave the snapshot queue as it
    is: a dump that is stopped while its snapshot is still queued has the
    snapshot run all the same, on the closed dump that is no longer in the
    registry. *)
Theorem stop_does_not_cancel_queued_snapshot (env : Env) :
  (forall s comm,
      snapshotQueue (snd (StopActivityDump env comm s)) = snapshotQueue s) /\
  (forall s, snapshotQueue (snd (cleanup s)) = snapshotQueue s) /\
  (forall s comm pre p post q,
      activeDumps s = pre ++ p :: post ->
      (forall d, In d pre -> Comm (heap s d) <> comm) ->
      Comm (heap s p) = comm ->
      snapshotQueue s = p :: q ->
      let s' := snd (takeSnapshot env (snd (StopActivityDump env comm s))) in
      snapshotCalls (calls s') = snapshotCalls (calls s) ++ [p] /\
      status (heap s' p) = Closed /\
      activeDumps s' = pre ++ post /\
      snapshotQueue s' = q).
Proof.
  split; [|split].
  - intros s comm.
    destruct (StopActivityDump_cases env comm s)
      as [E|(pre & p & post & _ & _ & _ & E)]; rewrite E; reflexivity.
  - intros s. rewrite cleanup_run. reflexivity.
  - intros s comm pre p post q Ha Hpre Hp Hq.
    rewrite (StopActivityDump_found_run env comm s pre p post Ha Hpre Hp).
    cbn [snd]. rewrite takeSnapshot_run.
    unfold stopped.
    cbn [snapshotQueue set_activeDumps set_log set_heap]. rewrite Hq.
    destruct (snapshotErr env p);
      cbn [calls heap activeDumps snapshotQueue set_log set_calls
           set_snapshotQueue set_activeDumps set_heap];
      rewrite snapshotCalls_app, updHeap_same; repeat split.
Qed.

Lemma stop_does_not_cancel_queued_snapshot_witness :
  snapshotCalls
    (calls (snd (takeSnapshot demoEnv
                   (snd (StopActivityDump demoEnv "nginx"
                           (set_snapshotQueue [1%nat] demoState))))))
  = [1%nat] /\
  status (heap (snd (takeSnapshot demoEnv
                       (snd (StopActivityDump demoEnv "nginx"
                               (set_snapshotQueue [1%nat] demoState)))))
               1%nat) = Closed.
Proof.
  destruct (stop_does_not_cancel_queued_snapshot demoEnv) as (_ & _ & H).
  destruct (H (set_snapshotQueue [1%nat] demoState) "nginx"%string
              [0%nat] 1%nat [] [])
    as (Hc & Hs & _).
  - reflexivity.
  - intros d [<-|[]]. discriminate.
  - reflexivity.
  - reflexivity.
  - split; [exact Hc | exact Hs].
Defined.

(** ** Creating a dump: the two outcomes *)

Lemma DumpActivity_creation_fails env params s e :
  newDumpErr env (requestedDump params s) = Some e ->
  DumpActivity env params s
  = ((mkDumpMsg None (Error (startError env (requestedDump params s) e)),
      Some (startError env (requestedDump params s) e)),
     set_calls (calls s ++ [CClose (next s)])
               (withNewDump (requestedDump params s) s)).
Proof.
  intros Hnew. unfold DumpActivity.
  rewrite bind_run, NewActivityDump_run. cbn [fst snd].
  change (mkDumpMsg None) with (mkDumpMsg None).
  change (mkDump (ContainerID _) _ _ _ _ _ _ _)
    with (requestedDump params s).
  rewrite Hnew.
  repeat (rewrite bind_run; cbn [fst snd gets modify ret deref call]).
  cbn [heap set_next set_heap set_calls]. rewrite updHeap_same. reflexivity.
Qed.

Lemma HandleCgroupTracingEvent_creation_fails env event s e :
  newDumpErr env (tracedCgroupDump env event s) = Some e ->
  snd (HandleCgroupTracingEvent env event s)
  = set_log (log s ++ [startFailure env (tracedCgroupDump env event s) e])
            (withNewDump (tracedCgroupDump env event s) s).
Proof.
  intros Hnew. unfold HandleCgroupTracingEvent, timeNow.
  rewrite bind_run. cbn [fst snd gets].
  rewrite bind_run, NewActivityDump_run. cbn [fst snd].
  change (mkDump _ _ _ _ _ _ _ _) with (tracedCgroupDump env event s).
  rewrite Hnew.
  repeat (rewrite bind_run; cbn [fst snd gets modify ret deref logf]).
  cbn [heap set_next set_heap]. rewrite updHeap_same. reflexivity.
Qed.

(** ** Active dumps are open *)

Lemma Live_withNewDump d s : Live s -> Live (withNewDump d s).
Proof.
  intros (Ha & Hn & Ho). unfold Live, allocated, withNewDump in *.
  cbn [activeDumps next heap set_next set_heap].
  rewrite Forall_forall in Ha. rewrite Forall_forall in Ho.
  split; [|split].
  - apply Forall_forall. intros p Hp. specialize (Ha p Hp). lia.
  - exact Hn.
  - apply Forall_forall. intros p Hp.
    rewrite updHeap_other; [apply Ho, Hp|]. specialize (Ha p Hp). lia.
Qed.

Lemma Live_insert_new env d s :
  Live s -> status d = Open ->
  Live (snd (insertActivityDump env (next s) (withNewDump d s))).
Proof.
  intros H Hd. pose proof (Live_withNewDump d s H) as H1.
  destruct (insert_cases env (next s) (withNewDump d s)) as [E|[E1 E2]].
  - rewrite E. exact H1.
  - destruct (insert_fresh_state env _ _ E1 E2) as (Ha & Hn & Hf).
    destruct H as (Halloc & _ & _). destruct H1 as (Ha1 & Hn1 & Ho1).
    unfold Live, allocated in *. rewrite Ha, Hn.
    cbn [activeDumps next withNewDump set_next set_heap] in *.
    rewrite Forall_forall in Halloc. rewrite Forall_forall in Ha1.
    rewrite Forall_forall in Ho1.
    split; [|split].
    + apply Forall_forall. intros p Hp.
      apply in_app_or in Hp. destruct Hp as [Hp|[<-|[]]].
      * apply Ha1, Hp.
      * lia.
    + apply NoDup_app; [exact Hn1 | repeat constructor; intros [] |].
      intros p Hp [<-|[]]. specialize (Halloc _ Hp). lia.
    + apply Forall_forall. intros p Hp.
      rewrite (Hf _ status) by reflexivity.
      apply in_app_or in Hp. destruct Hp as [Hp|[<-|[]]].
      * apply Ho1, Hp.
      * cbn [heap withNewDump set_next set_heap]. rewrite updHeap_same.
        exact Hd.
Qed.

Lemma Live_stopped env s pre p post :
  activeDumps s = pre ++ p :: post -> Live s -> Live (stopped env s pre p post).
Proof.
  intros E (Ha & Hn & Ho). unfold Live, allocated, stopped in *.
  cbn [activeDumps next heap set_activeDumps set_log set_heap].
  rewrite E in *.
  rewrite Forall_forall in Ha. rewrite Forall_forall in Ho.
  pose proof (NoDup_remove_2 _ _ _ Hn) as Hp.
  assert (Hsub : forall q, In q (pre ++ post) -> In q (pre ++ p :: post)).
  { intros q Hq. apply in_app_or in Hq. apply in_or_app.
    destruct Hq; [left | right; right]; assumption. }
  split; [|split].
  - apply Forall_forall. intros q Hq. apply Ha, Hsub, Hq.
  - apply NoDup_remove_1 in Hn. exact Hn.
  - apply Forall_forall. intros q Hq.
    rewrite updHeap_other; [apply Ho, Hsub, Hq|].
    intros ->. contradiction.
Qed.

Lemma Live_cleanup s : Live s -> Live (snd (cleanup s)).
Proof.
  intros (Ha & Hn & Ho). rewrite cleanup_run. unfold Live, allocated in *.
  cbn [activeDumps next heap set_activeDumps set_heap].
  rewrite Forall_forall in Ha. rewrite Forall_forall in Ho.
  split; [|split].
  - apply Forall_forall. intros p Hp. apply filter_In in Hp. apply Ha, Hp.
  - apply NoDup_filter, Hn.
  - apply Forall_forall. intros p Hp.
    apply filter_In in Hp. destruct Hp as [Hp He].
    rewrite closeAll_other; [apply Ho, Hp|].
    destruct (expired s p); [discriminate | reflexivity].
Qed.

Lemma Live_step env o s : Live s -> Live (step env o s).
Proof.
  intros H. destruct o; cbv [step].
  - destruct (newDumpErr env (tracedCgroupDump env event s)) as [e|] eqn:Hnew.
    + rewrite (HandleCgroupTracingEvent_creation_fails env event s e Hnew).
      apply (Live_withNewDump _ s H).
    + rewrite (HandleCgroupTracingEvent_created env event s Hnew).
      apply (Live_insert_new env _ s H). reflexivity.
  - destruct (newDumpErr env (requestedDump params s)) as [e|] eqn:Hnew.
    + rewrite (DumpActivity_creation_fails env params s e Hnew).
      apply (Live_withNewDump _ s H).
    + rewrite (DumpActivity_created env params s Hnew).
      apply (Live_insert_new env _ s H). reflexivity.
  - exact H.
  - destruct (StopActivityDump_cases env comm s)
      as [E|(pre & p & post & Ha & _ & _ & E)]; rewrite E; [exact H|].
    apply Live_stopped; assumption.
  - apply (stable_ProcessEvent Live anyCall); auto.
    intros s' c _ H'. exact H'.
  - apply Live_cleanup, H.
  - apply (stable_resolveTags Live anyCall); auto.
    + intros s' c _ H'. exact H'.
    + intros s' e H'. exact H'.
  - apply (stable_SendStats Live anyCall); auto.
    + intros s' c _ H'. exact H'.
    + intros s' e H'. exact H'.
  - rewrite takeSnapshot_run. destruct (snapshotQueue s); [exact H|].
    destruct (snapshotErr env p); exact H.
  - apply (stable_GenerateProfile Live); auto.
    intros s' f H'. exact H'.
Qed.

Lemma reachable_Live env s : reachable env s -> Live s.
Proof.
  induction 1 as [s H | s o _ IH | s s' _ IH (Ha & Hh & Hn & _)].
  - unfold Live, allocated. rewrite H. repeat split; constructor.
  - apply Live_step, IH.
  - unfold Live, allocated in *. rewrite Ha, Hh, Hn. exact IH.
Qed.

(** X5. The registry never holds a dump twice, and every dump it holds is
    open: a dump is finalized only as it leaves the registry, and a
    finalized dump is never registered again.  Every operation keeps this,
    so it holds in every state of a manager started with an empty
    registry. *)
Theorem active_dumps_are_open_and_distinct (env : Env) :
  (forall s o, Live s -> Live (step env o s)) /\
  (forall s,
      reachable env s ->
      NoDup (activeDumps s) /\
      (forall p, In p (activeDumps s) -> status (heap s p) = Open)).
Proof.
  split.
  - intros s o. apply Live_step.
  - intros s H. apply reachable_Live in H. destruct H as (_ & Hn & Ho).
    split; [exact Hn|]. rewrite Forall_forall in Ho. exact Ho.
Qed.

Lemma active_dumps_are_open_and_distinct_witness :
  Live (step demoEnv (OpStopActivityDump "nginx") demoState) /\
  NoDup (activeDumps
           (step demoEnv OpCleanup
              (step demoEnv (OpDumpActivity (mkDumpParams "curl" 1 false false))
                    (set_activeDumps [] demoState)))).
Proof.
  destruct (active_dumps_are_open_and_distinct demoEnv) as [Hstep Hreach].
  split.
  - apply Hstep. unfold Live. split; [apply demoState_Inv|].
    split; repeat constructor; simpl; intuition discriminate.
  - apply Hreach. apply reach_step, reach_step, reach_start. reflexivity.
Defined.

(** ** Stopping, again *)

Lemma no_other_dump_has_comm s comm pre p post :
  I2 s ->
  comm <> ""%string ->
  activeDumps s = pre ++ p :: post ->
  (forall q, In q pre -> Comm (heap s q) <> comm) ->
  Comm (heap s p) = comm ->
  forall q, In q (pre ++ post) -> q <> p /\ Comm (heap s q) <> comm.
Proof.
  intros HI Hne Ha Hpre Hp q Hq.
  apply in_app_or in Hq. destruct Hq as [Hq|Hq].
  - split; [|apply Hpre, Hq]. intros ->. apply (Hpre p Hq), Hp.
  - apply in_split in Hq. destruct Hq as (between & post' & ->).
    assert (Hq : Comm (heap s p) <> Comm (heap s q)).
    { apply (keys_NoDup_at_most_one Comm s pre p between q post' HI Ha).
      rewrite Hp. exact Hne. }
    split; [intros ->; apply Hq; reflexivity | congruence].
Qed.

(** X6. With at most one active dump per comm, a successful stop frees the
    comm: no active dump has it any more, a second stop of the same comm
    returns the not-found error and changes nothing, and a new dump for
    this comm does not conflict. *)
Theorem stop_frees_the_comm (env : Env) (s : ActivityDumpManager)
        (comm : string) (pre : list ptr) (p : ptr) (post : list ptr) :
  I2 s ->
  comm <> ""%string ->
  activeDumps s = pre ++ p :: post ->
  (forall q, In q pre -> Comm (heap s q) <> comm) ->
  Comm (heap s p) = comm ->
  let s1 := snd (StopActivityDump env comm s) in
  (forall q, In q (activeDumps s1) -> Comm (heap s1 q) <> comm) /\
  StopActivityDump env comm s1
  = ((mkStoppedMsg (Error (notFound comm)), Some (notFound comm)), s1) /\
  (forall d, Comm d = comm -> commActive s1 d = false).
Proof.
  intros HI Hne Ha Hpre Hp s1.
  assert (H1 : forall q, In q (activeDumps s1) -> Comm (heap s1 q) <> comm).
  { subst s1.
    rewrite (StopActivityDump_found_run env comm s pre p post Ha Hpre Hp).
    cbn [snd stopped activeDumps heap set_activeDumps set_log set_heap].
    intros q Hq.
    destruct (no_other_dump_has_comm s comm pre p post HI Hne Ha Hpre Hp q Hq)
      as [Hqp Hc].
    rewrite updHeap_other by exact Hqp. exact Hc. }
  split; [exact H1|]. split.
  - apply StopActivityDump_miss_run, H1.
  - intros d Hd. unfold commActive.
    destruct (nonEmpty (Comm d)); [|reflexivity]. cbn [andb].
    destruct (existsb _ _) eqn:E; [|reflexivity].
    apply existsb_exists in E. destruct E as (q & Hq & E).
    apply String.eqb_eq in E. exfalso. apply (H1 q Hq). congruence.
Qed.

Lemma stop_frees_the_comm_witness :
  StopActivityDump demoEnv "nginx"
                   (snd (StopActivityDump demoEnv "nginx" demoState))
  = ((mkStoppedMsg (Error (notFound "nginx")), Some (notFound "nginx")),
     snd (StopActivityDump demoEnv "nginx" demoState)).
Proof.
  apply (stop_frees_the_comm demoEnv demoState "nginx" [0%nat] 1%nat []).
  - apply demoState_Inv.
  - discriminate.
  - reflexivity.
  - intros q [<-|[]]. discriminate.
  - reflexivity.
Defined.

(** X7. An empty Comm is a target like any other for StopActivityDump: the
    request stops the first active dump that has no Comm, which is what a
    dump selected by its ContainerID is. *)
Theorem stop_with_empty_comm_stops_a_container_dump (env : Env)
        (s : ActivityDumpManager) (pre : list ptr) (p : ptr) (post : list ptr) :
  activeDumps s = pre ++ p :: post ->
  (forall q, In q pre -> Comm (heap s q) <> ""%string) ->
  ContainerID (heap s p) <> ""%string ->
  Comm (heap s p) = ""%string ->
  let r := StopActivityDump env "" s in
  fst r = (mkStoppedMsg "", None) /\
  activeDumps (snd r) = pre ++ post /\
  status (heap (snd r) p) = Closed /\
  ContainerID (heap (snd r) p) = ContainerID (heap s p).
Proof.
  intros Ha Hpre _ Hp r. subst r.
  rewrite (StopActivityDump_found_run env "" s pre p post Ha Hpre Hp).
  cbn [fst snd stopped activeDumps heap set_activeDumps set_log set_heap].
  rewrite updHeap_same. repeat split.
Qed.

Lemma stop_with_empty_comm_stops_a_container_dump_witness :
  activeDumps (snd (StopActivityDump demoEnv "" demoState)) = [1%nat] /\
  status (heap (snd (StopActivityDump demoEnv "" demoState)) 0%nat) = Closed.
Proof.
  destruct (stop_with_empty_comm_stops_a_container_dump
              demoEnv demoState [] 0%nat [1%nat]) as (_ & Ha & Hs & _).
  - reflexivity.
  - intros q [].
  - discriminate.
  - reflexivity.
  - split; [exact Ha | exact Hs].
Defined.

(** ** Starting a dump *)

Lemma allocated_not_next s p : allocated s -> In p (activeDumps s) -> p <> next s.
Proof.
  unfold allocated. rewrite Forall_forall. intros H Hp. specialize (H p Hp). lia.
Qed.

(** The conflict checks on the state with the new dump read the registered
    dumps as they were. *)
Lemma containerIDActive_withNewDump s d nd :
  allocated s ->
  containerIDActive (withNewDump d s) nd = containerIDActive s nd.
Proof.
  intros H. unfold containerIDActive, withNewDump.
  cbn [activeDumps heap set_next set_heap]. f_equal.
  unfold allocated in H. revert H.
  generalize (activeDumps s). intros l H.
  induction H as [|q l Hq Hl IH]; [reflexivity|].
  simpl. rewrite updHeap_other by lia. rewrite IH. reflexivity.
Qed.

Lemma commActive_withNewDump s d nd :
  allocated s ->
  commActive (withNewDump d s) nd = commActive s nd.
Proof.
  intros H. unfold commActive, withNewDump.
  cbn [activeDumps heap set_next set_heap]. f_equal.
  unfold allocated in H. revert H.
  generalize (activeDumps s). intros l H.
  induction H as [|q l Hq Hl IH]; [reflexivity|].
  simpl. rewrite updHeap_other by lia. rewrite IH. reflexivity.
Qed.

Lemma commActive_unknown s d :
  (forall q, In q (activeDumps s) -> Comm (heap s q) <> Comm d) ->
  commActive s d = false.
Proof.
  intros H. unfold commActive.
  destruct (nonEmpty (Comm d)); [|reflexivity]. cbn [andb].
  destruct (existsb _ _) eqn:E; [|reflexivity].
  apply existsb_exists in E. destruct E as (q & Hq & E).
  apply String.eqb_eq in E. exfalso. exact (H q Hq E).
Qed.

Lemma containerIDActive_unknown s d :
  (forall q, In q (activeDumps s) -> ContainerID (heap s q) <> ContainerID d) ->
  containerIDActive s d = false.
Proof.
  intros H. unfold containerIDActive.
  destruct (nonEmpty (ContainerID d)); [|reflexivity]. cbn [andb].
  destruct (existsb _ _) eqn:E; [|reflexivity].
  apply existsb_exists in E. destruct E as (q & Hq & E).
  apply String.eqb_eq in E. exfalso. exact (H q Hq E).
Qed.

(** A created dump that conflicts with no active dump is registered last,
    with the fields it was created with, its tree apart. *)
Lemma new_dump_registered env d s :
  allocated s ->
  containerIDActive s d = false ->
  commActive s d = false ->
  let s2 := snd (insertActivityDump env (next s) (withNewDump d s)) in
  activeDumps s2 = activeDumps s ++ [next s] /\
  next s2 = S (next s) /\
  (forall X (field : ActivityDump -> X),
      (forall t d', field (set_tree t d') = field d') ->
      field (heap s2 (next s)) = field d /\
      forall q, q <> next s -> field (heap s2 q) = field (heap s q)).
Proof.
  intros Halloc H1 H2 s2.
  assert (E1 : containerIDActive (withNewDump d s)
                                 (heap (withNewDump d s) (next s)) = false).
  { rewrite containerIDActive_withNewDump by exact Halloc.
    cbn [heap withNewDump set_next set_heap]. rewrite updHeap_same. exact H1. }
  assert (E2 : commActive (withNewDump d s)
                          (heap (withNewDump d s) (next s)) = false).
  { rewrite commActive_withNewDump by exact Halloc.
    cbn [heap withNewDump set_next set_heap]. rewrite updHeap_same. exact H2. }
  destruct (insert_fresh_state env _ _ E1 E2) as (Ha & Hn & Hf).
  subst s2. rewrite Ha, Hn. split; [reflexivity|]. split; [reflexivity|].
  intros X field Hfield. split.
  - rewrite (Hf X field Hfield). cbn [heap withNewDump set_next set_heap].
    rewrite updHeap_same. reflexivity.
  - intros q Hq. rewrite (Hf X field Hfield).
    cbn [heap withNewDump set_next set_heap].
    rewrite updHeap_other by exact Hq. reflexivity.
Qed.

Lemma wrap64_exact z : minInt64 <= z <= maxInt64 -> wrap64 z = z.
Proof.
  unfold wrap64, minInt64, maxInt64. intros H.
  rewrite Z.mod_small by lia. lia.
Qed.

(** X8. DumpActivity does not reject an empty Comm and never takes it for
    a duplicate: whatever the registry holds, a request without Comm whose
    dump can be created registers one more dump, without selector, and
    answers with its metadata. *)
Theorem dump_activity_without_comm_always_registers (env : Env)
        (s : ActivityDumpManager) (params : DumpActivityParams) :
  allocated s ->
  paramComm params = ""%string ->
  newDumpErr env (requestedDump params s) = None ->
  let r := DumpActivity env params s in
  activeDumps (snd r) = activeDumps s ++ [next s] /\
  ContainerID (heap (snd r) (next s)) = ""%string /\
  Comm (heap (snd r) (next s)) = ""%string /\
  fst r = (ToSecurityActivityDumpMessage (heap (snd r) (next s)), None).
Proof.
  intros Halloc Hcomm Hnew r. subst r.
  rewrite (DumpActivity_created env params s Hnew).
  fold (withNewDump (requestedDump params s) s).
  cbn [fst snd activeDumps heap set_log].
  destruct (new_dump_registered env (requestedDump params s) s Halloc)
    as (Ha & _ & Hf).
  - reflexivity.
  - unfold commActive. cbn [Comm requestedDump]. rewrite Hcomm. reflexivity.
  - rewrite Ha.
    destruct (Hf _ ContainerID) as [-> _]; [reflexivity|].
    destruct (Hf _ Comm) as [-> _]; [reflexivity|].
    repeat split. exact Hcomm.
Qed.

Lemma dump_activity_without_comm_always_registers_witness :
  activeDumps
    (snd (DumpActivity demoEnv (mkDumpParams "" 1 false false)
            (snd (DumpActivity demoEnv (mkDumpParams "" 1 false false)
                    demoState))))
  = [0%nat; 1%nat; 5%nat; 6%nat].
Proof.
  destruct (dump_activity_without_comm_always_registers demoEnv
              (snd (DumpActivity demoEnv (mkDumpParams "" 1 false false)
                      demoState))
              (mkDumpParams "" 1 false false)) as (Ha & _).
  - vm_compute. repeat constructor.
  - reflexivity.
  - reflexivity.
  - exact Ha.
Defined.

(** X9. A DumpActivity request for a comm that no active dump has, whose
    dump can be created, registers the dump last with Start the current
    time and Timeout the int64 product of the requested minutes and a
    minute: the exact product from 0 to 153722867 minutes, a wrapped one
    beyond.  The dump then stays through every cleanup up to Start + Timeout
    and is removed by the first cleanup after it. *)
Theorem dump_activity_registers_until_timeout (env : Env)
        (s : ActivityDumpManager) (params : DumpActivityParams) :
  allocated s ->
  (forall q, In q (activeDumps s) -> Comm (heap s q) <> paramComm params) ->
  newDumpErr env (requestedDump params s) = None ->
  let s1 := snd (DumpActivity env params s) in
  let timeout := wrap64 (paramTimeout params * 60000000000) in
  activeDumps s1 = activeDumps s ++ [next s] /\
  Comm (heap s1 (next s)) = paramComm params /\
  Start (heap s1 (next s)) = now s /\
  Timeout (heap s1 (next s)) = timeout /\
  (0 <= paramTimeout params <= maxTimeoutMinutes ->
   timeout = paramTimeout params * 60000000000) /\
  (forall t,
      In (next s) (activeDumps (snd (cleanup (set_now t s1))))
      <-> t <= now s + timeout).
Proof.
  intros Halloc Hfresh Hnew s1 timeout. subst s1.
  rewrite (DumpActivity_created env params s Hnew).
  fold (withNewDump (requestedDump params s) s).
  cbn [snd].
  destruct (new_dump_registered env (requestedDump params s) s Halloc)
    as (Ha & _ & Hf).
  - reflexivity.
  - apply commActive_unknown. exact Hfresh.
  - set (s2 := snd (insertActivityDump env (next s)
                      (withNewDump (requestedDump params s) s))) in *.
    destruct (Hf _ Comm) as [Hc _]; [reflexivity|].
    destruct (Hf _ Start) as [Hs _]; [reflexivity|].
    destruct (Hf _ Timeout) as [Ht _]; [reflexivity|].
    cbn [activeDumps heap set_log].
    split; [exact Ha|]. split; [exact Hc|]. split; [exact Hs|].
    split; [exact Ht|]. split.
    + intros Hrange. apply wrap64_exact.
      unfold minInt64, maxInt64, maxTimeoutMinutes in *. lia.
    + intros t. rewrite cleanup_run.
      cbn [activeDumps set_activeDumps set_heap set_now set_log].
      rewrite Ha, filter_In. unfold expired.
      cbn [now heap set_now set_log]. rewrite Hs, Ht.
      cbn [Start Timeout requestedDump]. unfold time.After, time.Add.
      fold timeout. split.
      * intros [_ H]. apply negb_true_iff, Z.ltb_ge in H.
        unfold time.mul, time.Minute in H. exact H.
      * intros H. split; [apply in_or_app; right; left; reflexivity|].
        apply negb_true_iff, Z.ltb_ge. exact H.
Qed.

Lemma dump_activity_registers_until_timeout_witness :
  let s1 := snd (DumpActivity demoEnv (mkDumpParams "curl" 1 false false)
                              demoState) in
  Timeout (heap s1 5%nat) = 60000000000 /\
  In 5%nat (activeDumps (snd (cleanup (set_now 60000000100 s1)))) /\
  ~ In 5%nat (activeDumps (snd (cleanup (set_now 60000000101 s1)))).
Proof.
  destruct (dump_activity_registers_until_timeout demoEnv demoState
              (mkDumpParams "curl" 1 false false))
    as (_ & _ & _ & Ht & _ & Hexp).
  - apply demoState_Inv.
  - intros q [<-|[<-|[]]]; discriminate.
  - reflexivity.
  - split; [exact Ht|]. split.
    + apply Hexp. vm_compute. discriminate.
    + intros H. apply Hexp in H. vm_compute in H. apply H. reflexivity.
Defined.

Lemma Sub_exact t u :
  minInt64 <= t - u <= maxInt64 -> time.Sub t u = t - u.
Proof. unfold time.Sub. lia. Qed.

(** X10. A tracing event for a container that has no active dump, whose
    dump can be created, registers last a dump for this container, with
    argument differentiation and graph switched on, started now, whose
    Timeout is what is left until the expiry of the event, resolved to
    wall-clock time.  When that fits a duration the dump stays through
    every cleanup up to the resolved expiry and is removed by the first
    cleanup after it. *)
Theorem cgroup_event_registers_until_expiry (env : Env)
        (s : ActivityDumpManager) (event : CgroupTracingEvent) :
  allocated s ->
  (forall q, In q (activeDumps s) ->
             ContainerID (heap s q) <> ContainerContextID event) ->
  newDumpErr env (tracedCgroupDump env event s) = None ->
  let s1 := snd (HandleCgroupTracingEvent env event s) in
  let expiry := ResolveMonotonicTimestamp env (TimeoutRaw event) in
  let d := heap s1 (next s) in
  activeDumps s1 = activeDumps s ++ [next s] /\
  (ContainerID d = ContainerContextID event /\ Comm d = ""%string /\
   DifferentiateArgs d = true /\ WithGraph d = true /\ status d = Open) /\
  (Start d = now s /\ Timeout d = time.Sub expiry (now s)) /\
  (minInt64 <= expiry - now s <= maxInt64 ->
   forall t,
     In (next s) (activeDumps (snd (cleanup (set_now t s1)))) <-> t <= expiry).
Proof.
  intros Halloc Hfresh Hnew s1 expiry d. subst d s1.
  rewrite (HandleCgroupTracingEvent_created env event s Hnew).
  fold (withNewDump (tracedCgroupDump env event s) s).
  destruct (new_dump_registered env (tracedCgroupDump env event s) s Halloc)
    as (Ha & _ & Hf).
  - apply containerIDActive_unknown. exact Hfresh.
  - reflexivity.
  - set (s2 := snd (insertActivityDump env (next s)
                      (withNewDump (tracedCgroupDump env event s) s))) in *.
    destruct (Hf _ ContainerID) as [Hc _]; [reflexivity|].
    destruct (Hf _ Comm) as [Hm _]; [reflexivity|].
    destruct (Hf _ DifferentiateArgs) as [Hd _]; [reflexivity|].
    destruct (Hf _ WithGraph) as [Hw _]; [reflexivity|].
    destruct (Hf _ status) as [Ho _]; [reflexivity|].
    destruct (Hf _ Start) as [Hs _]; [reflexivity|].
    destruct (Hf _ Timeout) as [Ht _]; [reflexivity|].
    cbn [activeDumps heap set_log].
    split; [exact Ha|]. split; [repeat split; assumption|].
    split; [split; assumption|].
    intros Hrange t. rewrite cleanup_run.
    cbn [activeDumps set_activeDumps set_heap set_now set_log].
    rewrite Ha, filter_In. unfold expired.
    cbn [now heap set_now set_log]. rewrite Hs, Ht.
    cbn [Start Timeout tracedCgroupDump]. fold expiry.
    rewrite (Sub_exact _ _ Hrange). unfold time.After, time.Add.
    replace (now s + (expiry - now s)) with expiry by lia. split.
    + intros [_ H]. apply negb_true_iff, Z.ltb_ge in H. exact H.
    + intros H. split; [apply in_or_app; right; left; reflexivity|].
      apply negb_true_iff, Z.ltb_ge. exact H.
Qed.

Lemma cgroup_event_registers_until_expiry_witness :
  let s1 := snd (HandleCgroupTracingEvent demoEnv (mkCgroupEvent "c9" 500)
                                          demoState) in
  activeDumps s1 = [0%nat; 1%nat; 5%nat] /\
  Timeout (heap s1 5%nat) = 400 /\
  In 5%nat (activeDumps (snd (cleanup (set_now 500 s1)))) /\
  ~ In 5%nat (activeDumps (snd (cleanup (set_now 501 s1)))).
Proof.
  destruct (cgroup_event_registers_until_expiry demoEnv demoState
              (mkCgroupEvent "c9" 500))
    as (Ha & _ & (_ & Ht) & Hexp).
  - apply demoState_Inv.
  - intros q [<-|[<-|[]]]; discriminate.
  - reflexivity.
  - split; [exact Ha|]. split; [exact Ht|].
    assert (Hr : minInt64 <= 500 - 100 <= maxInt64)
      by (unfold minInt64, maxInt64; lia).
    split.
    + apply (Hexp Hr). vm_compute. discriminate.
    + intros H. apply (Hexp Hr) in H. vm_compute in H. apply H. reflexivity.
Defined.

(** X11. When the dump cannot be created nothing is registered, queued or
    written to the filter store.  DumpActivity closes the dump and returns
    the failure, both in the message and as its error, under the text
    "couldn't start tracing [selector]: cause";
    HandleCgroupTracingEvent only logs it. *)
Theorem failed_creation_registers_nothing (env : Env)
        (s : ActivityDumpManager) :
  (forall params e,
      newDumpErr env (requestedDump params s) = Some e ->
      let r := DumpActivity env params s in
      let err := startError env (requestedDump params s) e in
      fst r = (mkDumpMsg None (Error err), Some err) /\
      Error err
      = ("couldn't start tracing ["
         ++ GetSelectorStr env (requestedDump params s) ++ "]: " ++ Error e)%string
      /\
      calls (snd r) = calls s ++ [CClose (next s)] /\
      log (snd r) = log s /\
      activeDumps (snd r) = activeDumps s /\
      snapshotQueue (snd r) = snapshotQueue s /\ maps (snd r) = maps s) /\
  (forall event e,
      newDumpErr env (tracedCgroupDump env event s) = Some e ->
      let s' := snd (HandleCgroupTracingEvent env event s) in
      log s' = log s ++ [startFailure env (tracedCgroupDump env event s) e] /\
      calls s' = calls s /\
      activeDumps s' = activeDumps s /\
      snapshotQueue s' = snapshotQueue s /\ maps s' = maps s).
Proof.
  split.
  - intros params e Hnew r err. subst r err.
    rewrite (DumpActivity_creation_fails env params s e Hnew).
    split; [reflexivity|]. split; [|repeat split].
    unfold startError. cbn [Error]. rewrite string_app_assoc. reflexivity.
  - intros event e Hnew s'. subst s'.
    rewrite (HandleCgroupTracingEvent_creation_fails env event s e Hnew).
    repeat split.
Qed.

Lemma failed_creation_registers_nothing_witness :
  activeDumps
    (snd (DumpActivity noDumpEnv (mkDumpParams "curl" 1 false false) demoState))
  = [0%nat; 1%nat] /\
  DumpError
    (fst (fst (DumpActivity noDumpEnv (mkDumpParams "curl" 1 false false)
                            demoState)))
  = "couldn't start tracing [comm:curl]: no space left on device"%string /\
  activeDumps
    (snd (HandleCgroupTracingEvent noDumpEnv (mkCgroupEvent "c9" 500) demoState))
  = [0%nat; 1%nat].
Proof.
  destruct (failed_creation_registers_nothing noDumpEnv demoState)
    as [Hdump Hevent].
  destruct (Hdump (mkDumpParams "curl" 1 false false)
                  (External "no space left on device") eq_refl)
    as (Hr & Htext & _ & _ & Ha & _).
  destruct (Hevent (mkCgroupEvent "c9" 500)
                   (External "no space left on device") eq_refl)
    as (_ & _ & Ha' & _).
  split; [exact Ha|]. split; [|exact Ha'].
  rewrite Hr. exact Htext.
Defined.

(** ** Walking over the registry *)

Lemma resolveTags_round env d s :
  let s1 := snd ((call (CResolveTags d) ;;
                  match resolveTagsErr env d with
                  | Some e => logf Warn
                      "couldn't resolve activity dump tags (will try again later): %v"
                      [Error e]
                  | None => ret tt
                  end) s) in
  calls s1 = calls s ++ [CResolveTags d] /\
  log s1 = log s ++ tagsFailures env [d].
Proof.
  cbn zeta. rewrite bind_run. cbn [fst snd call modify].
  unfold tagsFailures. cbn [flat_map].
  destruct (resolveTagsErr env d); cbn; rewrite ?app_nil_r; split; reflexivity.
Qed.

Lemma resolveTags_loop env l : forall s,
  let s' := snd (forEach l (fun dump =>
                   call (CResolveTags dump) ;;
                   match resolveTagsErr env dump with
                   | Some e => logf Warn
                       "couldn't resolve activity dump tags (will try again later): %v"
                       [Error e]
                   | None => ret tt
                   end) s) in
  calls s' = calls s ++ map CResolveTags l /\
  log s' = log s ++ tagsFailures env l.
Proof.
  induction l as [|d l IH]; intros s; cbn [forEach].
  - cbn. rewrite !app_nil_r. split; reflexivity.
  - rewrite bind_run. cbn zeta.
    destruct (resolveTags_round env d s) as [Hc1 Hl1]. cbn zeta in Hc1, Hl1.
    match goal with |- context [forEach l ?b (snd ?x)] =>
      destruct (IH (snd x)) as (Hc & Hl) end.
    cbn zeta in Hc, Hl. rewrite Hc, Hl, Hc1, Hl1.
    unfold tagsFailures. cbn [map flat_map].
    rewrite ?app_nil_r, <- ?app_assoc. split; reflexivity.
Qed.

(** X12. resolveTags asks every active dump, in registry order, to resolve
    its tags, whatever the earlier ones answered: a failure is logged as a
    warning and the loop goes on.  Nothing else changes. *)
Theorem resolve_tags_asks_every_dump (env : Env) (s : ActivityDumpManager) :
  let s' := snd (resolveTags env s) in
  calls s' = calls s ++ map CResolveTags (activeDumps s) /\
  log s' = log s ++ tagsFailures env (activeDumps s) /\
  activeDumps s' = activeDumps s /\ heap s' = heap s /\
  snapshotQueue s' = snapshotQueue s /\ maps s' = maps s.
Proof.
  cbn zeta. split; [|split].
  - unfold resolveTags. rewrite bind_run. cbn [fst snd gets].
    apply (resolveTags_loop env (activeDumps s) s).
  - unfold resolveTags. rewrite bind_run. cbn [fst snd gets].
    apply (resolveTags_loop env (activeDumps s) s).
  - repeat split.
    + apply (stable_resolveTags (fun s' => activeDumps s' = activeDumps s)
                                anyCall); try reflexivity;
        intros s' x; intros; assumption.
    + apply (stable_resolveTags (fun s' => heap s' = heap s) anyCall);
        try reflexivity; intros s' x; intros; assumption.
    + apply (stable_resolveTags (fun s' => snapshotQueue s' = snapshotQueue s)
                                anyCall); try reflexivity;
        intros s' x; intros; assumption.
    + apply (stable_resolveTags (fun s' => maps s' = maps s) anyCall);
        try reflexivity; intros s' x; intros; assumption.
Qed.

Lemma set_calls_twice c c' s : set_calls c (set_calls c' s) = set_calls c s.
Proof. reflexivity. Qed.

Lemma set_calls_same s : set_calls (calls s) s = s.
Proof. destruct s; reflexivity. Qed.

Lemma ProcessEvent_loop event l : forall s,
  let s' := snd (forEach l (fun d => call (CInsert d event)) s) in
  calls s' = calls s ++ map (fun d => CInsert d event) l /\
  set_calls (calls s) s' = s.
Proof.
  induction l as [|d l IH]; intros s; cbn [forEach].
  - cbn. rewrite app_nil_r. split; [reflexivity | apply set_calls_same].
  - rewrite bind_run. cbn [fst snd call modify].
    destruct (IH (set_calls (calls s ++ [CInsert d event]) s)) as [Hc Hs].
    cbn zeta in *. rewrite Hc. cbn [calls set_calls map].
    rewrite <- app_assoc. split; [reflexivity|].
    rewrite <- (set_calls_twice (calls s)
                  (calls (set_calls (calls s ++ [CInsert d event]) s))).
    rewrite Hs, set_calls_twice. apply set_calls_same.
Qed.

(** X13. ProcessEvent offers the event to every active dump exactly once,
    in registry order, and changes nothing else; with an empty registry it
    does nothing at all. *)
Theorem process_event_reaches_every_dump (event : Z)
        (s : ActivityDumpManager) :
  let s' := snd (ProcessEvent event s) in
  calls s' = calls s ++ map (fun d => CInsert d event) (activeDumps s) /\
  set_calls (calls s) s' = s /\
  (activeDumps s = [] -> s' = s).
Proof.
  unfold ProcessEvent. rewrite bind_run. cbn [fst snd gets].
  destruct (ProcessEvent_loop event (activeDumps s) s) as [Hc Hs].
  cbn zeta in *. split; [exact Hc|]. split; [exact Hs|].
  intros E. rewrite E. reflexivity.
Qed.

Lemma process_event_reaches_every_dump_witness :
  calls (snd (ProcessEvent 7 demoState)) = [CInsert 0%nat 7; CInsert 1%nat 7] /\
  snd (ProcessEvent 7 (set_activeDumps [] demoState))
  = set_activeDumps [] demoState.
Proof.
  destruct (process_event_reaches_every_dump 7 demoState) as (Hc & _ & _).
  destruct (process_event_reaches_every_dump 7 (set_activeDumps [] demoState))
    as (_ & _ & He).
  split; [exact Hc | apply He; reflexivity].
Defined.

(** ** Listing *)

(** The seeding of a dump changes the tree of this dump only. *)
Lemma stable_Walk_at P env ad :
  ignores_calls anyCall P -> ignores_log P -> ignores_puts anyCall P ->
  (forall s t,
      P s -> P (set_heap (updHeap (heap s) ad (set_tree t (heap s ad))) s)) ->
  stable P (Walk (SearchTracedProcessCacheEntryCallback env ad)).
Proof.
  intros Hc Hl Hm Ht. unfold Walk.
  apply stable_bind; [apply stable_gets|]. intros entries.
  apply stable_forEach. intros entry.
  unfold SearchTracedProcessCacheEntryCallback.
  apply stable_forEach. intros parent.
  apply stable_bind.
  - unfold FindOrCreateProcessActivityNode, deref.
    apply stable_bind; [apply (stable_call P anyCall Hc); reflexivity|].
    intros _. apply stable_bind; [apply stable_gets|]. intros d.
    destruct (Matches env d parent); [|apply stable_ret].
    apply stable_bind; [|intros; apply stable_ret].
    apply stable_when, stable_modify. intros s' Hs. apply Ht, Hs.
  - intros [pid|]; [|apply stable_ret].
    unfold UpdateTracedPidTimeout, deref.
    apply stable_bind; [apply stable_gets|]. intros d.
    apply stable_bind; [apply (stable_Put P anyCall); auto|].
    intros [e|]; [apply stable_logf, Hl | apply stable_ret].
Qed.

Lemma seeded_other env p s q : q <> p -> heap (seeded env p s) q = heap s q.
Proof.
  intros Hq. unfold seeded.
  set (P := fun s' : ActivityDumpManager => heap s' q = heap s q).
  assert (Hc : ignores_calls anyCall P) by (intros s' c _ H; exact H).
  assert (Hl : ignores_log P) by (intros s' e H; exact H).
  assert (Hm : ignores_puts anyCall P) by (intros s' m k v _ H; exact H).
  apply (stable_Walk_at P env p Hc Hl Hm).
  - intros s' t Hs. unfold P in *. cbn [heap set_heap].
    rewrite updHeap_other by exact Hq. exact Hs.
  - apply (stable_pushFilters P anyCall); auto. reflexivity.
Qed.

Lemma insert_fresh_other env p s q :
  containerIDActive s (heap s p) = false ->
  commActive s (heap s p) = false ->
  q <> p -> heap (snd (insertActivityDump env p s)) q = heap s q.
Proof.
  intros H1 H2 Hq. rewrite (insert_fresh env p s H1 H2). cbn [snd].
  change (heap (set_activeDumps ?l ?s)) with (heap s).
  rewrite (trySend_frame heap) by reflexivity. apply seeded_other, Hq.
Qed.

Lemma listing_eq s :
  listing s
  = map (fun p => ToSecurityActivityDumpMessage (heap s p)) (activeDumps s).
Proof. reflexivity. Qed.

(** X14. ListActivityDumps changes nothing, never fails and lists the
    active dumps in registration order: after a DumpActivity that registers
    its dump the listing is the former one followed by the new dump, and
    after a stop that finds its dump it is the former one without that
    dump. *)
Theorem listing_follows_registration_order (env : Env)
        (s : ActivityDumpManager) :
  ListActivityDumps s = ((listing s, None), s) /\
  (forall params,
      allocated s ->
      (forall q, In q (activeDumps s) -> Comm (heap s q) <> paramComm params) ->
      newDumpErr env (requestedDump params s) = None ->
      let s1 := snd (DumpActivity env params s) in
      listing s1
      = listing s ++ [ToSecurityActivityDumpMessage (heap s1 (next s))]) /\
  (forall comm pre p post,
      NoDup (activeDumps s) ->
      activeDumps s = pre ++ p :: post ->
      (forall q, In q pre -> Comm (heap s q) <> comm) ->
      Comm (heap s p) = comm ->
      listing (snd (StopActivityDump env comm s))
      = map (fun q => ToSecurityActivityDumpMessage (heap s q)) (pre ++ post)).
Proof.
  split; [|split].
  - unfold ListActivityDumps, listing, ListActivityDumps.
    rewrite !bind_run. reflexivity.
  - intros params Halloc Hfresh Hnew s1. subst s1.
    rewrite (DumpActivity_created env params s Hnew).
    fold (withNewDump (requestedDump params s) s). cbn [snd].
    rewrite !listing_eq. cbn [activeDumps heap set_log].
    destruct (new_dump_registered env (requestedDump params s) s Halloc)
      as (Ha & _ & _);
      [reflexivity | apply commActive_unknown; exact Hfresh |].
    rewrite Ha, map_app. cbn [map]. f_equal.
    apply map_ext_in. intros q Hq.
    assert (Hne : q <> next s) by (apply allocated_not_next; assumption).
    rewrite insert_fresh_other.
    + cbn [heap withNewDump set_next set_heap].
      rewrite updHeap_other by exact Hne. reflexivity.
    + rewrite containerIDActive_withNewDump by exact Halloc.
      cbn [heap withNewDump set_next set_heap]. rewrite updHeap_same.
      reflexivity.
    + rewrite commActive_withNewDump by exact Halloc.
      cbn [heap withNewDump set_next set_heap]. rewrite updHeap_same.
      apply commActive_unknown. exact Hfresh.
    + exact Hne.
  - intros comm pre p post Hn Ha Hpre Hp.
    rewrite (StopActivityDump_found_run env comm s pre p post Ha Hpre Hp).
    cbn [snd]. rewrite listing_eq.
    cbn [stopped activeDumps heap set_activeDumps set_log set_heap].
    apply map_ext_in. intros q Hq.
    rewrite updHeap_other; [reflexivity|]. intros ->.
    rewrite Ha in Hn. apply NoDup_remove_2 in Hn. contradiction.
Qed.

Lemma listing_follows_registration_order_witness :
  map (fun m => option_map Comm (Metadata m))
      (listing (snd (DumpActivity demoEnv (mkDumpParams "curl" 1 false false)
                                  demoState)))
  = [Some ""%string; Some "nginx"%string; Some "curl"%string] /\
  map (fun m => option_map ContainerID (Metadata m))
      (listing (snd (StopActivityDump demoEnv "nginx" demoState)))
  = [Some "c1"%string].
Proof.
  destruct (listing_follows_registration_order demoEnv demoState)
    as (_ & Hdump & Hstop).
  split.
  - rewrite (Hdump (mkDumpParams "curl" 1 false false)).
    + vm_compute. reflexivity.
    + apply demoState_Inv.
    + intros q [<-|[<-|[]]]; discriminate.
    + reflexivity.
  - rewrite (Hstop "nginx"%string [0%nat] 1%nat []).
    + reflexivity.
    + repeat constructor; simpl; intuition discriminate.
    + reflexivity.
    + intros q [<-|[]]. discriminate.
    + reflexivity.
Defined.

(** ** Cleanup, again *)

Lemma closeAll_field {X} (field : ActivityDump -> X) f l : forall h q,
  (forall d, field (Done d) = field d) ->
  field (closeAll f l h q) = field (h q).
Proof.
  induction l as [|p l IH]; intros h q Hf; simpl; [reflexivity|].
  rewrite IH by exact Hf. destruct (f p); [|reflexivity].
  apply (updHeap_field field). exact Hf.
Qed.

Lemma closeAll_none f l : forall h,
  (forall p, In p l -> f p = false) -> closeAll f l h = h.
Proof.
  induction l as [|p l IH]; intros h H; simpl; [reflexivity|].
  rewrite (H p) by (left; reflexivity).
  apply IH. intros q Hq. apply H. right. exact Hq.
Qed.

Lemma set_registry_same s :
  set_activeDumps (activeDumps s) (set_heap (heap s) s) = s.
Proof. destruct s; reflexivity. Qed.

Lemma cleanup_nothing_expired s :
  (forall p, In p (activeDumps s) -> expired s p = false) ->
  snd (cleanup s) = s.
Proof.
  intros H. rewrite cleanup_run, closeAll_none by exact H.
  replace (filter (fun p => negb (expired s p)) (activeDumps s))
    with (activeDumps s); [apply set_registry_same|].
  symmetry. apply forallb_filter_id. apply forallb_forall.
  intros p Hp. rewrite (H p Hp). reflexivity.
Qed.

Lemma expired_after_cleanup s p :
  expired (snd (cleanup s)) p = expired s p.
Proof.
  rewrite cleanup_run. unfold expired.
  cbn [now heap set_activeDumps set_heap].
  rewrite (closeAll_field Start), (closeAll_field Timeout); reflexivity.
Qed.

(** X15. After a cleanup no active dump is past its expiry, so a second
    cleanup at the same time changes nothing; and a cleanup that finds no
    dump past its expiry leaves the manager as it was. *)
Theorem cleanup_is_idempotent (s : ActivityDumpManager) :
  (forall p, In p (activeDumps (snd (cleanup s))) ->
             now s <= Start (heap s p) + Timeout (heap s p)) /\
  snd (cleanup (snd (cleanup s))) = snd (cleanup s) /\
  ((forall p, In p (activeDumps s) ->
              now s <= Start (heap s p) + Timeout (heap s p)) ->
   snd (cleanup s) = s).
Proof.
  assert (Hle : forall p,
             expired s p = false <->
             now s <= Start (heap s p) + Timeout (heap s p)).
  { intros p. unfold expired, time.After, time.Add. apply Z.ltb_ge. }
  assert (H1 : forall p, In p (activeDumps (snd (cleanup s))) ->
                         expired s p = false).
  { intros p Hp. rewrite cleanup_run in Hp.
    cbn [activeDumps set_activeDumps] in Hp. apply filter_In in Hp.
    destruct Hp as [_ Hp]. apply negb_true_iff in Hp. exact Hp. }
  split; [|split].
  - intros p Hp. apply Hle, H1, Hp.
  - apply cleanup_nothing_expired. intros p Hp.
    rewrite expired_after_cleanup. apply H1, Hp.
  - intros H. apply cleanup_nothing_expired. intros p Hp. apply Hle, H, Hp.
Qed.

Lemma cleanup_is_idempotent_witness :
  snd (cleanup demoState) = demoState.
Proof.
  destruct (cleanup_is_idempotent demoState) as (_ & _ & H).
  apply H. intros p [<-|[<-|[]]]; vm_compute; discriminate.
Defined.

(** ** The keys of the filter store *)

Lemma padBytes_length n : forall s, List.length (padBytes n s) = n.
Proof.
  induction n as [|n IH]; intros s; [reflexivity|].
  destruct s; simpl; rewrite IH; reflexivity.
Qed.

Lemma padBytes_prefix n : forall s t,
  (n <= List.length s)%nat -> padBytes n (s ++ t) = padBytes n s.
Proof.
  induction n as [|n IH]; intros s t H; [reflexivity|].
  destruct s as [|b s]; simpl in *; [lia|].
  rewrite IH by lia. reflexivity.
Qed.

Lemma padBytes_short n : forall s,
  (List.length s <= n)%nat ->
  padBytes n s = s ++ repeat x00 (n - List.length s).
Proof.
  induction n as [|n IH]; intros s H.
  - destruct s; [reflexivity | simpl in H; lia].
  - destruct s as [|b s]; simpl in *.
    + rewrite (IH []) by (simpl; lia). simpl. rewrite Nat.sub_0_r. reflexivity.
    + rewrite IH by lia. reflexivity.
Qed.

Lemma list_byte_of_string_app s t :
  list_byte_of_string (s ++ t) = list_byte_of_string s ++ list_byte_of_string t.
Proof.
  induction s as [|a s IH]; [reflexivity|].
  cbn. f_equal. exact IH.
Qed.

Lemma list_byte_of_string_length s :
  List.length (list_byte_of_string s) = String.length s.
Proof.
  induction s as [|a s IH]; [reflexivity|]. cbn. f_equal. exact IH.
Qed.

(** X16. The keys written to the filter store have a fixed width: the
    selector is cut at the width of the buffer and padded with zero bytes
    up to it.  So two comms that agree on their first 16 bytes, or two
    container IDs that agree on their first ContainerIDLen bytes, go to the
    same key. *)
Theorem filter_keys_are_cut_to_fixed_width (env : Env) :
  (forall n s, List.length (bytesOf n s) = n) /\
  (forall n s,
      (String.length s <= n)%nat ->
      bytesOf n s
      = list_byte_of_string s ++ repeat x00 (n - String.length s)) /\
  (forall n s t, (n <= String.length s)%nat -> bytesOf n (s ++ t) = bytesOf n s) /\
  (forall d1 d2 suffix,
      (16 <= String.length (Comm d1))%nat ->
      Comm d2 = (Comm d1 ++ suffix)%string ->
      commKey d1 = commKey d2) /\
  (forall d1 d2 suffix,
      (ContainerIDLen env <= String.length (ContainerID d1))%nat ->
      ContainerID d2 = (ContainerID d1 ++ suffix)%string ->
      waitListKey env d1 = waitListKey env d2).
Proof.
  assert (Hcut : forall n s t, (n <= String.length s)%nat ->
                               bytesOf n (s ++ t) = bytesOf n s).
  { intros n s t H. unfold bytesOf.
    rewrite list_byte_of_string_app. apply padBytes_prefix.
    rewrite list_byte_of_string_length. exact H. }
  split; [|split; [|split; [|split]]].
  - intros n s. apply padBytes_length.
  - intros n s H. unfold bytesOf.
    rewrite padBytes_short, list_byte_of_string_length;
      [reflexivity | rewrite list_byte_of_string_length; exact H].
  - exact Hcut.
  - intros d1 d2 suffix H E. unfold commKey. rewrite E, Hcut by exact H.
    reflexivity.
  - intros d1 d2 suffix H E. unfold waitListKey. rewrite E, Hcut by exact H.
    reflexivity.
Qed.

Lemma filter_keys_are_cut_to_fixed_width_witness :
  commKey (mkDump "" "0123456789abcdef-worker-1" 0 0 false false Open [])
  = commKey (mkDump "" "0123456789abcdef-worker-2" 0 0 false false Open []) /\
  bytesOf 6 "curl" = list_byte_of_string "curl" ++ [x00; x00].
Proof.
  destruct (filter_keys_are_cut_to_fixed_width demoEnv)
    as (_ & Hpad & _ & Hcomm & _).
  split.
  - rewrite <- (Hcomm (mkDump "" "0123456789abcdef" 0 0 false false Open [])
                      (mkDump "" "0123456789abcdef-worker-1" 0 0 false false
                              Open [])
                      "-worker-1"%string);
      [|vm_compute; apply le_n | reflexivity].
    apply (Hcomm _ _ "-worker-2"%string); [vm_compute; apply le_n | reflexivity].
  - apply (Hpad 6%nat "curl"%string). vm_compute. repeat constructor.
Defined.

(** ** The traced comms *)

Section TracedComms.

Variable puts : list (Key * Z).
Variable content : EbpfMap.

Lemma tracedCommsIs_ignores_calls :
  ignores_calls notTracedCommsPut (tracedCommsIs puts content).
Proof.
  intros s c Hc [H1 H2]. split; [|exact H2]. simpl.
  unfold tracedCommsPuts in *. rewrite flat_map_app, H1. simpl.
  destruct c as [[] k v| | | | | | |]; try discriminate; apply app_nil_r.
Qed.

Lemma tracedCommsIs_ignores_puts :
  ignores_puts notTracedCommsPut (tracedCommsIs puts content).
Proof.
  intros s m k v Hc [H1 H2]. split; [exact H1|].
  unfold tracedCommsMap in *. simpl.
  destruct m; try discriminate; exact H2.
Qed.

Lemma tracedCommsIs_ignores_log : ignores_log (tracedCommsIs puts content).
Proof. intros s e H. exact H. Qed.

Lemma tracedCommsIs_ignores_tree : ignores_tree (tracedCommsIs puts content).
Proof. intros s p t H. exact H. Qed.

Lemma tracedCommsIs_ignores_queue : ignores_queue (tracedCommsIs puts content).
Proof. intros s q H. exact H. Qed.

(** After the traced-comms write, nothing in an insert touches the map. *)
Lemma tracedCommsIs_insert_fresh env p s :
  containerIDActive s (heap s p) = false ->
  commActive s (heap s p) = false ->
  tracedCommsIs puts content (snd (pushFilters env p s)) ->
  tracedCommsIs puts content (snd (insertActivityDump env p s)).
Proof.
  intros H1 H2 H. rewrite (insert_fresh env p s H1 H2). cbn [snd].
  change (tracedCommsIs puts content (snd (trySend p (seeded env p s)))).
  apply (stable_trySend (tracedCommsIs puts content));
    [apply tracedCommsIs_ignores_queue|].
  unfold seeded.
  apply (stable_Walk (tracedCommsIs puts content) notTracedCommsPut);
    auto using tracedCommsIs_ignores_calls, tracedCommsIs_ignores_puts,
               tracedCommsIs_ignores_log, tracedCommsIs_ignores_tree.
Qed.

End TracedComms.

Lemma tracedCommsPuts_app cs cs' :
  tracedCommsPuts (cs ++ cs') = tracedCommsPuts cs ++ tracedCommsPuts cs'.
Proof. apply flat_map_app. Qed.

(** The wait-list write leaves traced_comms alone. *)
Lemma tracedCommsIs_after_waitList env s p :
  tracedCommsIs (tracedCommsPuts (calls s)) (tracedCommsMap s)
    (snd (when (nonEmpty (ContainerID (heap s p)))
               (pushWaitList env (heap s p)) s)).
Proof.
  apply stable_when; [|split; reflexivity].
  apply (stable_pushWaitList _ notTracedCommsPut);
    auto using tracedCommsIs_ignores_calls, tracedCommsIs_ignores_puts,
               tracedCommsIs_ignores_log.
Qed.

(** X17. A registering insert of a dump with a non-empty Comm requests
    exactly one write on traced_comms, under the comm's 16-byte key, of the
    dump's own timeout in the kernel's clock, and the map holds it when the
    write succeeds; an insert of a dump without Comm requests none. *)
Theorem traced_comm_written_once_at_insert (env : Env) :
  (forall s newDump,
      containerIDActive s (heap s newDump) = false ->
      commActive s (heap s newDump) = false ->
      Comm (heap s newDump) <> ""%string ->
      let nd := heap s newDump in
      let s' := snd (insertActivityDump env newDump s) in
      tracedCommsPuts (calls s')
      = tracedCommsPuts (calls s)
        ++ [(commKey nd, GetTimeoutRawTimestamp env nd)] /\
      (putErr env traced_comms (commKey nd) (GetTimeoutRawTimestamp env nd)
       = None ->
       tracedCommsMap s'
       = upsert (commKey nd) (GetTimeoutRawTimestamp env nd)
                (tracedCommsMap s))) /\
  (forall s newDump,
      Comm (heap s newDump) = ""%string ->
      let s' := snd (insertActivityDump env newDump s) in
      tracedCommsPuts (calls s') = tracedCommsPuts (calls s) /\
      tracedCommsMap s' = tracedCommsMap s).
Proof.
  split.
  - intros s newDump H1 H2 Hne nd s'. apply nonEmpty_true in Hne.
    change (nonEmpty (Comm nd) = true) in Hne.
    destruct (tracedCommsIs_after_waitList env s newDump) as [Hc0 Hm0].
    fold nd in Hc0, Hm0.
    set (s0 := snd (when (nonEmpty (ContainerID nd)) (pushWaitList env nd) s))
      in *.
    split.
    + eapply (tracedCommsIs_insert_fresh _ _ env newDump s H1 H2).
      rewrite pushFilters_run. fold nd. fold s0. rewrite Hne. cbn [when].
      rewrite pushTracedComm_run. split; [|reflexivity].
      destruct (putErr env traced_comms _ _);
        cbn [calls set_log set_calls set_maps];
        rewrite tracedCommsPuts_app, Hc0; reflexivity.
    + intros Hput.
      eapply (tracedCommsIs_insert_fresh _ _ env newDump s H1 H2).
      rewrite pushFilters_run. fold nd. fold s0. rewrite Hne. cbn [when].
      rewrite pushTracedComm_run, Hput. split; [reflexivity|].
      unfold tracedCommsMap in *. cbn [maps set_maps set_calls MapName_eqb].
      rewrite Hm0. reflexivity.
  - intros s newDump He s'. subst s'.
    destruct (insert_cases env newDump s) as [E|[E1 E2]].
    + rewrite E. split; reflexivity.
    + apply (tracedCommsIs_insert_fresh _ _ env newDump s E1 E2).
      rewrite pushFilters_run, He. cbn [nonEmpty String.eqb negb when].
      apply tracedCommsIs_after_waitList.
Qed.

Lemma traced_comm_written_once_at_insert_witness :
  tracedCommsPuts (calls (snd (insertActivityDump demoEnv 3%nat demoState)))
  = [(commKey (heap demoState 3%nat), 150)] /\
  tracedCommsMap (snd (insertActivityDump demoEnv 3%nat demoState))
  = [(commKey (heap demoState 3%nat), 150)] /\
  tracedCommsPuts (calls (snd (insertActivityDump demoEnv 4%nat demoState))) = [].
Proof.
  destruct (traced_comm_written_once_at_insert demoEnv) as [Hcomm Hnone].
  destruct (Hcomm demoState 3%nat) as [Hp Hm];
    [reflexivity | reflexivity | discriminate |].
  split; [exact Hp|]. split; [apply Hm; reflexivity|].
  destruct (Hnone demoState 4%nat) as [H _]; [reflexivity | exact H].
Defined.

(** ** Profile generation and the file system *)

Lemma fsLookup_fsUpdate_other path q f files :
  q <> path -> fsLookup q (fsUpdate path f files) = fsLookup q files.
Proof.
  intros Hq. induction files as [|[p g] files IH]; simpl.
  - destruct (String.eqb path q) eqn:E; [|reflexivity].
    apply String.eqb_eq in E. congruence.
  - destruct (String.eqb p path) eqn:E; simpl.
    + apply String.eqb_eq in E. subst p.
      destruct (String.eqb path q) eqn:E'; [|reflexivity].
      apply String.eqb_eq in E'. congruence.
    + destruct (String.eqb p q); [reflexivity | exact IH].
Qed.

(** Up to the creation of the profile file. *)
Lemma GenerateProfile_created env path s f dump :
  profileFileCreated env path s f dump ->
  GenerateProfile env path s
  = (err <- Chmod env (profileName env s) 256 ;;
     match err with
     | Some err =>
         failProfile "couldn't change the mode of the profile file" err
     | None =>
         err <- Execute env (profileName env s) (GenerateProfileData env dump) ;;
         match err with
         | Some err => failProfile "couldn't generate profile" err
         | None => ret (mkProfileMsg (profileName env s) "", None)
         end
     end)
      (set_fs (fsUpdate (profileName env s) (mkFile "" ownerReadWrite) (fs s)) s).
Proof.
  intros (Ho & Hf & Hr & Hj & Ht & Hn).
  unfold GenerateProfile, osOpen, ReadAll, TempFile.
  rewrite bind_run. cbn [fst snd gets]. rewrite Ho, Hf, Hr, Hj.
  rewrite bind_run. rewrite bind_run. cbn [fst snd gets].
  fold (profileName env s). rewrite Ht, Hn.
  rewrite bind_run. cbn [fst snd modify ret]. reflexivity.
Qed.

Lemma GenerateProfile_not_created env path s :
  (forall f dump, ~ profileFileCreated env path s f dump) ->
  snd (GenerateProfile env path s) = s.
Proof.
  intros H. unfold GenerateProfile, osOpen, ReadAll, TempFile, failProfile.
  rewrite bind_run. cbn [fst snd gets].
  destruct (openErr env path) as [e|] eqn:Ho; [reflexivity|].
  destruct (fsLookup path (fs s)) as [f|] eqn:Hf; [|reflexivity].
  destruct (readErr env path) as [e|] eqn:Hr; [reflexivity|].
  destruct (jsonUnmarshal env (data f)) as [e|dump] eqn:Hj; [reflexivity|].
  rewrite bind_run. rewrite bind_run. cbn [fst snd gets].
  fold (profileName env s).
  destruct (tempFileErr env (profileName env s)) as [e|] eqn:Ht;
    [reflexivity|].
  destruct (fsLookup (profileName env s) (fs s)) as [g|] eqn:Hn;
    [reflexivity|].
  exfalso. apply (H f dump). repeat split; assumption.
Qed.

Lemma GenerateProfile_chmod_fails env path s f dump e :
  profileFileCreated env path s f dump ->
  chmodErr env (profileName env s) 256 = Some e ->
  GenerateProfile env path s
  = ((mkProfileMsg ""
        (Error (profileError "couldn't change the mode of the profile file" e)),
      Some (profileError "couldn't change the mode of the profile file" e)),
     set_fs (fsUpdate (profileName env s) (mkFile "" ownerReadWrite) (fs s)) s).
Proof.
  intros Hc He. rewrite (GenerateProfile_created env path s f dump Hc).
  unfold Chmod. rewrite bind_run. rewrite bind_run.
  cbn [fst snd gets fs set_fs]. rewrite He. reflexivity.
Qed.

Lemma GenerateProfile_execute_fails env path s f dump e :
  profileFileCreated env path s f dump ->
  chmodErr env (profileName env s) 256 = None ->
  executeErr env (profileName env s) = Some e ->
  GenerateProfile env path s
  = ((mkProfileMsg "" (Error (profileError "couldn't generate profile" e)),
      Some (profileError "couldn't generate profile" e)),
     set_fs (fsUpdate (profileName env s)
               (mkFile (writtenPart env s dump) ownerReadOnly) (fs s)) s).
Proof.
  intros Hc Hm He. rewrite (GenerateProfile_created env path s f dump Hc).
  unfold Chmod, Execute. rewrite bind_run. rewrite bind_run.
  cbn [fst snd gets fs set_fs]. rewrite Hm, fsLookup_fsUpdate.
  repeat (rewrite bind_run; cbn [fst snd gets modify ret set_fs fs data]).
  rewrite He, fsLookup_fsUpdate.
  repeat (rewrite bind_run; cbn [fst snd gets modify ret set_fs fs data mode]).
  rewrite !fsUpdate_twice, renderProfile_document. reflexivity.
Qed.

(** The file system after a profile generation: as before, or with the
    profile file added. *)
Lemma GenerateProfile_fs env path s :
  fs (snd (GenerateProfile env path s)) = fs s \/
  (fsLookup (profileName env s) (fs s) = None /\
   exists g,
     fs (snd (GenerateProfile env path s))
     = fsUpdate (profileName env s) g (fs s)).
Proof.
  destruct (GenerateProfile_cases env path s) as [Hfail|(f & dump & Hok)].
  - assert (Hdec : (exists f dump, profileFileCreated env path s f dump) \/
                   (forall f dump, ~ profileFileCreated env path s f dump)).
    { unfold profileFileCreated.
      destruct (openErr env path) eqn:Ho;
        [right; intros f dump (H & _); discriminate|].
      destruct (fsLookup path (fs s)) as [f|] eqn:Hf;
        [|right; intros f dump (_ & H & _); discriminate].
      destruct (readErr env path) eqn:Hr;
        [right; intros f' dump (_ & _ & H & _); discriminate|].
      destruct (jsonUnmarshal env (data f)) as [e|dump] eqn:Hj;
        [right; intros f' dump (_ & H1 & _ & H & _);
         injection H1 as <-; congruence|].
      destruct (tempFileErr env (profileName env s)) eqn:Ht;
        [right; intros f' dump' (_ & _ & _ & _ & H & _); discriminate|].
      destruct (fsLookup (profileName env s) (fs s)) eqn:Hn;
        [right; intros f' dump' (_ & _ & _ & _ & _ & H); discriminate|].
      left. exists f, dump. repeat split; first [reflexivity | assumption]. }
    destruct Hdec as [(f & dump & Hc)|Hno].
    + right. split; [apply Hc|].
      destruct (chmodErr env (profileName env s) 256) as [e|] eqn:Hm.
      * rewrite (GenerateProfile_chmod_fails env path s f dump e Hc Hm).
        eexists. reflexivity.
      * destruct (executeErr env (profileName env s)) as [e|] eqn:He.
        -- rewrite (GenerateProfile_execute_fails env path s f dump e Hc Hm He).
           eexists. reflexivity.
        -- rewrite (GenerateProfile_succeeds env path s f dump).
           ++ eexists. reflexivity.
           ++ destruct Hc as (H1 & H2 & H3 & H4 & H5 & H6).
              repeat split; assumption.
    + left. rewrite (GenerateProfile_not_created env path s Hno). reflexivity.
  - right. split; [apply Hok|].
    rewrite (GenerateProfile_succeeds env path s f dump Hok).
    eexists. reflexivity.
Qed.

(** X18. GenerateProfile never alters a file that exists: whatever the
    outcome, every path other than the name of the new profile file reads
    as before, and that name was free. *)
Theorem generate_profile_leaves_existing_files (env : Env) (path : string)
        (s : ActivityDumpManager) :
  let s' := snd (GenerateProfile env path s) in
  (forall q, q <> profileName env s ->
             fsLookup q (fs s') = fsLookup q (fs s)) /\
  (forall q f, fsLookup q (fs s) = Some f -> fsLookup q (fs s') = Some f).
Proof.
  cbn zeta.
  destruct (GenerateProfile_fs env path s) as [E|(Hfree & g & E)]; rewrite E.
  - split; [reflexivity | intros q f H; exact H].
  - split.
    + intros q Hq. apply fsLookup_fsUpdate_other, Hq.
    + intros q f H. rewrite fsLookup_fsUpdate_other; [exact H|].
      intros ->. congruence.
Qed.

Lemma generate_profile_leaves_existing_files_witness :
  fsLookup "/var/run/dump.json"
           (fs (snd (GenerateProfile demoEnv "/var/run/dump.json" demoState)))
  = Some (mkFile "{}" 420).
Proof.
  destruct (generate_profile_leaves_existing_files
              demoEnv "/var/run/dump.json" demoState) as [_ H].
  apply H. reflexivity.
Defined.

Lemma substring_prefix n : forall s, prefix (substring 0 n s) s = true.
Proof.
  induction n as [|n IH]; intros [|c s]; simpl; try reflexivity.
  destruct (ascii_dec c c) as [_|H]; [apply IH | contradiction H; reflexivity].
Qed.

(** X19. A profile generation that fails once the profile file exists
    leaves the file behind: empty, still readable and writable by its
    owner, when the change of mode is what failed; already
    owner-read-only, holding the beginning of the document that went
    through, when the rendering failed.  In both cases the failure is
    returned, wrapped, and no path is. *)
Theorem failed_profile_generation_leaves_the_file (env : Env) (path : string)
        (s : ActivityDumpManager) (f : File) (dump : ActivityDump) :
  profileFileCreated env path s f dump ->
  let r := GenerateProfile env path s in
  (forall e,
      chmodErr env (profileName env s) 256 = Some e ->
      fst r
      = (mkProfileMsg ""
           (Error (profileError "couldn't change the mode of the profile file"
                                e)),
         Some (profileError "couldn't change the mode of the profile file" e))
      /\ fsLookup (profileName env s) (fs (snd r))
         = Some (mkFile "" ownerReadWrite)) /\
  (forall e,
      chmodErr env (profileName env s) 256 = None ->
      executeErr env (profileName env s) = Some e ->
      fst r
      = (mkProfileMsg "" (Error (profileError "couldn't generate profile" e)),
         Some (profileError "couldn't generate profile" e))
      /\ fsLookup (profileName env s) (fs (snd r))
         = Some (mkFile (writtenPart env s dump) ownerReadOnly)
      /\ prefix (writtenPart env s dump)
                (profileDocument (GenerateProfileData env dump)) = true).
Proof.
  intros Hc r. subst r. split.
  - intros e Hm. rewrite (GenerateProfile_chmod_fails env path s f dump e Hc Hm).
    split; [reflexivity | apply fsLookup_fsUpdate].
  - intros e Hm He.
    rewrite (GenerateProfile_execute_fails env path s f dump e Hc Hm He).
    split; [reflexivity|]. split; [apply fsLookup_fsUpdate|].
    apply substring_prefix.
Qed.

Lemma failed_profile_generation_leaves_the_file_witness :
  fsLookup "/tmp/profile-0001"
           (fs (snd (GenerateProfile noChmodEnv "/var/run/dump.json" demoState)))
  = Some (mkFile "" ownerReadWrite) /\
  fsLookup "/tmp/profile-0001"
           (fs (snd (GenerateProfile noRenderEnv "/var/run/dump.json"
                                     demoState)))
  = Some (mkFile ("---" ++ newline ++ "name: ") 256).
Proof.
  split.
  - destruct (failed_profile_generation_leaves_the_file
                noChmodEnv "/var/run/dump.json" demoState (mkFile "{}" 420)
                zeroDump) as [H _].
    + repeat split.
    + destruct (H (External "operation not permitted") eq_refl) as [_ Hf].
      exact Hf.
  - destruct (failed_profile_generation_leaves_the_file
                noRenderEnv "/var/run/dump.json" demoState (mkFile "{}" 420)
                zeroDump) as [_ H].
    + repeat split.
    + destruct (H (External "no space left on device") eq_refl eq_refl)
        as (_ & Hf & _).
      exact Hf.
Defined.

(** ** Construction *)

Lemma Key_eqb_eq a b : Key_eqb a b = true <-> a = b.
Proof.
  destruct a as [x|x], b as [y|y]; simpl.
  - destruct (list_eq_dec Byte.byte_eq_dec x y) as [->|Hn].
    + split; reflexivity.
    + split; [discriminate | intros H; injection H as ->; contradiction].
  - split; discriminate.
  - split; discriminate.
  - rewrite Z.eqb_eq. split; [intros ->; reflexivity | congruence].
Qed.

Lemma mapLookup_upsert k k' v m :
  mapLookup k (upsert k' v m)
  = if Key_eqb k k' then Some v else mapLookup k m.
Proof.
  induction m as [|[k2 v2] m IH]; simpl.
  - reflexivity.
  - destruct (Key_eqb k' k2) eqn:E; simpl.
    + apply Key_eqb_eq in E. subst k2.
      destruct (Key_eqb k k'); reflexivity.
    + rewrite IH. destruct (Key_eqb k k2) eqn:E2; [|reflexivity].
      apply Key_eqb_eq in E2. subst k2.
      destruct (Key_eqb k k') eqn:E3; [|reflexivity].
      apply Key_eqb_eq in E3. subst k'.
      assert (Key_eqb k k = true) by (apply Key_eqb_eq; reflexivity).
      congruence.
Qed.

(** The writes of the event types that succeed, up to the first that
    fails. *)
Lemma putTracedEventTypes_run env types : forall s,
  let r := putTracedEventTypes env types s in
  (Forall (writable env) types ->
   fst r = None /\
   calls (snd r) = calls s ++ eventTypePuts types /\
   (forall t, In t types \/
              mapLookup (KU32 t) (maps s traced_event_types) = Some 1 ->
              mapLookup (KU32 t) (maps (snd r) traced_event_types) = Some 1)) /\
  (forall pre t post e,
      types = pre ++ t :: post ->
      Forall (writable env) pre ->
      putErr env traced_event_types (KU32 t) 1 = Some e ->
      fst r = Some eventTypeError /\
      calls (snd r) = calls s ++ eventTypePuts (pre ++ [t]) /\
      (forall u, In u pre ->
                 mapLookup (KU32 u) (maps (snd r) traced_event_types) = Some 1)) /\
  (forall m, m <> traced_event_types -> maps (snd r) m = maps s m) /\
  activeDumps (snd r) = activeDumps s /\
  snapshotQueue (snd r) = snapshotQueue s /\
  heap (snd r) = heap s /\ next (snd r) = next s /\ now (snd r) = now s /\
  processes (snd r) = processes s /\ fs (snd r) = fs s /\ log (snd r) = log s /\
  config (snd r) = config s.
Proof.
  induction types as [|x rest IH]; intros s; cbn zeta.
  - cbn. rewrite app_nil_r. split; [|split].
    + intros _. split; [reflexivity|]. split; [reflexivity|].
      intros t [[]|H]; exact H.
    + intros [|] ? ? ? H; discriminate.
    + repeat split.
  - cbn [putTracedEventTypes]. unfold Put, call.
    rewrite bind_run. rewrite bind_run. cbn [fst snd modify].
    destruct (putErr env traced_event_types (KU32 x) 1) as [e0|] eqn:Hx.
    + cbn [fst snd ret]. split; [|split].
      * intros Hall. inversion Hall as [|? ? Hw _]. unfold writable in Hw.
        congruence.
      * intros pre t post e Heq Hpre Ht. destruct pre as [|y pre].
        -- cbn in Heq. injection Heq as <- _.
           split; [reflexivity|]. split; [reflexivity|]. intros u [].
        -- cbn in Heq. injection Heq as <- _.
           inversion Hpre as [|? ? Hw _]. unfold writable in Hw. congruence.
      * repeat split.
    + rewrite bind_run. cbn [fst snd modify ret].
      match goal with |- context [putTracedEventTypes env rest ?st] =>
        set (s1 := st) end.
      destruct (IH s1) as (Hok & Hfail & Hmaps & Ha & Hq & Hh & Hn & Hnow &
                           Hp & Hfs & Hlog & Hcfg).
      cbn zeta in Hok, Hfail.
      assert (Hx1 : mapLookup (KU32 x) (maps s1 traced_event_types) = Some 1).
      { subst s1. cbn [maps set_maps set_calls MapName_eqb].
        rewrite mapLookup_upsert.
        assert (Key_eqb (KU32 x) (KU32 x) = true) as ->
            by (apply Key_eqb_eq; reflexivity).
        reflexivity. }
      assert (Hkeep : forall t,
                 mapLookup (KU32 t) (maps s traced_event_types) = Some 1 ->
                 mapLookup (KU32 t) (maps s1 traced_event_types) = Some 1).
      { intros t Ht. subst s1. cbn [maps set_maps set_calls MapName_eqb].
        rewrite mapLookup_upsert.
        destruct (Key_eqb (KU32 t) (KU32 x)); [reflexivity | exact Ht]. }
      split; [|split; [|split]].
      * intros Hall. inversion Hall as [|? ? _ Hrest]. subst.
        destruct (Hok Hrest) as (Hr & Hc & Hl).
        split; [exact Hr|]. split.
        -- rewrite Hc. subst s1. cbn [calls set_maps set_calls eventTypePuts map].
           rewrite <- app_assoc. reflexivity.
        -- intros t [[->|Hin]|Ht]; apply Hl.
           ++ right. exact Hx1.
           ++ left. exact Hin.
           ++ right. apply Hkeep, Ht.
      * intros pre t post e Heq Hpre Ht. destruct pre as [|y pre].
        -- cbn in Heq. injection Heq as -> _. congruence.
        -- cbn in Heq. injection Heq as <- ->.
           inversion Hpre as [|? ? _ Hpre']. subst.
           destruct (Hfail pre t post e eq_refl Hpre' Ht) as (Hr & Hc & Hl).
           split; [exact Hr|]. split.
           ++ rewrite Hc. subst s1.
              cbn [calls set_maps set_calls eventTypePuts map app].
              rewrite <- app_assoc. reflexivity.
           ++ intros u [<-|Hin].
              ** destruct (in_dec Z.eq_dec x pre) as [Hi|Hni];
                   [apply Hl, Hi|].
                 clear Hok Hl Hc Hr.
                 (* [x] is written first and nothing after removes it *)
                 assert (Hmono : forall types s0,
                   mapLookup (KU32 x) (maps s0 traced_event_types) = Some 1 ->
                   mapLookup (KU32 x)
                     (maps (snd (putTracedEventTypes env types s0))
                           traced_event_types) = Some 1).
                 { clear. induction types as [|z types IHt]; intros s0 H0.
                   - exact H0.
                   - cbn [putTracedEventTypes]. unfold Put, call.
                     rewrite bind_run. rewrite bind_run. cbn [fst snd modify].
                     destruct (putErr env traced_event_types (KU32 z) 1).
                     + cbn [fst snd ret maps set_calls]. exact H0.
                     + rewrite bind_run. cbn [fst snd modify ret].
                       apply IHt. cbn [maps set_maps set_calls MapName_eqb].
                       rewrite mapLookup_upsert.
                       destruct (Key_eqb (KU32 x) (KU32 z));
                         [reflexivity | exact H0]. }
                 apply Hmono, Hx1.
              ** apply Hl, Hin.
      * intros m Hm. rewrite (Hmaps m Hm). subst s1.
        cbn [maps set_maps set_calls].
        destruct m; try reflexivity. contradiction Hm. reflexivity.
      * rewrite Ha, Hq, Hh, Hn, Hnow, Hp, Hfs, Hlog, Hcfg. subst s1.
        repeat split.
Qed.

Lemma putTracedEventTypes_None env types s :
  fst (putTracedEventTypes env types s) = None -> Forall (writable env) types.
Proof.
  revert s. induction types as [|x rest IH]; intros s H.
  - constructor.
  - cbn [putTracedEventTypes] in H. unfold Put, call in H.
    rewrite bind_run in H. rewrite bind_run in H. cbn [fst snd modify] in H.
    destruct (putErr env traced_event_types (KU32 x) 1) as [e0|] eqn:Hx.
    + discriminate.
    + rewrite bind_run in H. cbn [fst snd modify ret] in H.
      constructor; [exact Hx | exact (IH _ H)].
Qed.

Lemma putTracedEventTypes_error env types s e :
  fst (putTracedEventTypes env types s) = Some e -> e = eventTypeError.
Proof.
  revert s. induction types as [|x rest IH]; intros s H.
  - discriminate.
  - cbn [putTracedEventTypes] in H. unfold Put, call in H.
    rewrite bind_run in H. rewrite bind_run in H. cbn [fst snd modify] in H.
    destruct (putErr env traced_event_types (KU32 x) 1) as [e0|] eqn:Hx.
    + cbn in H. injection H as <-. reflexivity.
    + rewrite bind_run in H. cbn [fst snd modify ret] in H.
      exact (IH _ H).
Qed.

Lemma requireMap_None p m : requireMap p m = None <-> GetMap p m = MapFound.
Proof.
  unfold requireMap. destruct (GetMap p m); split; congruence.
Qed.

Lemma firstError_None p :
  firstError p lookupOrder = None <->
  requireMap p traced_pids = None /\ requireMap p traced_comms = None /\
  requireMap p cgroups_wait_list = None /\
  requireMap p traced_event_types = None.
Proof.
  unfold lookupOrder, firstError.
  destruct (requireMap p traced_pids), (requireMap p traced_comms),
    (requireMap p cgroups_wait_list), (requireMap p traced_event_types);
    split; try discriminate; try tauto;
    intros (H1 & H2 & H3 & H4); discriminate.
Qed.

(** The constructor once its first four lookups are through. *)
Lemma NewActivityDumpManager_writes env p s :
  firstError p lookupOrder = None ->
  NewActivityDumpManager env p s
  = match fst (putTracedEventTypes env (ActivityDumpTracedEventTypes p) s) with
    | Some e => (Some e, snd (putTracedEventTypes env
                                (ActivityDumpTracedEventTypes p) s))
    | None =>
        let s1 := snd (putTracedEventTypes env
                         (ActivityDumpTracedEventTypes p) s) in
        match requireMap p traced_cgroups with
        | Some e => (Some e, s1)
        | None =>
            (None,
             mkADM (probeConfig p) (processes s1) (now s1) (heap s1) (next s1)
                   [] [] (maps s1) (log s1) (calls s1) (fs s1))
        end
    end.
Proof.
  intros H. apply firstError_None in H. destruct H as (H1 & H2 & H3 & H4).
  unfold NewActivityDumpManager. rewrite H1, H2, H3, H4.
  rewrite bind_run.
  destruct (fst (putTracedEventTypes env (ActivityDumpTracedEventTypes p) s));
    [reflexivity|].
  cbn zeta. destruct (requireMap p traced_cgroups); [reflexivity|].
  rewrite bind_run. reflexivity.
Qed.

Lemma NewActivityDumpManager_early env p s e :
  firstError p lookupOrder = Some e ->
  NewActivityDumpManager env p s = (Some e, s).
Proof.
  unfold lookupOrder, firstError, NewActivityDumpManager.
  destruct (requireMap p traced_pids);
    [intros H; injection H as ->; reflexivity|].
  destruct (requireMap p traced_comms);
    [intros H; injection H as ->; reflexivity|].
  destruct (requireMap p cgroups_wait_list);
    [intros H; injection H as ->; reflexivity|].
  destruct (requireMap p traced_event_types);
    [intros H; injection H as ->; reflexivity|].
  discriminate.
Qed.

Lemma everyMapFound_lookups p :
  everyMapFound p ->
  firstError p lookupOrder = None /\ requireMap p traced_cgroups = None.
Proof.
  intros H. split.
  - apply firstError_None. repeat split; apply requireMap_None, H.
  - apply requireMap_None, H.
Qed.

(** X20. NewActivityDumpManager returns a manager exactly when the eBPF
    manager has all five maps and every traced event type can be written
    to its map. *)
Theorem new_manager_needs_maps_and_event_types (env : Env) (p : Probe)
        (s : ActivityDumpManager) :
  fst (NewActivityDumpManager env p s) = None <->
  everyMapFound p /\ Forall (writable env) (ActivityDumpTracedEventTypes p).
Proof.
  split.
  - intros H.
    destruct (firstError p lookupOrder) as [e|] eqn:Hfirst.
    + rewrite (NewActivityDumpManager_early env p s e Hfirst) in H.
      discriminate.
    + rewrite (NewActivityDumpManager_writes env p s Hfirst) in H.
      destruct (fst (putTracedEventTypes env (ActivityDumpTracedEventTypes p) s))
        eqn:Hput; [discriminate|].
      cbn zeta in H.
      destruct (requireMap p traced_cgroups) eqn:Hcg; [discriminate|].
      split.
      * apply firstError_None in Hfirst.
        destruct Hfirst as (H1 & H2 & H3 & H4).
        intros m. apply requireMap_None. destruct m; assumption.
      * exact (putTracedEventTypes_None env _ s Hput).
  - intros [Hmaps Hw].
    destruct (everyMapFound_lookups p Hmaps) as [Hfirst Hcg].
    rewrite (NewActivityDumpManager_writes env p s Hfirst).
    destruct (putTracedEventTypes_run env (ActivityDumpTracedEventTypes p) s)
      as (Hok & _).
    destruct (Hok Hw) as (Hr & _). rewrite Hr. cbn zeta. rewrite Hcg.
    reflexivity.
Qed.

Lemma new_manager_needs_maps_and_event_types_witness :
  fst (NewActivityDumpManager demoEnv demoProbe demoState) = None /\
  fst (NewActivityDumpManager demoEnv noCgroupsProbe demoState) <> None.
Proof.
  split.
  - apply (new_manager_needs_maps_and_event_types demoEnv demoProbe demoState).
    split; [intros m; reflexivity | repeat constructor].
  - intros H.
    apply (new_manager_needs_maps_and_event_types
             demoEnv noCgroupsProbe demoState) in H.
    destruct H as [H _]. specialize (H traced_cgroups). discriminate H.
Defined.

(** X21. A manager that NewActivityDumpManager returns starts with
    nothing registered and nothing queued, over the probe's configuration;
    every traced event type of the probe is in the traced_event_types map
    with the value 1, written in the order of the configuration, and no
    other map was written. *)
Theorem new_manager_starts_empty_types_traced (env : Env) (p : Probe)
        (s : ActivityDumpManager) :
  everyMapFound p ->
  Forall (writable env) (ActivityDumpTracedEventTypes p) ->
  let s' := snd (NewActivityDumpManager env p s) in
  freshManager p s s' /\
  reachable env s' /\ queueBounded s' /\
  (forall t, In t (ActivityDumpTracedEventTypes p) ->
             mapLookup (KU32 t) (maps s' traced_event_types) = Some 1) /\
  calls s' = calls s ++ eventTypePuts (ActivityDumpTracedEventTypes p) /\
  (forall m, m <> traced_event_types -> maps s' m = maps s m).
Proof.
  intros Hmaps Hw s'. subst s'.
  destruct (everyMapFound_lookups p Hmaps) as [Hfirst Hcg].
  rewrite (NewActivityDumpManager_writes env p s Hfirst).
  destruct (putTracedEventTypes_run env (ActivityDumpTracedEventTypes p) s)
    as (Hok & _ & Hother & Ha & Hq & Hh & Hn & Hnow & Hp & Hfs & Hlog & Hcfg).
  destruct (Hok Hw) as (Hr & Hc & Hl). rewrite Hr. cbn zeta. rewrite Hcg.
  cbn [snd]. split; [|split; [|split; [|split; [|split]]]].
  - unfold freshManager. cbn. repeat split; assumption.
  - apply reach_start. reflexivity.
  - unfold queueBounded. cbn. apply Nat.le_0_l.
  - intros t Ht. cbn [maps]. apply Hl. left. exact Ht.
  - exact Hc.
  - intros m Hm. cbn [maps]. apply Hother, Hm.
Qed.

Lemma new_manager_starts_empty_types_traced_witness :
  mapLookup (KU32 2)
            (maps (snd (NewActivityDumpManager demoEnv demoProbe demoState))
                  traced_event_types) = Some 1.
Proof.
  destruct (new_manager_starts_empty_types_traced demoEnv demoProbe demoState)
    as (_ & _ & _ & H & _).
  - intros m. reflexivity.
  - repeat constructor.
  - apply H. simpl. auto.
Defined.

(** X22. When one of the maps traced_pids, traced_comms, cgroups_wait_list
    or traced_event_types cannot be obtained, NewActivityDumpManager
    returns the error of the first such map, in that order, and has
    written nothing. *)
Theorem new_manager_fails_early_without_writing (env : Env) (p : Probe)
        (s : ActivityDumpManager) (e : error) :
  firstError p lookupOrder = Some e ->
  NewActivityDumpManager env p s = (Some e, s).
Proof. apply NewActivityDumpManager_early. Qed.

Lemma new_manager_fails_early_without_writing_witness :
  NewActivityDumpManager noTypeTwoEnv noCommsProbe demoState
  = (Some (Errorf "couldn't find " "traced_comms map" None), demoState).
Proof.
  apply (new_manager_fails_early_without_writing noTypeTwoEnv noCommsProbe).
  reflexivity.
Defined.

(** X23. A construction that fails after its first four lookups leaves
    its writes behind.  When the write of an event type fails, the error
    carries no cause, the types before it stay in the map and no later
    one is tried; when the traced_cgroups map is what is missing, every
    event type has been written already.  Nothing is registered. *)
Theorem new_manager_late_failure_keeps_writes (env : Env) (p : Probe)
        (s : ActivityDumpManager) :
  firstError p lookupOrder = None ->
  let r := NewActivityDumpManager env p s in
  (forall pre t post cause,
      ActivityDumpTracedEventTypes p = pre ++ t :: post ->
      Forall (writable env) pre ->
      putErr env traced_event_types (KU32 t) 1 = Some cause ->
      fst r = Some eventTypeError /\
      calls (snd r) = calls s ++ eventTypePuts (pre ++ [t]) /\
      (forall u, In u pre ->
                 mapLookup (KU32 u) (maps (snd r) traced_event_types) = Some 1) /\
      activeDumps (snd r) = activeDumps s) /\
  (forall e,
      Forall (writable env) (ActivityDumpTracedEventTypes p) ->
      requireMap p traced_cgroups = Some e ->
      fst r = Some e /\
      calls (snd r) = calls s ++ eventTypePuts (ActivityDumpTracedEventTypes p) /\
      (forall t, In t (ActivityDumpTracedEventTypes p) ->
                 mapLookup (KU32 t) (maps (snd r) traced_event_types) = Some 1) /\
      activeDumps (snd r) = activeDumps s).
Proof.
  intros Hfirst r. subst r.
  rewrite (NewActivityDumpManager_writes env p s Hfirst).
  destruct (putTracedEventTypes_run env (ActivityDumpTracedEventTypes p) s)
    as (Hok & Hfail & _ & Ha & _).
  split.
  - intros pre t post cause Heq Hpre Ht.
    destruct (Hfail pre t post cause Heq Hpre Ht) as (Hr & Hc & Hl).
    rewrite Hr. cbn [fst snd]. repeat split; assumption.
  - intros e Hw Hcg. destruct (Hok Hw) as (Hr & Hc & Hl).
    rewrite Hr. cbn zeta. rewrite Hcg. cbn [fst snd].
    split; [reflexivity|]. split; [exact Hc|]. split; [|exact Ha].
    intros t Ht. apply Hl. left. exact Ht.
Qed.

Lemma new_manager_late_failure_keeps_writes_witness :
  fst (NewActivityDumpManager noTypeTwoEnv demoProbe demoState)
  = Some eventTypeError /\
  mapLookup (KU32 1)
            (maps (snd (NewActivityDumpManager noTypeTwoEnv demoProbe demoState))
                  traced_event_types) = Some 1.
Proof.
  destruct (new_manager_late_failure_keeps_writes
              noTypeTwoEnv demoProbe demoState eq_refl) as [H _].
  destruct (H [1] 2 [3] (External "argument list too long") eq_refl)
    as (Hr & _ & Hl & _).
  - repeat constructor.
  - reflexivity.
  - split; [exact Hr | apply Hl; simpl; auto].
Defined.

(** ** The background loop *)

Lemma incl_removeAt {A} i (l : list A) : incl (removeAt i l) l.
Proof.
  destruct (removeAt_cases i l) as [->|(pre & x & post & -> & ->)].
  - apply incl_refl.
  - intros y Hy. apply in_app_or in Hy. apply in_or_app.
    destruct Hy; [left | right; right]; assumption.
Qed.

(** The loop registers nothing and allocates nothing. *)
Lemma StartLoop_frame env schedule s :
  incl (activeDumps (snd (StartLoop env schedule s))) (activeDumps s) /\
  next (snd (StartLoop env schedule s)) = next s.
Proof.
  set (P := fun s' : ActivityDumpManager =>
              incl (activeDumps s') (activeDumps s) /\ next s' = next s).
  assert (Hlog : ignores_log P) by (intros s0 e H; exact H).
  assert (Hcalls : ignores_calls anyCall P) by (intros s0 c _ H; exact H).
  assert (Hq : ignores_queue P) by (intros s0 q H; exact H).
  assert (Hst : ignores_status P) by (intros s0 p st H; exact H).
  assert (Hrm : ignores_removal P).
  { intros s0 i [H1 H2]. split; [|exact H2].
    cbn [activeDumps set_activeDumps].
    intros y Hy. apply H1. exact (incl_removeAt i _ y Hy). }
  apply (stable_StartLoop P env schedule).
  - apply (stable_cleanup P); assumption.
  - apply (stable_resolveTags P anyCall); auto.
  - apply (stable_takeSnapshot P anyCall); auto.
  - split; [apply incl_refl | reflexivity].
Qed.

(** X24. Whatever the select of the background loop picks, and in
    whatever order, the loop registers no dump and creates none: the
    active dumps after it are among those before it.  It keeps them open
    and distinct, with at most one of them per container ID and per
    comm. *)
Theorem loop_registers_no_dump (env : Env) (s : ActivityDumpManager)
        (schedule : list LoopEvent) :
  let s' := snd (StartLoop env schedule s) in
  incl (activeDumps s') (activeDumps s) /\ next s' = next s /\
  (Live s -> Live s') /\ (Inv s -> Inv s').
Proof.
  intros s'. subst s'.
  destruct (StartLoop_frame env schedule s) as [H1 H2].
  split; [exact H1|]. split; [exact H2|]. split.
  - apply stable_StartLoop.
    + intros s0. apply Live_cleanup.
    + intros s0. apply (Live_step env OpResolveTags).
    + intros s0. apply (Live_step env OpTakeSnapshot).
  - apply stable_StartLoop.
    + intros s0. apply (step_Inv env OpCleanup).
    + intros s0. apply (step_Inv env OpResolveTags).
    + intros s0. apply (step_Inv env OpTakeSnapshot).
Qed.

Lemma loop_registers_no_dump_witness :
  incl (activeDumps (snd (StartLoop demoEnv [TagsTick; CleanupTick; SnapshotRecv]
                                    (set_now 101 demoState))))
       [0%nat; 1%nat] /\
  Inv (snd (StartLoop demoEnv [TagsTick; CleanupTick; SnapshotRecv]
                      (set_now 101 demoState))).
Proof.
  destruct (loop_registers_no_dump demoEnv (set_now 101 demoState)
              [TagsTick; CleanupTick; SnapshotRecv]) as (Hi & _ & _ & HI).
  split; [exact Hi|].
  apply HI. apply demoState_Inv.
Defined.

(** ** The recovery of the traced cgroups *)

Lemma recover_app env ids ids' s :
  snd (recover env (ids ++ ids') s)
  = snd (recover env ids' (snd (recover env ids s))).
Proof.
  unfold recover. revert s. induction ids as [|id ids IH]; intros s.
  - reflexivity.
  - cbn [app forEach]. rewrite !bind_run. apply IH.
Qed.

Lemma snapshotTracedCgroups_run env U yielded ierr s :
  snd (snapshotTracedCgroups env U yielded ierr s)
  = let s1 := snd (recover env (decodedIDs U yielded) s) in
    match ierr with
    | Some e => set_log (log s1 ++ [iterationFailure e]) s1
    | None => s1
    end.
Proof.
  unfold snapshotTracedCgroups. rewrite bind_run. cbn zeta.
  assert (E : forall s0,
     snd (forEach yielded
            (fun containerIDB =>
               match U containerIDB with
               | inl _ => ret tt
               | inr id => HandleCgroupTracingEvent env (mkCgroupEvent id 0)
               end) s0)
     = snd (recover env (decodedIDs U yielded) s0)).
  { induction yielded as [|k rest IH]; intros s0.
    - reflexivity.
    - cbn [forEach decodedIDs flat_map]. rewrite bind_run.
      fold (decodedIDs U rest).
      destruct (U k) as [e|id].
      + cbn [fst snd ret app]. apply IH.
      + rewrite IH. unfold recover at 2. cbn [app forEach].
        rewrite bind_run. reflexivity. }
  rewrite E. destruct ierr; reflexivity.
Qed.

Lemma stable_recover P env ids :
  (forall event, stable P (HandleCgroupTracingEvent env event)) ->
  stable P (recover env ids).
Proof.
  intros H. unfold recover. apply stable_forEach. intros id. apply H.
Qed.

(** A tracing event for a container without an active dump. *)
Lemma HandleCgroupTracingEvent_registers (env : Env)
        (s : ActivityDumpManager) (event : CgroupTracingEvent) :
  allocated s ->
  (forall q, In q (activeDumps s) ->
             ContainerID (heap s q) <> ContainerContextID event) ->
  newDumpErr env (tracedCgroupDump env event s) = None ->
  let s1 := snd (HandleCgroupTracingEvent env event s) in
  let expiry := ResolveMonotonicTimestamp env (TimeoutRaw event) in
  let d := heap s1 (next s) in
  activeDumps s1 = activeDumps s ++ [next s] /\
  (ContainerID d = ContainerContextID event /\ Comm d = ""%string /\
   DifferentiateArgs d = true /\ WithGraph d = true /\ status d = Open) /\
  (Start d = now s /\ Timeout d = time.Sub expiry (now s)) /\
  (minInt64 <= expiry - now s <= maxInt64 ->
   forall t,
     In (next s) (activeDumps (snd (cleanup (set_now t s1)))) <-> t <= expiry).
Proof.
  intros Halloc Hfresh Hnew s1 expiry d. subst d s1.
  rewrite (HandleCgroupTracingEvent_created env event s Hnew).
  fold (withNewDump (tracedCgroupDump env event s) s).
  destruct (new_dump_registered env (tracedCgroupDump env event s) s Halloc)
    as (Ha & _ & Hf).
  - apply containerIDActive_unknown. exact Hfresh.
  - reflexivity.
  - set (s2 := snd (insertActivityDump env (next s)
                      (withNewDump (tracedCgroupDump env event s) s))) in *.
    destruct (Hf _ ContainerID) as [Hc _]; [reflexivity|].
    destruct (Hf _ Comm) as [Hm _]; [reflexivity|].
    destruct (Hf _ DifferentiateArgs) as [Hd _]; [reflexivity|].
    destruct (Hf _ WithGraph) as [Hw _]; [reflexivity|].
    destruct (Hf _ status) as [Ho _]; [reflexivity|].
    destruct (Hf _ Start) as [Hs _]; [reflexivity|].
    destruct (Hf _ Timeout) as [Ht _]; [reflexivity|].
    cbn [activeDumps heap set_log].
    split; [exact Ha|]. split; [repeat split; assumption|].
    split; [split; assumption|].
    intros Hrange t. rewrite cleanup_run.
    cbn [activeDumps set_activeDumps set_heap set_now set_log].
    rewrite Ha, filter_In. unfold expired.
    cbn [now heap set_now set_log]. rewrite Hs, Ht.
    cbn [Start Timeout tracedCgroupDump]. fold expiry.
    rewrite (Sub_exact _ _ Hrange). unfold time.After, time.Add.
    replace (now s + (expiry - now s)) with expiry by lia. split.
    + intros [_ H]. apply negb_true_iff, Z.ltb_ge in H. exact H.
    + intros H. split; [apply in_or_app; right; left; reflexivity|].
      apply negb_true_iff, Z.ltb_ge. exact H.
Qed.

(** X25. snapshotTracedCgroups handles one tracing event, with the raw
    timeout 0, for each key of traced_cgroups that decodes, in the order
    of the iteration; a key that does not decode is skipped, and a failed
    iteration is logged once, at the end, after the keys it yielded were
    handled.  The active dumps stay open and distinct, no two of them
    share a container ID or a comm, and the snapshot queue stays within
    its capacity. *)
Theorem recovery_skips_undecodable_keys (env : Env)
        (UnmarshalBinary : list byte -> error + string)
        (yielded : list (list byte)) (iteratorErr : option error)
        (s : ActivityDumpManager) :
  let s' := snd (snapshotTracedCgroups env UnmarshalBinary yielded
                                       iteratorErr s) in
  let s1 := snd (recover env (decodedIDs UnmarshalBinary yielded) s) in
  s' = match iteratorErr with
       | Some e => set_log (log s1 ++ [iterationFailure e]) s1
       | None => s1
       end /\
  (Live s -> Live s') /\ (Inv s -> Inv s') /\
  (queueBounded s -> queueBounded s').
Proof.
  cbn zeta. rewrite snapshotTracedCgroups_run. cbn zeta.
  split; [reflexivity|].
  set (ids := decodedIDs UnmarshalBinary yielded).
  assert (HL : Live s -> Live (snd (recover env ids s))).
  { apply stable_recover. intros event s0.
    apply (Live_step env (OpHandleCgroupTracingEvent event)). }
  assert (HI : Inv s -> Inv (snd (recover env ids s))).
  { apply stable_recover. intros event s0.
    apply (step_Inv env (OpHandleCgroupTracingEvent event)). }
  assert (HQ : queueBounded s -> queueBounded (snd (recover env ids s))).
  { apply stable_recover. intros event s0.
    apply (stable_step queueBounded env anyCall
                       queueBounded_ignores_calls queueBounded_ignores_log
                       queueBounded_ignores_alloc (queueBounded_insert env)
                       (fun _ => eq_refl) (fun _ => eq_refl)
                       queueBounded_ignores_fs queueBounded_ignores_status
                       queueBounded_ignores_removal
                       (queueBounded_takeSnapshot env)
                       (OpHandleCgroupTracingEvent event)). }
  destruct iteratorErr as [e|].
  - split; [|split]; intros H.
    + exact (HL H).
    + apply Inv_ignores_log, HI, H.
    + apply queueBounded_ignores_log, HQ, H.
  - split; [|split]; assumption.
Qed.

Lemma recovery_skips_undecodable_keys_witness :
  Inv (snd (snapshotTracedCgroups demoEnv demoUnmarshal
              [[]; [x63; x39]; [x63; x31]]
              (Some (External "iteration aborted")) demoState)).
Proof.
  destruct (recovery_skips_undecodable_keys demoEnv demoUnmarshal
              [[]; [x63; x39]; [x63; x31]]
              (Some (External "iteration aborted")) demoState)
    as (_ & _ & HI & _).
  apply HI, demoState_Inv.
Defined.

(** X26. A dump recovered from the traced_cgroups map does not get the
    timeout the map holds for its cgroup: its expiry is the resolution of
    the raw timestamp 0.  For a yielded key that decodes to a container
    without an active dump, the dump is registered last, started now,
    with the time from now to that instant as its Timeout; when that fits
    a duration, a cleanup keeps it up to that instant and removes it
    after. *)
Theorem recovered_dump_expires_at_clock_origin (env : Env)
        (UnmarshalBinary : list byte -> error + string)
        (k : list byte) (id : string) (iteratorErr : option error)
        (s : ActivityDumpManager) :
  allocated s ->
  UnmarshalBinary k = inr id ->
  (forall q, In q (activeDumps s) -> ContainerID (heap s q) <> id) ->
  newDumpErr env (tracedCgroupDump env (mkCgroupEvent id 0) s) = None ->
  let s1 := snd (snapshotTracedCgroups env UnmarshalBinary [k] iteratorErr s) in
  let origin := ResolveMonotonicTimestamp env 0 in
  let d := heap s1 (next s) in
  activeDumps s1 = activeDumps s ++ [next s] /\
  ContainerID d = id /\ Start d = now s /\
  Timeout d = time.Sub origin (now s) /\
  (minInt64 <= origin - now s <= maxInt64 ->
   forall t,
     In (next s) (activeDumps (snd (cleanup (set_now t s1)))) <-> t <= origin).
Proof.
  intros Halloc Hk Hfresh Hnew s1 origin d. subst d s1 origin.
  rewrite snapshotTracedCgroups_run. cbn zeta.
  unfold decodedIDs. cbn [flat_map]. rewrite Hk. cbn [app].
  unfold recover. cbn [forEach]. rewrite bind_run. cbn [snd ret].
  destruct (HandleCgroupTracingEvent_registers env s (mkCgroupEvent id 0)
              Halloc Hfresh Hnew)
    as (Ha & (Hc & _) & (Hs & Ht) & Hexp).
  cbn [TimeoutRaw ContainerContextID] in *.
  destruct iteratorErr as [e|].
  - cbn [activeDumps heap set_log].
    split; [exact Ha|]. split; [exact Hc|]. split; [exact Hs|].
    split; [exact Ht|].
    intros Hr t. rewrite <- (Hexp Hr t). rewrite !cleanup_run.
    cbn [activeDumps set_activeDumps set_heap set_now set_log].
    unfold expired. cbn [now heap set_now set_log]. reflexivity.
  - split; [exact Ha|]. split; [exact Hc|]. split; [exact Hs|].
    split; [exact Ht|]. exact Hexp.
Qed.

Lemma recovered_dump_expires_at_clock_origin_witness :
  let s1 := snd (snapshotTracedCgroups demoEnv demoUnmarshal [[x63; x39]] None
                                       demoState) in
  activeDumps s1 = [0%nat; 1%nat; 5%nat] /\
  Timeout (heap s1 5%nat) = -100 /\
  ~ In 5%nat (activeDumps (snd (cleanup (set_now 100 s1)))).
Proof.
  destruct (recovered_dump_expires_at_clock_origin demoEnv demoUnmarshal
              [x63; x39] "c9" None demoState)
    as (Ha & _ & _ & Ht & Hexp).
  - apply demoState_Inv.
  - reflexivity.
  - intros q [<-|[<-|[]]]; discriminate.
  - reflexivity.
  - split; [exact Ha|]. split; [exact Ht|].
    assert (Hr : minInt64 <= 0 - 100 <= maxInt64)
      by (unfold minInt64, maxInt64; lia).
    intros H. apply (Hexp Hr) in H. vm_compute in H. apply H. reflexivity.
Defined.

(** ** Events after a removal *)

(** X27. A dump that left the registry is offered no further event.
    With the active dumps distinct, after the stop of a dump and after
    the cleanup of an expired one, ProcessEvent offers its event to the
    remaining dumps and not to the one removed. *)
Theorem removed_dump_gets_no_more_events (env : Env)
        (s : ActivityDumpManager) (event : Z) :
  Live s ->
  (forall comm pre p post,
      activeDumps s = pre ++ p :: post ->
      (forall q, In q pre -> Comm (heap s q) <> comm) ->
      Comm (heap s p) = comm ->
      let s1 := snd (StopActivityDump env comm s) in
      calls (snd (ProcessEvent event s1)) = calls s ++ offers event (pre ++ post)
      /\ ~ In (CInsert p event) (offers event (pre ++ post))) /\
  (forall p,
      In p (activeDumps s) -> expired s p = true ->
      let s1 := snd (cleanup s) in
      calls (snd (ProcessEvent event s1))
      = calls s ++ offers event (activeDumps s1)
      /\ ~ In (CInsert p event) (offers event (activeDumps s1))).
Proof.
  intros (Ha & Hn & Ho).
  assert (Hoff : forall p l, ~ In p l -> ~ In (CInsert p event) (offers event l)).
  { intros p l Hp Hin. apply in_map_iff in Hin.
    destruct Hin as (d & E & Hd). injection E as ->. contradiction. }
  split.
  - intros comm pre p post E Hpre Hp s1. subst s1.
    rewrite (StopActivityDump_found_run env comm s pre p post E Hpre Hp).
    cbn [snd]. unfold ProcessEvent. rewrite bind_run. cbn [fst snd gets].
    destruct (ProcessEvent_loop event (activeDumps (stopped env s pre p post))
                                (stopped env s pre p post)) as [Hc _].
    cbn zeta in Hc. rewrite Hc. split; [reflexivity|].
    apply Hoff. rewrite E in Hn. exact (NoDup_remove_2 _ _ _ Hn).
  - intros p Hp Hexp s1. subst s1.
    unfold ProcessEvent. rewrite bind_run. cbn [fst snd gets].
    destruct (ProcessEvent_loop event (activeDumps (snd (cleanup s)))
                                (snd (cleanup s))) as [Hc _].
    cbn zeta in Hc. rewrite Hc. split.
    + rewrite cleanup_run at 1. reflexivity.
    + apply Hoff. rewrite cleanup_run.
      cbn [activeDumps set_activeDumps]. intros Hin.
      apply filter_In in Hin. destruct Hin as [_ Hin].
      rewrite Hexp in Hin. discriminate.
Qed.

Lemma removed_dump_gets_no_more_events_witness :
  calls (snd (ProcessEvent 7 (snd (StopActivityDump demoEnv "nginx" demoState))))
  = [CInsert 0%nat 7].
Proof.
  assert (HL : Live demoState).
  { unfold Live. split; [apply demoState_Inv|].
    split; repeat constructor; simpl; intuition discriminate. }
  destruct (removed_dump_gets_no_more_events demoEnv demoState 7 HL) as [H _].
  destruct (H "nginx"%string [0%nat] 1%nat []) as [Hc _].
  - reflexivity.
  - intros q [<-|[]]. discriminate.
  - reflexivity.
  - exact Hc.
Defined.

(** ** The configuration as unsigned numbers *)

(** X28. getTracedCgroupsCount and getDefaultDumpTimeout give the
    configured count and timeout as unsigned 64-bit numbers: a value that
    is not negative is kept, and a negative one is not refused but comes
    out raised by 2^64, above every signed 64-bit value. *)
Theorem kernel_constants_wrap_when_negative (p : Probe) :
  minInt64 <= ActivityDumpTracedCgroupsCount p <= maxInt64 ->
  minInt64 <= ActivityDumpDefaultDumpTimeout (probeConfig p) <= maxInt64 ->
  let count := ActivityDumpTracedCgroupsCount p in
  let timeout := ActivityDumpDefaultDumpTimeout (probeConfig p) in
  (0 <= count -> getTracedCgroupsCount p = count) /\
  (count < 0 -> getTracedCgroupsCount p = count + 2 ^ 64 /\
                maxInt64 < getTracedCgroupsCount p) /\
  (0 <= timeout -> getDefaultDumpTimeout p = timeout) /\
  (timeout < 0 -> getDefaultDumpTimeout p = timeout + 2 ^ 64 /\
                  maxInt64 < getDefaultDumpTimeout p).
Proof.
  unfold getTracedCgroupsCount, getDefaultDumpTimeout, toUint64,
    minInt64, maxInt64.
  intros Hc Ht. cbn zeta.
  assert (Hpos : forall x, 0 <= x <= 2 ^ 63 - 1 -> x mod 2 ^ 64 = x)
    by (intros x Hx; apply Z.mod_small; lia).
  assert (Hneg : forall x, - 2 ^ 63 <= x < 0 -> x mod 2 ^ 64 = x + 2 ^ 64).
  { intros x Hx. symmetry.
    apply (Z.mod_unique_pos x (2 ^ 64) (-1) (x + 2 ^ 64)); lia. }
  split; [|split; [|split]].
  - intros H. apply Hpos. lia.
  - intros H. rewrite Hneg by lia. split; lia.
  - intros H. apply Hpos. lia.
  - intros H. rewrite Hneg by lia. split; lia.
Qed.

Lemma kernel_constants_wrap_when_negative_witness :
  getTracedCgroupsCount negativeProbe = 18446744073709551611 /\
  getDefaultDumpTimeout negativeProbe = 18446744073709551615.
Proof.
  destruct (kernel_constants_wrap_when_negative negativeProbe)
    as (_ & Hc & _ & Ht).
  - unfold minInt64, maxInt64. simpl. lia.
  - unfold minInt64, maxInt64. simpl. lia.
  - split.
    + apply Hc. simpl. lia.
    + apply Ht. simpl. lia.
Defined.
